(** * The telemetry and resource-scheduling core of [AdvancedOverwatchTOSS]

    A shallow embedding of the scheduling core of
    [src/command_center/overwatch_toss.py]: the pool of simulated quantum
    processors with its admission loop ([execute_quantum_task]), the bounded
    data streams with their processing loop ([_process_data_stream]), the
    performance monitor ([_monitor_performance]) and the adaptive optimizer
    ([_needs_optimization], [_perform_adaptive_optimization]).
    Beside the core it embeds its callers in the same file: tasks awaited one
    after the other, the analysis, health and recommendation parts of the
    report, the dashboard layouts and the input of the allocation model.

    The file has three parts: the model (exceptions and the monad of the
    computations, the data, the operations, the transition system), the
    vocabulary of the properties, and the properties with their proofs,
    followed by concrete runs.

    Conventions of the embedding.
    - A coroutine runs without interruption between two [await]s, so each
      such stretch is one atomic transition of the system state.
    - [datetime.now()], the random draws of numpy and the failures of the
      external services (redis, the AI models) are inputs of the transition
      that consumes them.
    - Python floats are rationals; every arithmetic result goes through the
      rounding function of a [Rounding] structure, of which exact arithmetic
      is one instance.
    - The dictionaries [quantum_processors] and [data_streams] are iterated
      in insertion order; they are association lists. *)

From Stdlib Require Import String ZArith QArith Qminmax Qround Bool Arith List Lia Lqa.
From Stdlib Require Import Qpower.
Import ListNotations.

Set Implicit Arguments.

(** ** Python exceptions and a state-and-exception monad *)

Module Py.

(** The exception classes the modelled code distinguishes.
    [asyncio.CancelledError] derives from [BaseException] only, so an
    [except Exception] clause does not catch it. *)
Inductive exn : Type :=
| TimeoutError
| QueueEmpty
| QueueFull
| Exception (msg : string)
| CancelledError.

Definition is_Exception (e : exn) : bool :=
  match e with
  | CancelledError => false
  | _ => true
  end.

Definition is_TimeoutError (e : exn) : bool :=
  match e with
  | TimeoutError => true
  | _ => false
  end.

Inductive outcome (A : Type) : Type :=
| Return (a : A)
| Raise (e : exn).
Arguments Raise {A} e.

Section Monad.
Variable S : Type.

Definition M (A : Type) : Type := S -> outcome A * S.

Definition ret {A} (a : A) : M A := fun s => (Return a, s).

Definition raise {A} (e : exn) : M A := fun s => (Raise e, s).

Definition bind {A B} (m : M A) (k : A -> M B) : M B :=
  fun s =>
    match m s with
    | (Return a, s1) => k a s1
    | (Raise e, s1) => (Raise e, s1)
    end.

Definition get : M S := fun s => (Return s, s).

Definition modify (f : S -> S) : M unit := fun s => (Return tt, f s).

(** [try: body finally: fin]. The [finally] suite runs on both exits of
    [body]; unless it raises itself, the outcome of [body] stands. *)
Definition try_finally {A} (body : M A) (fin : M unit) : M A :=
  fun s =>
    let (r, s1) := body s in
    match fin s1 with
    | (Return _, s2) => (r, s2)
    | (Raise e, s2) => (Raise e, s2)
    end.

(** [try: body except ...: handler]. [handler e] is the chain of
    [except] clauses applied to [e]; a clause that does not match
    re-raises. *)
Definition try_except {A} (body : M A) (handler : exn -> M A) : M A :=
  fun s =>
    match body s with
    | (Return a, s1) => (Return a, s1)
    | (Raise e, s1) => handler e s1
    end.

(** [for x in xs: body x] *)
Fixpoint for_each {X} (xs : list X) (body : X -> M unit) : M unit :=
  match xs with
  | [] => ret tt
  | x :: rest => bind (body x) (fun _ => for_each rest body)
  end.
End Monad.

Arguments ret {S A} a _.
Arguments raise {S A} e _.
Arguments bind {S A B} m k _.
Arguments get {S} _.
Arguments modify {S} f _.
Arguments try_finally {S A} body fin _.
Arguments try_except {S A} body handler _.
Arguments for_each {S X} xs body _.

End Py.

Import Py.

Declare Scope py_scope.
Delimit Scope py_scope with py.
Notation "x <- m ;; k" := (bind m (fun x => k))
  (at level 61, m at next level, right associativity) : py_scope.
Notation "m ;;; k" := (bind m (fun _ => k))
  (at level 61, right associativity) : py_scope.

(** ** Floating-point arithmetic up to rounding *)

Class Rounding : Type := {
  rnd : Q -> Q;
  rnd_le : forall x y : Q, x <= y -> rnd x <= rnd y;
  rnd_0 : rnd 0 == 0;
  rnd_1 : rnd 1 == 1
}.

(** Exact arithmetic: nothing is rounded. *)
#[export] Instance exact_rounding : Rounding := {|
  rnd := fun q => q;
  rnd_le := fun _ _ h => h;
  rnd_0 := Qeq_refl 0;
  rnd_1 := Qeq_refl 1
|}.

(** Rounding down to a multiple of [1/k]: the rounding function of a
    lossy instance. *)
Definition grid_rnd (k : positive) (q : Q) : Q :=
  inject_Z (Qfloor (q * inject_Z (Zpos k))) / inject_Z (Zpos k).

(** ** Dictionaries in insertion order *)

Section Dict.
Variable V : Type.

Definition dict : Type := list (string * V).

(** [d[k]], as an option *)
Fixpoint lookup (k : string) (d : dict) : option V :=
  match d with
  | [] => None
  | (k', v) :: rest => if String.eqb k' k then Some v else lookup k rest
  end.

(** In-place mutation of the object stored under [k]. *)
Definition update (k : string) (f : V -> V) (d : dict) : dict :=
  map (fun kv => if String.eqb (fst kv) k then (fst kv, f (snd kv)) else kv) d.

Definition keys (d : dict) : list string := map fst d.
End Dict.

(** ** Data model *)

(** [datetime.now().timestamp()], in microseconds. The task id
    [f"quantum_task_{timestamp}"] is determined by the timestamp and
    determines it; it is represented by the timestamp. *)
Definition timestamp : Type := Z.
Definition task_id : Type := timestamp.

(** [QuantumState]; of its fields the modelled code reads [coherence]
    only. *)
Record QuantumState : Type := {
  coherence : Q
}.

(** One entry of [self.quantum_processors]. The entries [qubits],
    [coherence_time], [fidelity] and [processing_power] are constants that
    the scheduling code never reads. *)
Record processor : Type := {
  state : QuantumState;
  current_tasks : list task_id
}.

Definition with_coherence (c : Q) (p : processor) : processor :=
  {| state := {| coherence := c |}; current_tasks := current_tasks p |}.

Definition with_tasks (ts : list task_id) (p : processor) : processor :=
  {| state := state p; current_tasks := ts |}.

(** An event on a stream, as [_process_quantum_data] reads it: for some
    processor ids, a dictionary that may have a ['coherence'] entry. *)
Definition event : Type := dict (option Q).

(** [asyncio.Queue(maxsize=...)]: the oldest item is at the head. *)
Record queue : Type := {
  maxsize : nat;
  items : list event
}.

Definition qsize (q : queue) : nat := length (items q).
Definition empty (q : queue) : bool := Nat.eqb (qsize q) 0.

(** [AdvancedMetrics] *)
Record AdvancedMetrics : Type := {
  processing_efficiency : Q;
  predictive_accuracy : Q;
  system_reliability : Q;
  quantum_coherence : Q;
  ai_confidence : Q;
  real_time_performance : Q;
  cross_system_correlation : Q
}.

(** The lines the loggers receive. *)
Inductive log_entry : Type :=
| QuantumTaskCompleted (t : task_id)
| StreamError (stream_name : string) (e : exn)
| HandlerError (handler : string) (e : exn)
| AIDecision (data : event)
| PerformanceMetrics (m : AdvancedMetrics)
| PerformingOptimization
| OptimizedProcessor (processor_id : string)
| OptimizingModel (model_name : string)
| ClearedStream (stream_name : string)
| OptimizationCompleted
| OptimizationError (e : exn).

(** The attributes of [AdvancedOverwatchTOSS] the core works on. *)
Record system : Type := {
  quantum_processors : dict processor;
  data_streams : dict queue;
  ai_models : list string;
  performance_metrics : AdvancedMetrics;
  logs : list log_entry
}.

Definition with_processors (f : dict processor -> dict processor) (s : system) : system :=
  {| quantum_processors := f (quantum_processors s);
     data_streams := data_streams s;
     ai_models := ai_models s;
     performance_metrics := performance_metrics s;
     logs := logs s |}.

Definition with_streams (f : dict queue -> dict queue) (s : system) : system :=
  {| quantum_processors := quantum_processors s;
     data_streams := f (data_streams s);
     ai_models := ai_models s;
     performance_metrics := performance_metrics s;
     logs := logs s |}.

Definition with_metrics (m : AdvancedMetrics) (s : system) : system :=
  {| quantum_processors := quantum_processors s;
     data_streams := data_streams s;
     ai_models := ai_models s;
     performance_metrics := m;
     logs := logs s |}.

(** [logger.info] / [logger.error]: the line is appended. *)
Definition log (e : log_entry) : M system unit :=
  modify (fun s =>
    {| quantum_processors := quantum_processors s;
       data_streams := data_streams s;
       ai_models := ai_models s;
       performance_metrics := performance_metrics s;
       logs := logs s ++ [e] |}).

(** *** Initial state *)

(** [_initialize_quantum_processors] *)
Definition initial_processors : dict processor :=
  [ ("quantum_core_1"%string, {| state := {| coherence := 1 |}; current_tasks := [] |});
    ("quantum_core_2"%string, {| state := {| coherence := 95 # 100 |}; current_tasks := [] |});
    ("quantum_core_3"%string, {| state := {| coherence := 98 # 100 |}; current_tasks := [] |}) ].

(** [_start_real_time_streaming] *)
Definition initial_streams : dict queue :=
  [ ("surveillance_stream"%string, {| maxsize := 1000; items := [] |});
    ("operations_stream"%string, {| maxsize := 1000; items := [] |});
    ("analytics_stream"%string, {| maxsize := 1000; items := [] |});
    ("security_stream"%string, {| maxsize := 1000; items := [] |});
    ("quantum_stream"%string, {| maxsize := 500; items := [] |});
    ("ai_decision_stream"%string, {| maxsize := 500; items := [] |}) ].

(** The keys that [_initialize_ai_models] stores when it succeeds. *)
Definition initial_ai_models : list string :=
  [ "pattern_recognition"; "time_series_prediction"; "language_processor";
    "anomaly_detector"; "pattern_clusterer" ]%string.

(** [__init__] *)
Definition zero_metrics : AdvancedMetrics :=
  {| processing_efficiency := 0; predictive_accuracy := 0;
     system_reliability := 0; quantum_coherence := 0; ai_confidence := 0;
     real_time_performance := 0; cross_system_correlation := 0 |}.

(** The state once [start_advanced_systems] has run its initializers. *)
Definition initial_system : system :=
  {| quantum_processors := initial_processors;
     data_streams := initial_streams;
     ai_models := initial_ai_models;
     performance_metrics := zero_metrics;
     logs := [] |}.

(** ** Operations *)

Section Core.
Context {R : Rounding}.

Local Open Scope py_scope.

(** *** Float operations *)

(** A float literal, and the float product, sum, difference, quotient. *)
Definition lit (q : Q) : Q := rnd q.
Definition fmul (x y : Q) : Q := rnd (x * y).
Definition fadd (x y : Q) : Q := rnd (x + y).
Definition fsub (x y : Q) : Q := rnd (x - y).
Definition fdiv (x y : Q) : Q := rnd (x / y).
Definition of_int (n : nat) : Q := inject_Z (Z.of_nat n).

(** [min(a, b)] and [max(a, b)] of Python: the first argument unless the
    second is strictly smaller (resp. larger). *)
Definition py_min (a b : Q) : Q := if Qlt_le_dec b a then b else a.
Definition py_max (a b : Q) : Q := if Qlt_le_dec a b then b else a.

(** *** The processor pool *)

(** Maximum number of concurrent tasks of a processor (the literal [2] of
    the admission loop). *)
Definition capacity : nat := 2.

(** The decay factor [0.99], the recalibration threshold [0.7] and the
    recalibration step [0.1]. *)
Definition decay : Q := lit (99 # 100).
Definition coherence_threshold : Q := lit (7 # 10).
Definition recalibration_step : Q := lit (1 # 10).

(** The loop at the head of [execute_quantum_task]: the first processor, in
    the order of the dictionary, with fewer than two current tasks. *)
Fixpoint find_available (procs : dict processor) : option string :=
  match procs with
  | [] => None
  | (proc_id, p) :: rest =>
      if length (current_tasks p) <? capacity then Some proc_id
      else find_available rest
  end.

(** Truth value of [available_processor]: [None] and the empty string are
    false. *)
Definition truthy (o : option string) : bool :=
  match o with
  | None => false
  | Some id => negb (String.eqb id "")
  end.

(** The object a reference [processor = self.quantum_processors[id]] denotes.
    No code removes a processor, so the reference stays valid. *)
Definition no_processor : processor :=
  {| state := {| coherence := 0 |}; current_tasks := [] |}.

Definition the_processor (id : string) (s : system) : processor :=
  match lookup id (quantum_processors s) with
  | Some p => p
  | None => no_processor
  end.

Definition mutate_processor (id : string) (f : processor -> processor) : M system unit :=
  modify (with_processors (update id f)).

(** [l.remove(x)]: the first occurrence goes. *)
Fixpoint remove_first (x : task_id) (l : list task_id) : list task_id :=
  match l with
  | [] => []
  | y :: rest => if Z.eqb y x then rest else y :: remove_first x rest
  end.

(** [x in l] *)
Definition contains (x : task_id) (l : list task_id) : bool :=
  existsb (Z.eqb x) l.

(** What the environment decides about the work of a task: the sleep and
    the construction of the result either go through, with the draw [u] of
    [np.random.uniform(0.9, 1.0)], or raise. *)
Inductive work : Type :=
| WorkDone (u : Q)
| WorkRaises (e : exn).

(** The dictionary that [execute_quantum_task] returns (the fields that
    depend on the state or on the arguments). *)
Record task_result : Type := {
  r_task_id : task_id;
  r_task_type : string;
  r_processor_id : string;
  r_coherence : Q
}.

(** [processor['current_tasks'].append(task_id)] *)
Definition append_task (id : string) (t : task_id) : M system unit :=
  mutate_processor id (fun p => with_tasks (current_tasks p ++ [t]) p).

(** The [try] suite after the append: sleep, result, decoherence, log,
    return. *)
Definition task_work (id : string) (t : task_id) (task_type : string) (w : work)
  : M system task_result :=
  match w with
  | WorkRaises e => raise e
  | WorkDone u =>
      s <- get ;;
      let result := {| r_task_id := t; r_task_type := task_type;
                       r_processor_id := id;
                       r_coherence := fmul (coherence (state (the_processor id s))) u |} in
      mutate_processor id
        (fun p => with_coherence (fmul (coherence (state p)) decay) p) ;;;
      log (QuantumTaskCompleted t) ;;;
      ret result
  end.

(** The [finally] suite. *)
Definition release (id : string) (t : task_id) : M system unit :=
  s <- get ;;
  if contains t (current_tasks (the_processor id s))
  then mutate_processor id (fun p => with_tasks (remove_first t (current_tasks p)) p)
  else ret tt.

Definition no_processor_available : exn :=
  Exception "No quantum processor available".

(** [execute_quantum_task], run from call to return with nothing else
    scheduled in between. [now] is the clock reading that names the task. *)
Definition execute_quantum_task (now : timestamp) (task_type : string) (w : work)
  : M system task_result :=
  s <- get ;;
  let available_processor := find_available (quantum_processors s) in
  if negb (truthy available_processor) then raise no_processor_available
  else
    let id := match available_processor with Some id => id | None => ""%string end in
    let t : task_id := now in
    try_finally
      (append_task id t ;;; task_work id t task_type w)
      (release id t).

(** The same coroutine cut at its [await asyncio.sleep]: [submit] is the
    stretch from the call to the sleep, [resume] the stretch from the
    wake-up to the exit. Other coroutines run in between. *)
Definition submit (now : timestamp) : M system (string * task_id) :=
  s <- get ;;
  let available_processor := find_available (quantum_processors s) in
  if negb (truthy available_processor) then raise no_processor_available
  else
    let id := match available_processor with Some id => id | None => ""%string end in
    append_task id now ;;;
    ret (id, now).

Definition resume (id : string) (t : task_id) (task_type : string) (w : work)
  : M system task_result :=
  try_finally (task_work id t task_type w) (release id t).

(** *** The data streams *)

(** [queue.get_nowait()] *)
Definition get_nowait : M queue event :=
  fun q =>
    match items q with
    | [] => (Raise QueueEmpty, q)
    | x :: rest => (Return x, {| maxsize := maxsize q; items := rest |})
    end.

(** [queue.put_nowait(item)], the entry point of the producers; a queue of
    [maxsize] 0 is unbounded. *)
Definition put_nowait (x : event) : M queue unit :=
  fun q =>
    if (0 <? maxsize q) && (maxsize q <=? qsize q)
    then (Raise QueueFull, q)
    else (Return tt, {| maxsize := maxsize q; items := items q ++ [x] |}).

(** The queue a reference [queue = self.data_streams[name]] denotes. *)
Definition no_queue : queue := {| maxsize := 0; items := [] |}.

Definition the_queue (name : string) (s : system) : queue :=
  match lookup name (data_streams s) with
  | Some q => q
  | None => no_queue
  end.

(** Runs a queue operation on the queue stored under [name]. *)
Definition on_queue {A} (name : string) (m : M queue A) : M system A :=
  fun s =>
    let (r, q') := m (the_queue name s) in
    (r, with_streams (update name (fun _ => q')) s).

(** What the environment decides during one iteration of a stream
    processor: whether the task is cancelled while it waits, and whether
    the external calls of the handler (the models, redis) raise. *)
Record iteration_env : Type := {
  cancelled : bool;
  fault : option exn
}.

(** An external call. *)
Definition external (f : option exn) : M system unit :=
  match f with
  | None => ret tt
  | Some e => raise e
  end.

(** [await asyncio.wait_for(queue.get(), timeout=1.0)], observed when the
    coroutine runs again: the oldest item if there is one, a timeout if the
    queue stayed empty, the cancellation if there was one. *)
Definition wait_for_get (name : string) (is_cancelled : bool) : M system event :=
  if is_cancelled then raise CancelledError
  else try_except (on_queue name get_nowait)
         (fun e => match e with QueueEmpty => raise TimeoutError | _ => raise e end).

(** The [try ... except Exception as e: self.logger.error(...)] that wraps
    the body of every [_process_*_data]. *)
Definition guarded (handler : string) (body : M system unit) : M system unit :=
  try_except body
    (fun e => if is_Exception e then log (HandlerError handler e) else raise e).

(** The loop of [_process_quantum_data] over the processors. *)
Definition update_coherence (data : event) (kv : string * processor) : string * processor :=
  match lookup (fst kv) data with
  | Some entry =>
      (fst kv,
       with_coherence
         (match entry with Some c => c | None => coherence (state (snd kv)) end)
         (snd kv))
  | None => kv
  end.

Definition _process_quantum_data (data : event) (f : option exn) : M system unit :=
  guarded "quantum"
    (modify (with_processors (map (update_coherence data))) ;;;
     external f).

Definition _process_ai_decision_data (data : event) (f : option exn) : M system unit :=
  guarded "AI decision" (log (AIDecision data) ;;; external f).

(** The handlers of the other four streams change no modelled state. *)
Definition _process_other_data (handler : string) (f : option exn) : M system unit :=
  guarded handler (external f).

(** The [if]/[elif] chain of [_process_data_stream]. *)
Definition dispatch (stream_name : string) (data : event) (f : option exn) : M system unit :=
  if String.eqb stream_name "surveillance_stream" then _process_other_data "surveillance" f
  else if String.eqb stream_name "operations_stream" then _process_other_data "operations" f
  else if String.eqb stream_name "analytics_stream" then _process_other_data "analytics" f
  else if String.eqb stream_name "security_stream" then _process_other_data "security" f
  else if String.eqb stream_name "quantum_stream" then _process_quantum_data data f
  else if String.eqb stream_name "ai_decision_stream" then _process_ai_decision_data data f
  else ret tt.

(** One iteration of the [while True] of [_process_data_stream].
    [queue.task_done()] only decrements a counter that nothing reads. *)
Definition stream_iteration (stream_name : string) (env : iteration_env) : M system unit :=
  try_except
    (data <- wait_for_get stream_name (cancelled env) ;;
     dispatch stream_name data (fault env))
    (fun e =>
       if is_TimeoutError e then ret tt
       else if is_Exception e then log (StreamError stream_name e)
       else raise e).

(** [_process_data_stream] along a finite prefix of what the environment
    decides. The loop has no exit of its own: it is left only by an
    exception that escapes an iteration. *)
Definition _process_data_stream (stream_name : string) (envs : list iteration_env)
  : M system unit :=
  for_each envs (stream_iteration stream_name).

(** *** The adaptive optimizer *)

(** [for k, v in d.items(): body], where the body mutates the object [v]
    and logs; an exception raised by the body leaves the loop. *)
Fixpoint for_items {V} (body : string -> V -> outcome unit * (V * list log_entry))
    (d : dict V) : outcome unit * (dict V * list log_entry) :=
  match d with
  | [] => (Return tt, ([], []))
  | (k, v) :: rest =>
      match body k v with
      | (Raise e, (v', l)) => (Raise e, ((k, v') :: rest, l))
      | (Return _, (v', l)) =>
          let '(r, (rest', l')) := for_items body rest in
          (r, ((k, v') :: rest', l ++ l'))
      end
  end.

(** The body of the loop over the processors. *)
Definition recalibrate (id : string) (p : processor)
  : outcome unit * (processor * list log_entry) :=
  if Qlt_le_dec (coherence (state p)) coherence_threshold
  then (Return tt,
        (with_coherence (py_min 1 (fadd (coherence (state p)) recalibration_step)) p,
         [OptimizedProcessor id]))
  else (Return tt, (p, [])).

(** The literals of the loop over the streams. *)
Definition overload_threshold : nat := 800.
Definition shed_batch : nat := 100.

(** [for _ in range(n): try: queue.get_nowait() except QueueEmpty: break] *)
Fixpoint drain (n : nat) : M queue unit :=
  match n with
  | O => ret tt
  | S n' =>
      stop <- try_except (get_nowait ;;; ret false)
                (fun e => match e with QueueEmpty => ret true | _ => raise e end) ;;
      if stop : bool then ret tt else drain n'
  end.

(** The body of the loop over the streams. *)
Definition clear_overloaded (stream_name : string) (q : queue)
  : outcome unit * (queue * list log_entry) :=
  if overload_threshold <? qsize q
  then match drain shed_batch q with
       | (Return _, q') => (Return tt, (q', [ClearedStream stream_name]))
       | (Raise e, q') => (Raise e, (q', []))
       end
  else (Return tt, (q, [])).

Definition optimize_processors : M system unit :=
  fun s =>
    let '(r, (d, l)) := for_items recalibrate (quantum_processors s) in
    (r, {| quantum_processors := d;
           data_streams := data_streams s;
           ai_models := ai_models s;
           performance_metrics := performance_metrics s;
           logs := logs s ++ l |}).

Definition optimize_models : M system unit :=
  s <- get ;;
  for_each (ai_models s)
    (fun model_name =>
       if String.eqb model_name "language_processor" then ret tt
       else log (OptimizingModel model_name)).

Definition clear_streams : M system unit :=
  fun s =>
    let '(r, (d, l)) := for_items clear_overloaded (data_streams s) in
    (r, {| quantum_processors := quantum_processors s;
           data_streams := d;
           ai_models := ai_models s;
           performance_metrics := performance_metrics s;
           logs := logs s ++ l |}).

Definition _perform_adaptive_optimization : M system unit :=
  try_except
    (log PerformingOptimization ;;;
     optimize_processors ;;;
     optimize_models ;;;
     clear_streams ;;;
     log OptimizationCompleted)
    (fun e => if is_Exception e then log (OptimizationError e) else raise e).

(** The [thresholds] dictionary of [_needs_optimization], each name with
    the attribute of [AdvancedMetrics] that [getattr] reads. *)
Definition thresholds : list ((AdvancedMetrics -> Q) * Q) :=
  [ (processing_efficiency, lit (7 # 10));
    (predictive_accuracy, lit (8 # 10));
    (system_reliability, lit (9 # 10));
    (quantum_coherence, lit (6 # 10));
    (ai_confidence, lit (75 # 100));
    (real_time_performance, lit (8 # 10)) ].

Definition _needs_optimization (s : system) : bool :=
  existsb
    (fun mt => if Qlt_le_dec (fst mt (performance_metrics s)) (snd mt) then true else false)
    thresholds.

(** One iteration of [_adaptive_optimization_loop]. *)
Definition optimization_tick : M system unit :=
  s <- get ;;
  if _needs_optimization s then _perform_adaptive_optimization else ret tt.

(** *** The performance monitor *)

(** What the environment decides during one sampling: the mean of the
    accuracies drawn for the models, the confidence drawn, and the seconds
    the sampling took. *)
Record sampling_env : Type := {
  drawn_accuracy : Q;
  drawn_confidence : Q;
  processing_time : Q
}.

(** Number of entries of [self.strategic_categories]. *)
Definition widgets : nat := 8.

Definition _measure_processing_efficiency (s : system) : Q :=
  let active_streams :=
    length (filter (fun kv => negb (empty (snd kv))) (data_streams s)) in
  let total_streams := length (data_streams s) in
  fdiv (of_int active_streams) (of_int (Nat.max total_streams 1)).

Definition _measure_predictive_accuracy (env : sampling_env) (s : system) : Q :=
  match ai_models s with
  | [] => 0
  | _ => drawn_accuracy env
  end.

Definition _measure_system_reliability (s : system) : Q :=
  let active_widgets := widgets in
  let total_widgets := widgets in
  let active_quantum :=
    length (filter (fun kv => if Qlt_le_dec (lit (5 # 10)) (coherence (state (snd kv)))
                              then true else false)
              (quantum_processors s)) in
  let total_quantum := length (quantum_processors s) in
  let widget_reliability := fdiv (of_int active_widgets) (of_int (Nat.max total_widgets 1)) in
  let quantum_reliability := fdiv (of_int active_quantum) (of_int (Nat.max total_quantum 1)) in
  fdiv (fadd widget_reliability quantum_reliability) 2.

(** [np.mean(coherences) if coherences else 0.0] *)
Definition _measure_quantum_coherence (s : system) : Q :=
  let coherences := map (fun kv => coherence (state (snd kv))) (quantum_processors s) in
  match coherences with
  | [] => 0
  | _ => fdiv (fold_left fadd coherences 0) (of_int (length coherences))
  end.

Definition _measure_ai_confidence (env : sampling_env) : Q := drawn_confidence env.

(** The measurements of one iteration of [_monitor_performance]. *)
Definition sample (env : sampling_env) (s : system) : AdvancedMetrics :=
  {| processing_efficiency := _measure_processing_efficiency s;
     predictive_accuracy := _measure_predictive_accuracy env s;
     system_reliability := _measure_system_reliability s;
     quantum_coherence := _measure_quantum_coherence s;
     ai_confidence := _measure_ai_confidence env;
     real_time_performance := py_max 0 (fsub 1 (fdiv (processing_time env) 10));
     cross_system_correlation := cross_system_correlation (performance_metrics s) |}.

Definition monitor_iteration (env : sampling_env) : M system unit :=
  s <- get ;;
  modify (with_metrics (sample env s)) ;;;
  log (PerformanceMetrics (sample env s)).

(** The numeric entries of [metrics_data], the snapshot that
    [_publish_performance_metrics] sends out. *)
Definition metrics_data (s : system) : list (string * Q) :=
  let m := performance_metrics s in
  [ ("processing_efficiency"%string, processing_efficiency m);
    ("predictive_accuracy"%string, predictive_accuracy m);
    ("system_reliability"%string, system_reliability m);
    ("quantum_coherence"%string, quantum_coherence m);
    ("ai_confidence"%string, ai_confidence m);
    ("real_time_performance"%string, real_time_performance m);
    ("cross_system_correlation"%string, cross_system_correlation m) ].

(** *** The system as a transition system *)

(** A coroutine of [execute_quantum_task] suspended in its sleep. *)
Record coroutine : Type := {
  c_processor : string;
  c_task : task_id;
  c_type : string
}.

Record config : Type := {
  sys : system;
  suspended : list coroutine
}.

(** What the event loop runs next. *)
Inductive label : Type :=
| Submit (now : timestamp) (task_type : string)
| Resume (n : nat) (w : work)
| Publish (stream_name : string) (data : event)
| StreamIteration (stream_name : string) (env : iteration_env)
| MonitorIteration (env : sampling_env)
| OptimizationTick.

Fixpoint remove_nth {A} (n : nat) (l : list A) : list A :=
  match n, l with
  | _, [] => []
  | O, _ :: rest => rest
  | S n', x :: rest => x :: remove_nth n' rest
  end.

Definition fire (l : label) (c : config) : config :=
  match l with
  | Submit now task_type =>
      match submit now (sys c) with
      | (Return (id, t), s') =>
          {| sys := s';
             suspended := suspended c ++
               [{| c_processor := id; c_task := t; c_type := task_type |}] |}
      | (Raise _, s') => {| sys := s'; suspended := suspended c |}
      end
  | Resume n w =>
      match nth_error (suspended c) n with
      | Some k =>
          {| sys := snd (resume (c_processor k) (c_task k) (c_type k) w (sys c));
             suspended := remove_nth n (suspended c) |}
      | None => c
      end
  | Publish stream_name data =>
      {| sys := snd (on_queue stream_name (put_nowait data) (sys c));
         suspended := suspended c |}
  | StreamIteration stream_name env =>
      {| sys := snd (stream_iteration stream_name env (sys c));
         suspended := suspended c |}
  | MonitorIteration env =>
      {| sys := snd (monitor_iteration env (sys c)); suspended := suspended c |}
  | OptimizationTick =>
      {| sys := snd (optimization_tick (sys c)); suspended := suspended c |}
  end.

Definition run (ls : list label) (c : config) : config :=
  fold_left (fun c l => fire l c) ls c.

Definition initial_config : config :=
  {| sys := initial_system; suspended := [] |}.

End Core.

(** * The callers: sequential tasks, the report, the dashboard layouts *)

Section Reports.
Context {R : Rounding}.
Local Open Scope py_scope.

(** ** Tasks one after the other *)

(** The loop of [main] awaits one [execute_quantum_task] after the other; a
    job is the clock reading that names the task and the draw of its
    result. The tasks run here with no other coroutine in between; a task
    that raises ends the loop, which has no handler for it. *)
Fixpoint run_tasks (task_type : string) (jobs : list (timestamp * Q)) (s : system) : system :=
  match jobs with
  | [] => s
  | (now, u) :: rest =>
      match execute_quantum_task now task_type (WorkDone u) s with
      | (Return _, s') => run_tasks task_type rest s'
      | (Raise _, s') => s'
      end
  end.

(** ** The quantum analysis of the report *)

(** The constant entries [qubits] and [fidelity] of the processors, as
    [_initialize_quantum_processors] writes them. *)
Definition processor_constants : dict (nat * Q) :=
  [ ("quantum_core_1"%string, (64%nat, lit (999 # 1000)));
    ("quantum_core_2"%string, (32%nat, lit (998 # 1000)));
    ("quantum_core_3"%string, (16%nat, lit (997 # 1000))) ].

Definition constants_of (id : string) : nat * Q :=
  match lookup id processor_constants with
  | Some c => c
  | None => (0%nat, 0)
  end.

(** One entry of [quantum_analysis['processors']]. *)
Record processor_analysis : Type := {
  a_coherence : Q;
  a_qubits : nat;
  a_fidelity : Q;
  a_utilization : Q;
  a_performance_score : Q
}.

(** The loop of [_generate_quantum_analysis] over the processors. *)
Definition analyse_processor (kv : string * processor) : string * processor_analysis :=
  (fst kv,
   {| a_coherence := coherence (state (snd kv));
      a_qubits := fst (constants_of (fst kv));
      a_fidelity := snd (constants_of (fst kv));
      a_utilization := fdiv (of_int (length (current_tasks (snd kv)))) 2;
      a_performance_score :=
        fmul (coherence (state (snd kv))) (snd (constants_of (fst kv))) |}).

Definition _generate_quantum_analysis (s : system) : Q * dict processor_analysis :=
  (_measure_quantum_coherence s, map analyse_processor (quantum_processors s)).

(** ** The health of the system *)

Inductive health_status : Type := excellent | good | fair | poor.

(** The weighted sum of [_assess_system_health], added from left to
    right. *)
Definition health_score (m : AdvancedMetrics) : Q :=
  fadd (fadd (fadd (fadd (fmul (processing_efficiency m) (lit (2 # 10)))
                         (fmul (predictive_accuracy m) (lit (2 # 10))))
                   (fmul (system_reliability m) (lit (3 # 10))))
             (fmul (quantum_coherence m) (lit (15 # 100))))
       (fmul (ai_confidence m) (lit (15 # 100))).

Definition health_status_of (score : Q) : health_status :=
  if Qlt_le_dec (lit (9 # 10)) score then excellent
  else if Qlt_le_dec (lit (8 # 10)) score then good
  else if Qlt_le_dec (lit (6 # 10)) score then fair
  else poor.

Inductive issue : Type :=
| quantum_decoherence (component : string)
| ai_performance.

(** [_identify_critical_issues] *)
Definition _identify_critical_issues (s : system) : list issue :=
  flat_map
    (fun kv => if Qlt_le_dec (coherence (state (snd kv))) (lit (5 # 10))
               then [quantum_decoherence (fst kv)] else [])
    (quantum_processors s)
  ++ (if Qlt_le_dec (ai_confidence (performance_metrics s)) (lit (7 # 10))
      then [ai_performance] else []).

Record health_report : Type := {
  overall_score : Q;
  status : health_status;
  critical_issues : list issue
}.

Definition _assess_system_health (s : system) : health_report :=
  {| overall_score := health_score (performance_metrics s);
     status := health_status_of (health_score (performance_metrics s));
     critical_issues := _identify_critical_issues s |}.

Inductive recommendation : Type :=
| optimize_stream_processing
| recalibrate_quantum_processors.

(** [_generate_recommendations] *)
Definition _generate_recommendations (s : system) : list recommendation :=
  (if Qlt_le_dec (processing_efficiency (performance_metrics s)) (lit (8 # 10))
   then [optimize_stream_processing] else [])
  ++ (if Qlt_le_dec (quantum_coherence (performance_metrics s)) (lit (7 # 10))
      then [recalibrate_quantum_processors] else []).

(** ** The input of the allocation model *)

(** [(current_allocation + [0] * 20)[:20]] of
    [AdvancedOperationsWidget._optimize_task_allocation] *)
Definition allocation_input (current_allocation : list Q) : list Q :=
  firstn 20 (current_allocation ++ repeat 0 20).

End Reports.

(** ** The dashboard layouts *)

(** A widget of a layout; every entry of the dictionary may be missing. *)
Record widget : Type := {
  w_category : option string;
  w_type : option string;
  w_ai_enabled : option bool;
  w_quantum_enabled : option bool
}.

(** The values a layout holds: flags, numbers, strings, the instant of the
    optimization, the list of widgets, and the three context rules that
    [_create_adaptive_layout] adds. *)
Inductive value : Type :=
| VBool (b : bool)
| VInt (n : Z)
| VStr (s : string)
| VTime (t : timestamp)
| VWidgets (ws : list widget)
| VRules.

Definition layout : Type := dict value.

(** [d[k] = v]: the entry is replaced where it is, or added at the end. *)
Fixpoint set_item {V} (k : string) (v : V) (d : dict V) : dict V :=
  match d with
  | [] => [(k, v)]
  | (k', v') :: rest =>
      if String.eqb k' k then (k, v) :: rest else (k', v') :: set_item k v rest
  end.

(** [{**a, **b}] *)
Definition dict_merge {V} (a b : dict V) : dict V :=
  fold_left (fun d kv => set_item (fst kv) (snd kv) d) b a.

(** The keys of [self.strategic_categories]. *)
Definition strategic_categories : list string :=
  [ "surveillance"; "operations"; "analytics"; "communications"; "security";
    "resources"; "quantum"; "ai_coordination" ]%string.

Definition known_category (c : string) : bool :=
  existsb (String.eqb c) strategic_categories.

Definition mk_widget (c t : string) (ai quantum : option bool) : widget :=
  {| w_category := Some c; w_type := Some t;
     w_ai_enabled := ai; w_quantum_enabled := quantum |}.

Definition default_widgets : list widget :=
  [ mk_widget "surveillance" "advanced_map" (Some true) None;
    mk_widget "operations" "task_management" (Some true) None;
    mk_widget "analytics" "predictive_metrics" (Some true) None;
    mk_widget "quantum" "quantum_dashboard" None (Some true);
    mk_widget "ai_coordination" "ai_control_center" (Some true) None ].

Definition default_layout : layout :=
  [ ("widgets"%string, VWidgets default_widgets);
    ("layout_type"%string, VStr "adaptive_grid");
    ("columns"%string, VInt 4);
    ("ai_optimization"%string, VBool true);
    ("quantum_processing"%string, VBool true);
    ("real_time_updates"%string, VBool true);
    ("adaptive_sizing"%string, VBool true) ].

Definition key_error (k : string) : exn := Exception ("KeyError: " ++ k).
Definition type_error : exn := Exception "TypeError".
Definition attribute_error : exn := Exception "AttributeError".

(** The comprehension [[w for w in widgets if w['category'] in
    self.strategic_categories]]: a widget without a category raises. *)
Fixpoint filter_widgets (ws : list widget) : outcome (list widget) :=
  match ws with
  | [] => Return []
  | w :: rest =>
      match w_category w with
      | None => Raise (key_error "category")
      | Some c =>
          match filter_widgets rest with
          | Raise e => Raise e
          | Return kept => Return (if known_category c then w :: kept else kept)
          end
      end
  end.

(** The same comprehension over whatever the layout holds under
    ['widgets']: only a list of widgets and the empty string can be
    iterated to the end. *)
Definition filter_widgets_of (v : option value) : outcome (list widget) :=
  match v with
  | None => Raise (key_error "widgets")
  | Some (VWidgets ws) => filter_widgets ws
  | Some (VStr s) => if String.eqb s "" then Return [] else Raise type_error
  | Some _ => Raise type_error
  end.

Definition _validate_advanced_dashboard_layout (layout_config : layout) : outcome layout :=
  let validated_layout := dict_merge default_layout layout_config in
  match filter_widgets_of (lookup "widgets" validated_layout) with
  | Raise e => Raise e
  | Return ws => Return (set_item "widgets" (VWidgets ws) validated_layout)
  end.

Definition recommended_widgets : list widget :=
  [ mk_widget "security" "threat_monitor" (Some true) None;
    mk_widget "communications" "ai_chat_assistant" (Some true) None ].

(** What the dashboard code keeps and logs. *)
Inductive dashboard_log_entry : Type :=
| LayoutOptimizationError (e : exn)
| LayoutCreationError (e : exn).

Record dashboards : Type := {
  dashboard_layouts : dict layout;
  adaptive_layouts : dict layout;
  dashboard_log : list dashboard_log_entry
}.

Definition log_dashboard (e : dashboard_log_entry) : M dashboards unit :=
  modify (fun d =>
    {| dashboard_layouts := dashboard_layouts d;
       adaptive_layouts := adaptive_layouts d;
       dashboard_log := dashboard_log d ++ [e] |}).

Definition store_layout (user_id : string) (l : layout) : M dashboards unit :=
  modify (fun d =>
    {| dashboard_layouts := set_item user_id l (dashboard_layouts d);
       adaptive_layouts := adaptive_layouts d;
       dashboard_log := dashboard_log d |}).

Definition store_adaptive (user_id : string) (l : layout) : M dashboards unit :=
  modify (fun d =>
    {| dashboard_layouts := dashboard_layouts d;
       adaptive_layouts := set_item user_id l (adaptive_layouts d);
       dashboard_log := dashboard_log d |}).

(** The statement [if len(layout['widgets']) < 6: layout['widgets'].extend(...)]
    by the kind of value under ['widgets']; the string of an instant is
    longer than six characters. *)
Definition extend_widgets (l : layout) : outcome layout :=
  match lookup "widgets" l with
  | None => Raise (key_error "widgets")
  | Some (VWidgets ws) =>
      Return (set_item "widgets"
                (VWidgets (if (length ws <? 6)%nat
                           then ws ++ firstn (6 - length ws) recommended_widgets
                           else ws)) l)
  | Some (VStr s) => if (String.length s <? 6)%nat then Raise attribute_error else Return l
  | Some (VTime _) => Return l
  | Some VRules => Raise attribute_error
  | Some (VBool _) | Some (VInt _) => Raise type_error
  end.

Definition lift {S A} (o : outcome A) : M S A := fun s => (o, s).

Definition _optimize_layout_with_ai (l : layout) (now : timestamp) : M dashboards layout :=
  try_except
    (bind (lift (extend_widgets l)) (fun l1 =>
       ret (set_item "optimization_timestamp" (VTime now)
              (set_item "ai_optimized" (VBool true) l1))))
    (fun e => if is_Exception e
              then bind (log_dashboard (LayoutOptimizationError e)) (fun _ => ret l)
              else raise e).

Definition _create_adaptive_layout (base_layout : layout) : layout :=
  set_item "context_rules" VRules (set_item "adaptive" (VBool true) base_layout).

Definition _get_default_layout : layout :=
  [ ("widgets"%string,
     VWidgets [ {| w_category := Some "surveillance"%string; w_type := Some "basic_map"%string;
                   w_ai_enabled := None; w_quantum_enabled := None |};
                {| w_category := Some "operations"%string; w_type := Some "task_list"%string;
                   w_ai_enabled := None; w_quantum_enabled := None |};
                {| w_category := Some "analytics"%string; w_type := Some "basic_metrics"%string;
                   w_ai_enabled := None; w_quantum_enabled := None |} ]);
    ("layout_type"%string, VStr "grid");
    ("columns"%string, VInt 3);
    ("fallback"%string, VBool true) ].

(** [create_advanced_dashboard_layout]; [models] are the keys of
    [self.ai_models]. *)
Definition create_advanced_dashboard_layout (models : list string) (user_id : string)
    (layout_config : layout) (ai_assisted : bool) (now : timestamp) : M dashboards layout :=
  try_except
    (bind (lift (_validate_advanced_dashboard_layout layout_config)) (fun validated =>
     bind (if ai_assisted && existsb (String.eqb "pattern_clusterer") models
           then _optimize_layout_with_ai validated now
           else ret validated) (fun validated_layout =>
     bind (store_layout user_id validated_layout) (fun _ =>
     bind (store_adaptive user_id (_create_adaptive_layout validated_layout)) (fun _ =>
     ret validated_layout)))))
    (fun e => if is_Exception e
              then bind (log_dashboard (LayoutCreationError e))
                        (fun _ => ret _get_default_layout)
              else raise e).

(** * The vocabulary of the properties *)

(** ** Relations and triples on computations *)

(** The computation [m] relates every state to the state it leaves by
    [P]. *)
Definition preserves {S A} (P : S -> S -> Prop) (m : M S A) : Prop :=
  forall s, P s (snd (m s)).

(** From a state that satisfies [Pre], the computation ends in an outcome
    and a state that satisfy [Post]. *)
Definition hoare {S A} (Pre : S -> Prop) (m : M S A) (Post : outcome A -> S -> Prop) : Prop :=
  forall s, Pre s -> Post (fst (m s)) (snd (m s)).

(** ** The task lists of the pool *)

Section TaskVocabulary.
Local Open Scope nat_scope.

(** The processors reduced to their task lists. *)
Definition task_view (s : system) : dict (list task_id) :=
  map (fun kv => (fst kv, current_tasks (snd kv))) (quantum_processors s).

Definition tasks_at (id : string) (v : dict (list task_id)) : list task_id :=
  match lookup id v with
  | Some ts => ts
  | None => []
  end.

(** The active task list of a unit. *)
Definition active_tasks (id : string) (s : system) : list task_id :=
  current_tasks (the_processor id s).

Definition same_tasks (s s' : system) : Prop := task_view s' = task_view s.

(** Number of suspended coroutines that run task [t] on unit [id]. *)
Definition waiting (id : string) (t : task_id) (l : list coroutine) : nat :=
  length (filter (fun k => String.eqb (c_processor k) id && Z.eqb (c_task k) t) l).

(** The units are the three initial ones, no task list is longer than the
    capacity, and the task list of a unit holds the ids of the coroutines
    suspended on it, each as often as there are such coroutines. *)
Definition pool_invariant (v : dict (list task_id)) (l : list coroutine) : Prop :=
  keys v = keys initial_processors /\
  Forall (fun kv => length (snd kv) <= capacity) v /\
  forall id t, count_occ Z.eq_dec (tasks_at id v) t = waiting id t l.

(** The selection rule as the specification words it: the unit has room,
    and no unit with room has a higher quality. *)
Definition highest_quality_choice (procs : dict processor) (id : string) : Prop :=
  exists p,
    lookup id procs = Some p /\
    length (current_tasks p) < capacity /\
    forall id' p',
      lookup id' procs = Some p' ->
      length (current_tasks p') < capacity ->
      (coherence (state p') <= coherence (state p))%Q.

End TaskVocabulary.

(** ** The quality of the units *)

Section QualityVocabulary.
Local Open Scope Q_scope.

Definition in_unit_interval (q : Q) : Prop := 0 <= q /\ q <= 1.

(** Every unit has its quality between 0 and 1. *)
Definition quality_bounded (s : system) : Prop :=
  Forall (fun kv => in_unit_interval (coherence (state (snd kv)))) (quantum_processors s).

(** Every coherence value an event carries is between 0 and 1. *)
Definition event_in_range (data : event) : Prop :=
  Forall (fun kv => match snd kv with
                    | Some c => in_unit_interval c
                    | None => True
                    end) data.

Definition queue_in_range (q : queue) : Prop := Forall event_in_range (items q).

Definition streams_in_range (s : system) : Prop :=
  Forall (fun kv => queue_in_range (snd kv)) (data_streams s).

Definition healthy (s : system) : Prop := quality_bounded s /\ streams_in_range s.

(** The events the producers publish carry coherence values in range. *)
Definition label_in_range (lb : label) : Prop :=
  match lb with
  | Publish _ data => event_in_range data
  | _ => True
  end.

End QualityVocabulary.

(** ** The passes of the optimizer *)

Section OptimizerVocabulary.
Context {R : Rounding}.
Local Open Scope nat_scope.

(** The units, the streams and the log lines after the loops. *)
Definition recalibrated (procs : dict processor) : dict processor :=
  map (fun kv => (fst kv, fst (snd (recalibrate (fst kv) (snd kv))))) procs.

Definition recalibration_log (procs : dict processor) : list log_entry :=
  flat_map (fun kv => snd (snd (recalibrate (fst kv) (snd kv)))) procs.

Definition cleared (streams : dict queue) : dict queue :=
  map (fun kv => (fst kv, fst (snd (clear_overloaded (fst kv) (snd kv))))) streams.

Definition clearing_log (streams : dict queue) : list log_entry :=
  flat_map (fun kv => snd (snd (clear_overloaded (fst kv) (snd kv)))) streams.

Definition model_log (models : list string) : list log_entry :=
  flat_map (fun name => if String.eqb name "language_processor" then []
                        else [OptimizingModel name]) models.

(** The lines a computation has added to the log, and among them the
    mitigation actions: the recalibration of a unit and the shedding of a
    stream. *)
Definition new_logs (s s' : system) : list log_entry :=
  skipn (length (logs s)) (logs s').

Definition is_mitigation (e : log_entry) : bool :=
  match e with
  | OptimizedProcessor _ | ClearedStream _ => true
  | _ => false
  end.

Definition mitigation_actions (s s' : system) : list log_entry :=
  filter is_mitigation (new_logs s s').

(** How a pass of the optimizer relates a unit before, [kv], and after,
    [kv']. *)
Definition recalibration_rule (kv kv' : string * processor) : Prop :=
  fst kv' = fst kv /\
  current_tasks (snd kv') = current_tasks (snd kv) /\
  ((coherence (state (snd kv)) < coherence_threshold)%Q ->
   coherence (state (snd kv')) =
     py_min 1 (fadd (coherence (state (snd kv))) recalibration_step) /\
   (coherence (state (snd kv')) <= 1)%Q /\
   ((forall x, rnd x == x)%Q ->
    (coherence (state (snd kv')) == coherence (state (snd kv)) + (1 # 10))%Q)) /\
  ((coherence_threshold <= coherence (state (snd kv)))%Q -> snd kv' = snd kv).

(** How a pass of the optimizer from [s] to [s'] relates a stream before,
    [kv], and after, [kv']. *)
Definition shedding_rule (s s' : system) (kv kv' : string * queue) : Prop :=
  fst kv' = fst kv /\
  maxsize (snd kv') = maxsize (snd kv) /\
  (maxsize (snd kv) = 1000 ->
   (8 * maxsize (snd kv) < 10 * qsize (snd kv) ->
    items (snd kv') = skipn 100 (items (snd kv)) /\
    10 * (qsize (snd kv) - qsize (snd kv')) = maxsize (snd kv) /\
    In (ClearedStream (fst kv)) (new_logs s s')) /\
   (10 * qsize (snd kv) <= 8 * maxsize (snd kv) -> snd kv' = snd kv)).

Definition is_cleared_line (e : log_entry) : bool :=
  match e with
  | ClearedStream _ => true
  | _ => false
  end.

End OptimizerVocabulary.

(** ** The stream processor *)

Section StreamVocabulary.

(** An iteration that meets at most a dequeue timeout or a handler
    exception: the task of the loop is not cancelled, and what the handler
    raises, if anything, is an [Exception]. *)
Definition benign (env : iteration_env) : Prop :=
  cancelled env = false /\ forall e, fault env = Some e -> is_Exception e = true.

Definition same_streams (s s' : system) : Prop := data_streams s' = data_streams s.

End StreamVocabulary.

(** ** The callers *)

Section CallerVocabulary.
Context {R : Rounding}.
Local Open Scope nat_scope.

(** The quality after [n] decays. *)
Fixpoint decayed (n : nat) (c : Q) : Q :=
  match n with
  | O => c
  | S n' => decayed n' (fmul c decay)
  end.

(** A stream has the name and the capacity it was created with, and holds
    no more events than its capacity. *)
Definition stream_ok (kv : string * queue) : Prop :=
  match lookup (fst kv) initial_streams with
  | Some q0 =>
      maxsize (snd kv) = maxsize q0 /\ 0 < maxsize (snd kv) /\
      qsize (snd kv) <= maxsize (snd kv)
  | None => False
  end.

Definition streams_bounded (s : system) : Prop :=
  keys (data_streams s) = keys initial_streams /\ Forall stream_ok (data_streams s).

(** The events of the lines "AI Decision: ..." of a log, in order. *)
Definition ai_decisions (l : list log_entry) : list event :=
  flat_map (fun e => match e with AIDecision data => [data] | _ => [] end) l.

(** How [_process_quantum_data] with the event [data] relates a unit
    before, [kv], and after, [kv']. *)
Definition coherence_report_rule (data : event) (kv kv' : string * processor) : Prop :=
  fst kv' = fst kv /\
  current_tasks (snd kv') = current_tasks (snd kv) /\
  coherence (state (snd kv')) =
    match lookup (fst kv) data with
    | Some (Some c) => c
    | _ => coherence (state (snd kv))
    end.

(** The streams that hold an event, as [_measure_processing_efficiency]
    counts them, and the units that [_measure_system_reliability] counts as
    active. *)
Definition nonempty_streams (s : system) : nat :=
  length (filter (fun kv => negb (empty (snd kv))) (data_streams s)).

Definition active_quantum (s : system) : nat :=
  length (filter (fun kv => if Qlt_le_dec (lit (5 # 10)) (coherence (state (snd kv)))
                            then true else false)
            (quantum_processors s)).

(** The units for which [_identify_critical_issues] reports a
    decoherence. *)
Definition decoherent_units (s : system) : list string :=
  flat_map (fun i => match i with quantum_decoherence id => [id] | ai_performance => [] end)
    (_identify_critical_issues s).


(** [n] passes of the optimizer, one after the other. *)
Fixpoint passes (n : nat) (s : system) : system :=
  match n with
  | O => s
  | S n' => passes n' (snd (_perform_adaptive_optimization s))
  end.

End CallerVocabulary.

(** ** The dashboard layouts *)

(** Whether a widget has a category that is a key of
    [self.strategic_categories]. *)
Definition has_known_category (w : widget) : bool :=
  match w_category w with
  | Some c => known_category c
  | None => false
  end.

(** The dashboards after a layout was stored for a user, and after an
    error line. *)
Definition with_layout (user_id : string) (l : layout) (d : dashboards) : dashboards :=
  {| dashboard_layouts := set_item user_id l (dashboard_layouts d);
     adaptive_layouts := set_item user_id (_create_adaptive_layout l) (adaptive_layouts d);
     dashboard_log := dashboard_log d |}.

Definition with_error (e : exn) (d : dashboards) : dashboards :=
  {| dashboard_layouts := dashboard_layouts d;
     adaptive_layouts := adaptive_layouts d;
     dashboard_log := (dashboard_log d ++ [LayoutCreationError e])%list |}.

(** ** Concrete runs, in exact arithmetic *)

Section Runs.
Local Open Scope string_scope.
Local Open Scope Z_scope.

(** Two submissions fill [quantum_core_1]. *)
Definition core_1_full : config :=
  run (R := exact_rounding)
    [Submit 1 "optimization"; Submit 2 "optimization"] initial_config.

(** Six submissions fill the pool. *)
Definition pool_full : config :=
  run (R := exact_rounding)
    [Submit 1 "optimization"; Submit 2 "optimization"; Submit 3 "optimization";
     Submit 4 "optimization"; Submit 5 "optimization"; Submit 6 "optimization"]
    initial_config.

(** Two submissions read the same clock value. *)
Definition same_clock : config :=
  run (R := exact_rounding)
    [Submit 7 "optimization"; Submit 7 "prediction"] initial_config.

(** The producers have put [n] events on a stream. *)
Definition published (stream_name : string) (n : nat) : config :=
  run (R := exact_rounding) (repeat (Publish stream_name []) n) initial_config.

Definition calm_sampling : sampling_env :=
  {| drawn_accuracy := (9 # 10)%Q; drawn_confidence := (9 # 10)%Q;
     processing_time := 0%Q |}.

(** An event that sets the quality of [quantum_core_1] to 5. *)
Definition wild_event : event := [("quantum_core_1", Some 5%Q)].

Definition undisturbed : iteration_env := {| cancelled := false; fault := None |}.

(** An event has set the quality of [quantum_core_1] to 0.6. *)
Definition core_1_worn : config :=
  run (R := exact_rounding)
    [Publish "quantum_stream" [("quantum_core_1", Some (6 # 10)%Q)];
     StreamIteration "quantum_stream" undisturbed] initial_config.

(** The quality of [quantum_core_1] is 0.6, five of the six streams hold
    an event, and the monitor has just sampled: every metric is above its
    threshold. *)
Definition all_metrics_fine : config :=
  run (R := exact_rounding)
    [Publish "surveillance_stream" []; Publish "operations_stream" [];
     Publish "analytics_stream" []; Publish "security_stream" [];
     Publish "quantum_stream" []; MonitorIteration calm_sampling]
    core_1_worn.

(** Every metric is above its threshold, as in [all_metrics_fine], and
    [surveillance_stream] holds 900 events. *)
Definition fine_and_deep : config :=
  run (R := exact_rounding) (repeat (Publish "surveillance_stream" []) 899)
    all_metrics_fine.

(** A stream with two events, and an environment in which the first
    handler call fails. *)
Definition redis_down : iteration_env :=
  {| cancelled := false; fault := Some (Exception "redis down") |}.

(** A cancellation arrives while the stream processor waits. *)
Definition cancelling : iteration_env := {| cancelled := true; fault := None |}.

(** An event has set the quality of [quantum_core_1] to 0. *)
Definition core_1_flat : config :=
  run (R := exact_rounding)
    [Publish "quantum_stream" [("quantum_core_1", Some 0%Q)];
     StreamIteration "quantum_stream" undisturbed] initial_config.

(** Every metric at one half. *)
Definition half_metrics : AdvancedMetrics :=
  {| processing_efficiency := (1 # 2)%Q; predictive_accuracy := (1 # 2)%Q;
     system_reliability := (1 # 2)%Q; quantum_coherence := (1 # 2)%Q;
     ai_confidence := (1 # 2)%Q; real_time_performance := (1 # 2)%Q;
     cross_system_correlation := (1 # 2)%Q |}.

(** [self.dashboard_layouts] and [self.adaptive_layouts] as [__init__]
    leaves them. *)
Definition no_dashboards : dashboards :=
  {| dashboard_layouts := []; adaptive_layouts := []; dashboard_log := [] |}.

(** A configuration with a widget of a known category, one of an unknown
    category, and a number of columns. *)
Definition two_widgets : layout :=
  [ ("widgets", VWidgets [ mk_widget "security" "camera_wall" None None;
                           mk_widget "weather" "forecast" None None ]);
    ("columns", VInt 2) ].

(** A configuration whose second widget has no category. *)
Definition nameless_widget : layout :=
  [ ("widgets", VWidgets [ mk_widget "security" "camera_wall" None None;
                           {| w_category := None; w_type := Some "clock";
                              w_ai_enabled := None; w_quantum_enabled := None |} ]) ].

End Runs.

(** * Properties *)

(** ** Reasoning about computations *)

(** A computation preserves a reflexive and transitive relation between
    the state before and the state after when its parts do. *)
Section Preservation.
Variable S : Type.
Variable P : S -> S -> Prop.
Hypothesis P_refl : forall s, P s s.
Hypothesis P_trans : forall s1 s2 s3, P s1 s2 -> P s2 s3 -> P s1 s3.

Lemma preserves_ret {A} (a : A) : preserves P (ret a).
Proof. intro s. apply P_refl. Qed.

Lemma preserves_raise {A} (e : exn) : preserves P (@raise S A e).
Proof. intro s. apply P_refl. Qed.

Lemma preserves_get : preserves P (@get S).
Proof. intro s. apply P_refl. Qed.

Lemma preserves_modify (f : S -> S) :
  (forall s, P s (f s)) -> preserves P (modify f).
Proof. intros H s. apply H. Qed.

Lemma preserves_bind {A B} (m : M S A) (k : A -> M S B) :
  preserves P m -> (forall a, preserves P (k a)) -> preserves P (bind m k).
Proof.
  intros Hm Hk s. unfold bind. specialize (Hm s).
  destruct (m s) as [[a | e] s1]; simpl in *.
  - eapply P_trans; [exact Hm | apply Hk].
  - exact Hm.
Qed.

Lemma preserves_try_except {A} (body : M S A) (handler : exn -> M S A) :
  preserves P body -> (forall e, preserves P (handler e)) ->
  preserves P (try_except body handler).
Proof.
  intros Hb Hh s. unfold try_except. specialize (Hb s).
  destruct (body s) as [[a | e] s1]; simpl in *.
  - exact Hb.
  - eapply P_trans; [exact Hb | apply Hh].
Qed.

Lemma preserves_try_finally {A} (body : M S A) (fin : M S unit) :
  preserves P body -> preserves P fin -> preserves P (try_finally body fin).
Proof.
  intros Hb Hf s. unfold try_finally. specialize (Hb s).
  destruct (body s) as [r s1]. specialize (Hf s1).
  destruct (fin s1) as [[u | e] s2]; simpl in *;
    eapply P_trans; eassumption.
Qed.

Lemma preserves_for_each {X} (xs : list X) (body : X -> M S unit) :
  (forall x, preserves P (body x)) -> preserves P (for_each xs body).
Proof.
  intro Hb. induction xs as [| x rest IH]; simpl.
  - apply preserves_ret.
  - apply preserves_bind; [apply Hb | intros _; exact IH].
Qed.
End Preservation.

(** ** Roundings *)

Lemma grid_rnd_le (k : positive) (x y : Q) : x <= y -> grid_rnd k x <= grid_rnd k y.
Proof.
  intro H. unfold grid_rnd, Qdiv. apply Qmult_le_compat_r.
  - rewrite <- Zle_Qle. apply Qfloor_resp_le.
    apply Qmult_le_compat_r; [exact H | discriminate].
  - apply Qinv_le_0_compat. discriminate.
Qed.

Lemma grid_rnd_0 (k : positive) : grid_rnd k 0 == 0.
Proof. unfold grid_rnd. rewrite Qmult_0_l. reflexivity. Qed.

Lemma grid_rnd_1 (k : positive) : grid_rnd k 1 == 1.
Proof.
  unfold grid_rnd. rewrite Qmult_1_l, Qfloor_Z. apply Qmult_inv_r. discriminate.
Qed.

(** The properties below hold for lossy arithmetic as well: rounding to a
    grid is a [Rounding]. *)
Lemma grid_rounding (k : positive) :
  exists R : Rounding, forall q, @rnd R q = grid_rnd k q.
Proof.
  exists {| rnd := grid_rnd k; rnd_le := @grid_rnd_le k;
            rnd_0 := grid_rnd_0 k; rnd_1 := grid_rnd_1 k |}.
  reflexivity.
Qed.

(** ** Dictionaries *)

Section DictFacts.
Variable V : Type.
Implicit Types (d : dict V) (k : string) (f : V -> V).

Lemma keys_update k f d : keys (update k f d) = keys d.
Proof.
  unfold keys, update. rewrite map_map. apply map_ext.
  intros [k' v]; simpl. destruct (String.eqb k' k); reflexivity.
Qed.

Lemma lookup_update_same k f d :
  lookup k (update k f d) = option_map f (lookup k d).
Proof.
  induction d as [| [k' v] rest IH]; simpl; [reflexivity |].
  destruct (String.eqb k' k) eqn:E; simpl; rewrite E; [reflexivity | exact IH].
Qed.

Lemma lookup_update_other k k' f d :
  k' <> k -> lookup k' (update k f d) = lookup k' d.
Proof.
  intro Hne. induction d as [| [k0 v] rest IH]; simpl; [reflexivity |].
  destruct (String.eqb k0 k) eqn:E; simpl.
  - apply String.eqb_eq in E. subst k0.
    destruct (String.eqb k k') eqn:E'; [| exact IH].
    apply String.eqb_eq in E'. congruence.
  - destruct (String.eqb k0 k'); [reflexivity | exact IH].
Qed.

Lemma lookup_In k v d : lookup k d = Some v -> In (k, v) d.
Proof.
  induction d as [| [k' v'] rest IH]; simpl; [discriminate |].
  destruct (String.eqb k' k) eqn:E.
  - apply String.eqb_eq in E. intros [= ->]. left. congruence.
  - intro H. right. exact (IH H).
Qed.

Lemma In_lookup k v d : NoDup (keys d) -> In (k, v) d -> lookup k d = Some v.
Proof.
  induction d as [| [k' v'] rest IH]; simpl; [tauto |].
  intros Hnd [H | H].
  - injection H as -> ->. rewrite String.eqb_refl. reflexivity.
  - inversion Hnd as [| ? ? Hnotin Hnd']; subst.
    destruct (String.eqb k' k) eqn:E.
    + apply String.eqb_eq in E. subst k'. exfalso. apply Hnotin.
      change (In (fst (k, v)) (map fst rest)). apply in_map. exact H.
    + apply IH; assumption.
Qed.
End DictFacts.

(** ** The task lists of the pool *)

Section Tasks.
Context {R : Rounding}.
Local Open Scope nat_scope.

Lemma lookup_task_view id s :
  lookup id (task_view s) = option_map (@current_tasks) (lookup id (quantum_processors s)).
Proof.
  unfold task_view. induction (quantum_processors s) as [| [k p] rest IH]; simpl.
  - reflexivity.
  - destruct (String.eqb k id); [reflexivity | exact IH].
Qed.

Lemma keys_task_view s : keys (task_view s) = keys (quantum_processors s).
Proof. unfold task_view, keys. rewrite map_map. reflexivity. Qed.

Lemma active_tasks_view id s : active_tasks id s = tasks_at id (task_view s).
Proof.
  unfold active_tasks, tasks_at, the_processor. rewrite lookup_task_view.
  destruct (lookup id (quantum_processors s)); reflexivity.
Qed.

Lemma task_view_update id (f : processor -> processor) (g : list task_id -> list task_id) s :
  (forall p, current_tasks (f p) = g (current_tasks p)) ->
  task_view (with_processors (update id f) s) = update id g (task_view s).
Proof.
  intro Hfg. unfold task_view, with_processors, update; simpl.
  rewrite !map_map. apply map_ext. intros [k p]; simpl.
  destruct (String.eqb k id); simpl; [rewrite Hfg |]; reflexivity.
Qed.

Lemma task_view_update_id id (f : processor -> processor) s :
  (forall p, current_tasks (f p) = current_tasks p) ->
  task_view (with_processors (update id f) s) = task_view s.
Proof.
  intro Hf. unfold task_view, with_processors, update; simpl.
  rewrite !map_map. apply map_ext. intros [k p]; simpl.
  destruct (String.eqb k id); simpl; [rewrite Hf |]; reflexivity.
Qed.

(** *** Admission *)

(** [find_available] answers with the first entry that has room. *)
Lemma find_available_first (procs : dict processor) :
  match find_available procs with
  | Some id =>
      exists before p after,
        procs = before ++ (id, p) :: after /\
        length (current_tasks p) < capacity /\
        Forall (fun kv => capacity <= length (current_tasks (snd kv))) before
  | None => Forall (fun kv => capacity <= length (current_tasks (snd kv))) procs
  end.
Proof.
  induction procs as [| [k p] rest IH]; simpl.
  - constructor.
  - destruct (Nat.ltb_spec (length (current_tasks p)) capacity) as [Hlt | Hge].
    + exists [], p, rest. repeat split; [exact Hlt | constructor].
    + destruct (find_available rest) as [id |].
      * destruct IH as (before & q & after & -> & Hq & Hall).
        exists ((k, p) :: before), q, after. repeat split; [exact Hq |].
        constructor; [exact Hge | exact Hall].
      * constructor; [exact Hge | exact IH].
Qed.

Lemma find_available_split (before after : dict processor) id p :
  Forall (fun kv => capacity <= length (current_tasks (snd kv))) before ->
  length (current_tasks p) < capacity ->
  find_available (before ++ (id, p) :: after) = Some id.
Proof.
  intros Hall Hp. induction Hall as [| [k q] rest Hq _ IH]; simpl.
  - apply Nat.ltb_lt in Hp. rewrite Hp. reflexivity.
  - simpl in Hq. apply Nat.ltb_ge in Hq. rewrite Hq. exact IH.
Qed.

Lemma find_available_lookup (procs : dict processor) id :
  NoDup (keys procs) ->
  find_available procs = Some id ->
  exists p, lookup id procs = Some p /\ length (current_tasks p) < capacity.
Proof.
  intros Hnd H. pose proof (find_available_first procs) as Hf. rewrite H in Hf.
  destruct Hf as (before & p & after & -> & Hp & _).
  exists p. split; [| exact Hp].
  apply In_lookup; [exact Hnd |]. apply in_elt.
Qed.

Lemma submit_admits now s id :
  find_available (quantum_processors s) = Some id -> id <> ""%string ->
  submit now s =
    (Return (id, now),
     with_processors (update id (fun p => with_tasks (current_tasks p ++ [now]) p)) s).
Proof.
  intros Hf Hid. unfold submit, bind, get. rewrite Hf. simpl.
  apply String.eqb_neq in Hid. rewrite Hid. reflexivity.
Qed.

Lemma submit_rejects now s :
  truthy (find_available (quantum_processors s)) = false ->
  submit now s = (Raise no_processor_available, s).
Proof.
  intro Hf. unfold submit, bind, get. rewrite Hf. reflexivity.
Qed.

(** Cutting the coroutine at its sleep does not change what it computes
    when nothing runs in between. *)
Lemma execute_quantum_task_split now task_type w s :
  execute_quantum_task now task_type w s =
  bind (submit now) (fun it => resume (fst it) (snd it) task_type w) s.
Proof.
  unfold execute_quantum_task, submit, resume, bind, get, try_finally.
  destruct (negb (truthy (find_available (quantum_processors s)))); reflexivity.
Qed.

Lemma release_state id t s :
  release id t s =
    (Return tt,
     if contains t (active_tasks id s)
     then with_processors (update id (fun p => with_tasks (remove_first t (current_tasks p)) p)) s
     else s).
Proof.
  unfold release, bind, get, active_tasks.
  destruct (contains t (current_tasks (the_processor id s))); reflexivity.
Qed.

Lemma task_work_outcome id t task_type w s :
  fst (task_work id t task_type w s) =
    match w with
    | WorkRaises e => Raise e
    | WorkDone u =>
        Return {| r_task_id := t; r_task_type := task_type; r_processor_id := id;
                  r_coherence := fmul (coherence (state (the_processor id s))) u |}
    end.
Proof. destruct w; reflexivity. Qed.

Lemma task_work_task_view id t task_type w s :
  task_view (snd (task_work id t task_type w s)) = task_view s.
Proof.
  destruct w as [u | e]; [| reflexivity].
  unfold task_work, bind, get, mutate_processor, modify, log, ret; simpl.
  change (task_view
            (with_processors
               (update id (fun p => with_coherence (fmul (coherence (state p)) decay) p)) s)
          = task_view s).
  apply task_view_update_id. reflexivity.
Qed.

Lemma resume_outcome id t task_type w s :
  fst (resume id t task_type w s) = fst (task_work id t task_type w s).
Proof.
  unfold resume, try_finally.
  destruct (task_work id t task_type w s) as [r s1]. rewrite release_state. reflexivity.
Qed.

Lemma resume_state id t task_type w s :
  snd (resume id t task_type w s) =
  snd (release id t (snd (task_work id t task_type w s))).
Proof.
  unfold resume, try_finally.
  destruct (task_work id t task_type w s) as [r s1]. simpl.
  rewrite release_state. reflexivity.
Qed.

Lemma resume_task_view id t task_type w s :
  task_view (snd (resume id t task_type w s)) =
    if contains t (active_tasks id s)
    then update id (remove_first t) (task_view s)
    else task_view s.
Proof.
  rewrite resume_state, release_state. simpl.
  rewrite (active_tasks_view id (snd _)), task_work_task_view, <- active_tasks_view.
  destruct (contains t (active_tasks id s)).
  - erewrite task_view_update by (intro p; reflexivity).
    rewrite task_work_task_view. reflexivity.
  - apply task_work_task_view.
Qed.

(** *** The transitions that leave the task lists alone *)

Lemma same_tasks_refl s : same_tasks s s.
Proof. reflexivity. Qed.

Lemma same_tasks_trans s1 s2 s3 :
  same_tasks s1 s2 -> same_tasks s2 s3 -> same_tasks s1 s3.
Proof. unfold same_tasks. congruence. Qed.

Lemma for_items_keys {V} (proj : V -> list task_id)
    (body : string -> V -> outcome unit * (V * list log_entry)) (d : dict V) :
  (forall k v, proj (fst (snd (body k v))) = proj v) ->
  map (fun kv => (fst kv, proj (snd kv))) (fst (snd (for_items body d))) =
  map (fun kv => (fst kv, proj (snd kv))) d.
Proof.
  intro Hb. induction d as [| [k v] rest IH]; simpl; [reflexivity |].
  specialize (Hb k v).
  destruct (body k v) as [[u | e] [v' l]]; simpl in *.
  - destruct (for_items body rest) as [r [rest' l']]; simpl in *.
    rewrite Hb, IH. reflexivity.
  - rewrite Hb. reflexivity.
Qed.

Lemma log_same_tasks e : preserves same_tasks (log e).
Proof. intro s. reflexivity. Qed.

Lemma external_same_tasks f : preserves same_tasks (external f).
Proof. destruct f; intro s; reflexivity. Qed.

Lemma on_queue_same_tasks {A} name (m : M queue A) : preserves same_tasks (on_queue name m).
Proof. intro s. unfold on_queue. destruct (m (the_queue name s)). reflexivity. Qed.

Lemma guarded_same_tasks handler body :
  preserves same_tasks body -> preserves same_tasks (guarded handler body).
Proof.
  intro Hb. unfold guarded. apply preserves_try_except;
    [exact same_tasks_trans | exact Hb |].
  intro e. destruct (is_Exception e);
    [apply log_same_tasks | apply preserves_raise; exact same_tasks_refl].
Qed.

Lemma dispatch_same_tasks name data f : preserves same_tasks (dispatch name data f).
Proof.
  assert (Hq : preserves same_tasks (_process_quantum_data data f)).
  { apply guarded_same_tasks. apply preserves_bind; [exact same_tasks_trans | |].
    - intro s. unfold same_tasks, task_view, modify; simpl.
      rewrite map_map. apply map_ext. intros [k p]. unfold update_coherence; simpl.
      destruct (lookup k data); reflexivity.
    - intros _. apply external_same_tasks. }
  assert (Ha : preserves same_tasks (_process_ai_decision_data data f)).
  { apply guarded_same_tasks. apply preserves_bind; [exact same_tasks_trans | |].
    - apply log_same_tasks.
    - intros _. apply external_same_tasks. }
  assert (Ho : forall h, preserves same_tasks (_process_other_data h f)).
  { intro h. apply guarded_same_tasks. apply external_same_tasks. }
  unfold dispatch.
  repeat match goal with
         | |- context [if ?b then _ else _] => destruct b
         end; auto.
  apply preserves_ret. exact same_tasks_refl.
Qed.

Lemma stream_iteration_same_tasks name env :
  preserves same_tasks (stream_iteration name env).
Proof.
  unfold stream_iteration.
  apply preserves_try_except; [exact same_tasks_trans | |].
  - apply preserves_bind; [exact same_tasks_trans | |].
    + unfold wait_for_get. destruct (cancelled env).
      * apply preserves_raise. exact same_tasks_refl.
      * apply preserves_try_except; [exact same_tasks_trans | apply on_queue_same_tasks |].
        intros e. destruct e; apply preserves_raise; exact same_tasks_refl.
    + intro data. apply dispatch_same_tasks.
  - intro e. destruct (is_TimeoutError e); [apply preserves_ret; exact same_tasks_refl |].
    destruct (is_Exception e); [apply log_same_tasks |].
    apply preserves_raise. exact same_tasks_refl.
Qed.

Lemma monitor_iteration_same_tasks env : preserves same_tasks (monitor_iteration env).
Proof. intro s. reflexivity. Qed.

Lemma optimize_processors_same_tasks : preserves same_tasks optimize_processors.
Proof.
  intro s. unfold optimize_processors, same_tasks, task_view.
  pose proof (for_items_keys (@current_tasks) recalibrate (quantum_processors s)) as H.
  destruct (for_items recalibrate (quantum_processors s)) as [r [d l]]; simpl in *.
  apply H. intros k p. unfold recalibrate.
  destruct (Qlt_le_dec (coherence (state p)) coherence_threshold); reflexivity.
Qed.

Lemma clear_streams_same_tasks : preserves same_tasks clear_streams.
Proof.
  intro s. unfold clear_streams.
  destruct (for_items clear_overloaded (data_streams s)) as [r [d l]]. reflexivity.
Qed.

Lemma optimize_models_same_tasks : preserves same_tasks optimize_models.
Proof.
  unfold optimize_models. apply preserves_bind; [exact same_tasks_trans | |].
  - apply preserves_get. exact same_tasks_refl.
  - intro s. apply preserves_for_each; [exact same_tasks_refl | exact same_tasks_trans |].
    intro x. destruct (String.eqb x "language_processor");
      [apply preserves_ret; exact same_tasks_refl | apply log_same_tasks].
Qed.

Lemma perform_same_tasks : preserves same_tasks _perform_adaptive_optimization.
Proof.
  unfold _perform_adaptive_optimization.
  apply preserves_try_except; [exact same_tasks_trans | |].
  - repeat (apply preserves_bind; [exact same_tasks_trans | | intros _]).
    + apply log_same_tasks.
    + apply optimize_processors_same_tasks.
    + apply optimize_models_same_tasks.
    + apply clear_streams_same_tasks.
    + apply log_same_tasks.
  - intro e. destruct (is_Exception e); [apply log_same_tasks |].
    apply preserves_raise. exact same_tasks_refl.
Qed.

Lemma optimization_tick_same_tasks : preserves same_tasks optimization_tick.
Proof.
  unfold optimization_tick. apply preserves_bind; [exact same_tasks_trans | |].
  - apply preserves_get. exact same_tasks_refl.
  - intro s. destruct (_needs_optimization s);
      [apply perform_same_tasks | apply preserves_ret; exact same_tasks_refl].
Qed.

(** *** The invariant of the pool *)

Lemma initial_keys_NoDup : NoDup (keys initial_processors).
Proof.
  unfold initial_processors, keys; simpl.
  repeat constructor; simpl; intuition discriminate.
Qed.

Lemma Forall_update {V} (P : string * V -> Prop) k (f : V -> V) (d : dict V) :
  Forall P d ->
  (forall v, In (k, v) d -> P (k, v) -> P (k, f v)) ->
  Forall P (update k f d).
Proof.
  intros Hall Hf. unfold update. apply Forall_forall. intros kv Hin.
  apply in_map_iff in Hin. destruct Hin as ([k' v] & Heq & Hin). simpl in Heq.
  rewrite Forall_forall in Hall. specialize (Hall _ Hin).
  destruct (String.eqb k' k) eqn:E.
  - apply String.eqb_eq in E. subst k' kv. apply Hf; assumption.
  - subst kv. exact Hall.
Qed.

Lemma tasks_at_update_same id (f : list task_id -> list task_id) v :
  f [] = [] -> tasks_at id (update id f v) = f (tasks_at id v).
Proof.
  intro Hf. unfold tasks_at. rewrite lookup_update_same.
  destruct (lookup id v); simpl; [reflexivity | symmetry; exact Hf].
Qed.

Lemma tasks_at_update_other id id' (f : list task_id -> list task_id) v :
  id' <> id -> tasks_at id' (update id f v) = tasks_at id' v.
Proof. intro H. unfold tasks_at. rewrite lookup_update_other by exact H. reflexivity. Qed.

Lemma length_remove_first t l : length (remove_first t l) <= length l.
Proof.
  induction l as [| y rest IH]; simpl; [lia |].
  destruct (Z.eqb y t); simpl; lia.
Qed.

Lemma count_occ_remove_first t t' l :
  count_occ Z.eq_dec (remove_first t l) t' =
  if Z.eqb t t' then pred (count_occ Z.eq_dec l t') else count_occ Z.eq_dec l t'.
Proof.
  induction l as [| y rest IH]; simpl.
  - destruct (Z.eqb t t'); reflexivity.
  - destruct (Z.eqb_spec y t) as [-> | Hyt].
    + destruct (Z.eq_dec t t') as [-> | Hne].
      * rewrite Z.eqb_refl. reflexivity.
      * apply Z.eqb_neq in Hne. rewrite Hne. reflexivity.
    + simpl. rewrite IH. destruct (Z.eqb_spec t t') as [-> | Hne].
      * destruct (Z.eq_dec y t'); [contradiction | reflexivity].
      * reflexivity.
Qed.

Lemma contains_count t l : contains t l = true <-> 0 < count_occ Z.eq_dec l t.
Proof.
  unfold contains. rewrite existsb_exists. split.
  - intros (x & Hin & Hx). apply Z.eqb_eq in Hx. subst x.
    apply (count_occ_In Z.eq_dec) in Hin. exact Hin.
  - intro Hpos. exists t. split; [| apply Z.eqb_refl].
    apply (count_occ_In Z.eq_dec). exact Hpos.
Qed.

Lemma waiting_app id t l k :
  waiting id t (l ++ [k]) =
  waiting id t l +
  (if String.eqb (c_processor k) id && Z.eqb (c_task k) t then 1 else 0).
Proof.
  unfold waiting. rewrite filter_app, length_app. simpl.
  destruct (String.eqb (c_processor k) id && Z.eqb (c_task k) t); reflexivity.
Qed.

Lemma waiting_remove_nth id t n l k :
  nth_error l n = Some k ->
  waiting id t (remove_nth n l) =
  if String.eqb (c_processor k) id && Z.eqb (c_task k) t
  then pred (waiting id t l) else waiting id t l.
Proof.
  unfold waiting.
  set (f := fun k0 => String.eqb (c_processor k0) id && Z.eqb (c_task k0) t).
  change (String.eqb (c_processor k) id && Z.eqb (c_task k) t) with (f k).
  revert n. induction l as [| x rest IH]; intros [| n] Hn; simpl in *;
    try discriminate.
  - injection Hn as ->. destruct (f k); reflexivity.
  - specialize (IH _ Hn). destruct (f x); simpl; rewrite IH; [| reflexivity].
    destruct (f k) eqn:E; [| reflexivity].
    (* one more matching coroutine sits in front of the one removed *)
    assert (Hin : In k (filter f rest))
      by (apply filter_In; split; [eapply nth_error_In; exact Hn | exact E]).
    destruct (filter f rest); [destruct Hin | reflexivity].
Qed.

Lemma waiting_nth id t n l k :
  nth_error l n = Some k -> c_processor k = id -> c_task k = t -> 0 < waiting id t l.
Proof.
  intros Hn Hid Ht. unfold waiting. apply nth_error_In in Hn.
  assert (Hin : In k (filter
            (fun k0 => String.eqb (c_processor k0) id && Z.eqb (c_task k0) t) l)).
  { apply filter_In. split; [exact Hn |].
    subst. rewrite String.eqb_refl, Z.eqb_refl. reflexivity. }
  destruct (filter _ l); [destruct Hin | simpl; lia].
Qed.

Lemma pool_invariant_submit v l id t task_type ts :
  pool_invariant v l ->
  lookup id v = Some ts -> length ts < capacity ->
  pool_invariant (update id (fun ts => ts ++ [t]) v)
    (l ++ [{| c_processor := id; c_task := t; c_type := task_type |}]).
Proof.
  intros (Hk & Hc & Hw) Hl Hts. split; [| split].
  - rewrite keys_update. exact Hk.
  - apply Forall_update; [exact Hc |]. intros ts' Hin _. simpl.
    assert (Hnd : NoDup (keys v)) by (rewrite Hk; exact initial_keys_NoDup).
    rewrite (In_lookup _ _ _ Hnd Hin) in Hl. injection Hl as ->.
    rewrite length_app. simpl. lia.
  - intros id' t'. rewrite waiting_app; simpl. rewrite <- Hw.
    destruct (String.eqb_spec id id') as [<- | Hne]; simpl.
    + unfold tasks_at. rewrite lookup_update_same, Hl. simpl.
      rewrite count_occ_app. simpl.
      destruct (Z.eq_dec t t') as [-> | Hne']; [rewrite Z.eqb_refl; reflexivity |].
      apply Z.eqb_neq in Hne'. rewrite Hne'. reflexivity.
    + rewrite tasks_at_update_other by congruence. lia.
Qed.

Lemma pool_invariant_resume v l n k :
  pool_invariant v l ->
  nth_error l n = Some k ->
  pool_invariant (update (c_processor k) (remove_first (c_task k)) v) (remove_nth n l).
Proof.
  intros (Hk & Hc & Hw) Hn. split; [| split].
  - rewrite keys_update. exact Hk.
  - apply Forall_update; [exact Hc |]. intros ts' _ Hts. simpl in *.
    pose proof (length_remove_first (c_task k) ts'). lia.
  - intros id' t'. rewrite (waiting_remove_nth _ _ _ _ Hn), <- Hw.
    destruct (String.eqb_spec (c_processor k) id') as [<- | Hne]; simpl.
    + rewrite tasks_at_update_same by reflexivity. apply count_occ_remove_first.
    + rewrite tasks_at_update_other by congruence. reflexivity.
Qed.

(** The invariant along the transitions. *)
Lemma pool_invariant_fire lb c :
  pool_invariant (task_view (sys c)) (suspended c) ->
  pool_invariant (task_view (sys (fire lb c))) (suspended (fire lb c)).
Proof.
  intro Hinv. destruct lb as [now ty | n w | name data | name env | env |]; simpl.
  - (* Submit *)
    destruct (find_available (quantum_processors (sys c))) as [id |] eqn:Hf.
    + destruct (String.eqb_spec id "") as [-> | Hid].
      * rewrite submit_rejects by (rewrite Hf; reflexivity). exact Hinv.
      * rewrite (submit_admits _ _ Hf Hid). simpl.
        rewrite (task_view_update id _ (fun ts => ts ++ [now]) (sys c))
          by (intro p; reflexivity).
        assert (Hnd : NoDup (keys (quantum_processors (sys c)))).
        { destruct Hinv as (Hk & _). rewrite keys_task_view in Hk. rewrite Hk.
          exact initial_keys_NoDup. }
        destruct (find_available_lookup _ Hnd Hf) as (p & Hp & Hlen).
        eapply pool_invariant_submit; [exact Hinv | | exact Hlen].
        rewrite lookup_task_view, Hp. reflexivity.
    + rewrite submit_rejects by (rewrite Hf; reflexivity). exact Hinv.
  - (* Resume *)
    destruct (nth_error (suspended c) n) as [k |] eqn:Hn; [| exact Hinv]. simpl.
    rewrite resume_task_view.
    assert (Hin : contains (c_task k) (active_tasks (c_processor k) (sys c)) = true).
    { apply contains_count. rewrite active_tasks_view.
      destruct Hinv as (_ & _ & Hw). rewrite Hw.
      eapply waiting_nth; [exact Hn | reflexivity | reflexivity]. }
    rewrite Hin. apply pool_invariant_resume; assumption.
  - rewrite (on_queue_same_tasks name (put_nowait data) (sys c)). exact Hinv.
  - rewrite (stream_iteration_same_tasks name env (sys c)). exact Hinv.
  - exact Hinv.
  - rewrite (optimization_tick_same_tasks (sys c)). exact Hinv.
Qed.

Lemma pool_invariant_initial : pool_invariant (task_view initial_system) [].
Proof.
  split; [reflexivity | split].
  - repeat constructor.
  - intros id t. unfold waiting, tasks_at; simpl.
    repeat match goal with
           | |- context [if ?b then _ else _] => destruct b
           end; reflexivity.
Qed.

Lemma run_snoc ls lb c : run (ls ++ [lb]) c = fire lb (run ls c).
Proof. unfold run. rewrite fold_left_app. reflexivity. Qed.

Lemma pool_invariant_run ls :
  pool_invariant (task_view (sys (run ls initial_config)))
                 (suspended (run ls initial_config)).
Proof.
  induction ls as [| lb ls IH] using rev_ind.
  - exact pool_invariant_initial.
  - rewrite run_snoc. apply pool_invariant_fire. exact IH.
Qed.

(** ** Admission (C1, C2) *)

(** C1, as amended: admission is first fit. A submission is assigned to the
    first unit, in the order of the pool, whose task list is shorter than the
    capacity, whatever the qualities of the units are; the task that runs to
    its end reports that unit. *)
Theorem C1_first_fit_admission (s : system) (now : timestamp)
    (before after : dict processor) (id : string) (p : processor) :
  quantum_processors s = before ++ (id, p) :: after ->
  Forall (fun kv => capacity <= length (current_tasks (snd kv))) before ->
  length (current_tasks p) < capacity ->
  id <> ""%string ->
  fst (submit now s) = Return (id, now) /\
  forall task_type u,
    exists r,
      fst (execute_quantum_task now task_type (WorkDone u) s) = Return r /\
      r_processor_id r = id /\ r_task_id r = now.
Proof.
  intros Hsplit Hfull Hroom Hid.
  assert (Hf : find_available (quantum_processors s) = Some id)
    by (rewrite Hsplit; apply find_available_split; assumption).
  split.
  - rewrite (submit_admits _ _ Hf Hid). reflexivity.
  - intros task_type u. rewrite execute_quantum_task_split. unfold bind.
    rewrite (submit_admits _ _ Hf Hid). simpl.
    rewrite resume_outcome, task_work_outcome.
    eexists. split; [reflexivity | split; reflexivity].
Qed.

(** C2: in every reachable state the task list of every unit has at most
    [capacity] = 2 entries; and a submission that finds every unit full
    raises "No quantum processor available" and changes nothing. *)
Theorem C2_capacity_never_exceeded (ls : list label) :
  let c := run ls initial_config in
  (forall id p, In (id, p) (quantum_processors (sys c)) ->
                length (current_tasks p) <= capacity) /\
  (forall now task_type w,
      Forall (fun kv => capacity <= length (current_tasks (snd kv)))
             (quantum_processors (sys c)) ->
      execute_quantum_task now task_type w (sys c) = (Raise no_processor_available, sys c) /\
      fire (Submit now task_type) c = c).
Proof.
  intro c. split.
  - intros id p Hin.
    destruct (pool_invariant_run ls) as (_ & Hcap & _). fold c in Hcap.
    rewrite Forall_forall in Hcap.
    apply (Hcap (id, current_tasks p)). unfold task_view.
    change (id, current_tasks p)
      with ((fun kv : string * processor => (fst kv, current_tasks (snd kv))) (id, p)).
    apply in_map. exact Hin.
  - intros now task_type w Hfull.
    assert (Hnone : find_available (quantum_processors (sys c)) = None).
    { pose proof (find_available_first (quantum_processors (sys c))) as Hf.
      destruct (find_available (quantum_processors (sys c))) as [id |]; [| reflexivity].
      destruct Hf as (before & p & after & Heq & Hp & _).
      rewrite Heq in Hfull. apply Forall_elt in Hfull. simpl in Hfull. lia. }
    split.
    + rewrite execute_quantum_task_split. unfold bind.
      rewrite submit_rejects by (rewrite Hnone; reflexivity). reflexivity.
    + simpl. rewrite submit_rejects by (rewrite Hnone; reflexivity).
      destruct c; reflexivity.
Qed.

(** ** Release and failure (C3, C4) *)

(** C3, as amended: when a suspended task runs to its end, returning or
    raising, exactly one occurrence of its id leaves the task list of its
    unit, and the other units keep their lists; the id is no longer in the
    list when no other task suspended on that unit carries the same id. *)
Theorem C3_release_exactly_once (ls : list label) (n : nat) (k : coroutine) (w : work) :
  let c := run ls initial_config in
  let c' := fire (Resume n w) c in
  nth_error (suspended c) n = Some k ->
  count_occ Z.eq_dec (active_tasks (c_processor k) (sys c)) (c_task k) =
    S (count_occ Z.eq_dec (active_tasks (c_processor k) (sys c')) (c_task k)) /\
  (waiting (c_processor k) (c_task k) (suspended c) = 1 ->
   ~ In (c_task k) (active_tasks (c_processor k) (sys c'))) /\
  (forall id, id <> c_processor k -> active_tasks id (sys c') = active_tasks id (sys c)).
Proof.
  intros c c' Hn.
  destruct (pool_invariant_run ls) as (_ & _ & Hw). fold c in Hw.
  pose proof (waiting_nth _ (suspended c) Hn eq_refl eq_refl) as Hpos.
  assert (Hin : contains (c_task k) (active_tasks (c_processor k) (sys c)) = true).
  { apply contains_count. rewrite active_tasks_view, Hw. exact Hpos. }
  assert (Hview : task_view (sys c') =
                  update (c_processor k) (remove_first (c_task k)) (task_view (sys c))).
  { unfold c'. simpl. rewrite Hn. simpl. rewrite resume_task_view, Hin. reflexivity. }
  assert (Hcount : count_occ Z.eq_dec (active_tasks (c_processor k) (sys c')) (c_task k) =
                   pred (waiting (c_processor k) (c_task k) (suspended c))).
  { rewrite active_tasks_view, Hview, tasks_at_update_same by reflexivity.
    rewrite count_occ_remove_first, Z.eqb_refl, Hw. reflexivity. }
  split; [| split].
  - rewrite Hcount, active_tasks_view, Hw. lia.
  - intros Hone Hmem. apply (count_occ_In Z.eq_dec) in Hmem.
    rewrite Hcount, Hone in Hmem. simpl in Hmem. lia.
  - intros id Hid. rewrite !active_tasks_view, Hview.
    apply tasks_at_update_other. exact Hid.
Qed.






End Tasks.

(** ** Hoare triples for computations *)

Section Hoare.
Variable S : Type.

Lemma hoare_consequence {A} (Pre Pre' : S -> Prop) (m : M S A)
    (Post Post' : outcome A -> S -> Prop) :
  hoare Pre' m Post' ->
  (forall s, Pre s -> Pre' s) ->
  (forall r s, Post' r s -> Post r s) ->
  hoare Pre m Post.
Proof. intros H Hpre Hpost s Hs. apply Hpost, H, Hpre, Hs. Qed.

Lemma hoare_ret {A} (I : S -> Prop) (a : A) : hoare I (ret a) (fun _ => I).
Proof. intros s Hs. exact Hs. Qed.

Lemma hoare_get (I : S -> Prop) : hoare I get (fun _ => I).
Proof. intros s Hs. exact Hs. Qed.

Lemma hoare_raise {A} (I : S -> Prop) (e : exn) : hoare I (@raise S A e) (fun _ => I).
Proof. intros s Hs. exact Hs. Qed.

Lemma hoare_modify (I : S -> Prop) (f : S -> S) :
  (forall s, I s -> I (f s)) -> hoare I (modify f) (fun _ => I).
Proof. intros Hf s Hs. apply Hf, Hs. Qed.

Lemma hoare_bind {A B} (Pre : S -> Prop) (m : M S A) (Mid : outcome A -> S -> Prop)
    (k : A -> M S B) (Post : outcome B -> S -> Prop) :
  hoare Pre m Mid ->
  (forall a, hoare (Mid (Return a)) (k a) Post) ->
  (forall e s, Mid (Raise e) s -> Post (Raise e) s) ->
  hoare Pre (bind m k) Post.
Proof.
  intros Hm Hk He s Hs. unfold bind. specialize (Hm s Hs).
  destruct (m s) as [[a | e] s1]; simpl in *.
  - apply Hk, Hm.
  - apply He, Hm.
Qed.

Lemma hoare_try_except {A} (Pre : S -> Prop) (body : M S A) (Mid : outcome A -> S -> Prop)
    (handler : exn -> M S A) (Post : outcome A -> S -> Prop) :
  hoare Pre body Mid ->
  (forall e, hoare (Mid (Raise e)) (handler e) Post) ->
  (forall a s, Mid (Return a) s -> Post (Return a) s) ->
  hoare Pre (try_except body handler) Post.
Proof.
  intros Hb Hh Ha s Hs. unfold try_except. specialize (Hb s Hs).
  destruct (body s) as [[a | e] s1]; simpl in *.
  - apply Ha, Hb.
  - apply Hh, Hb.
Qed.

Lemma hoare_try_finally {A} (I : S -> Prop) (body : M S A) (fin : M S unit) :
  hoare I body (fun _ => I) ->
  hoare I fin (fun _ => I) ->
  hoare I (try_finally body fin) (fun _ => I).
Proof.
  intros Hb Hf s Hs. unfold try_finally. specialize (Hb s Hs).
  destruct (body s) as [r s1]. simpl in Hb. specialize (Hf s1 Hb).
  destruct (fin s1) as [[u | e] s2]; exact Hf.
Qed.

Lemma hoare_for_each {X} (I : S -> Prop) (xs : list X) (body : X -> M S unit) :
  (forall x, hoare I (body x) (fun _ => I)) ->
  hoare I (for_each xs body) (fun _ => I).
Proof.
  intro Hb. induction xs as [| x rest IH]; simpl.
  - apply hoare_ret.
  - apply hoare_bind with (Mid := fun _ => I); [apply Hb | intros _; exact IH |].
    intros e s Hs. exact Hs.
Qed.

(** The two rules most proofs need: an invariant through a sequence and
    through a handler. *)
Lemma hoare_seq {A B} (I : S -> Prop) (m : M S A) (k : A -> M S B) :
  hoare I m (fun _ => I) ->
  (forall a, hoare I (k a) (fun _ => I)) ->
  hoare I (bind m k) (fun _ => I).
Proof.
  intros Hm Hk. apply hoare_bind with (Mid := fun _ => I); [exact Hm | exact Hk |].
  intros e s Hs. exact Hs.
Qed.

Lemma hoare_handle {A} (I : S -> Prop) (body : M S A) (handler : exn -> M S A) :
  hoare I body (fun _ => I) ->
  (forall e, hoare I (handler e) (fun _ => I)) ->
  hoare I (try_except body handler) (fun _ => I).
Proof.
  intros Hb Hh. apply hoare_try_except with (Mid := fun _ => I); [exact Hb | exact Hh |].
  intros a s Hs. exact Hs.
Qed.
End Hoare.

(** ** The quality of the units (C5, C6) *)

Section Quality.
Context {R : Rounding}.
Local Open Scope Q_scope.

Lemma rnd_unit x : in_unit_interval x -> in_unit_interval (rnd x).
Proof.
  intros [H0 H1]. split.
  - rewrite <- rnd_0. apply rnd_le. exact H0.
  - rewrite <- rnd_1. apply rnd_le. exact H1.
Qed.

Lemma rnd_nonneg x : 0 <= x -> 0 <= rnd x.
Proof. intro H. rewrite <- rnd_0. apply rnd_le. exact H. Qed.

Lemma decay_unit : in_unit_interval decay.
Proof. apply rnd_unit. split; [discriminate | discriminate]. Qed.

Lemma step_nonneg : 0 <= recalibration_step.
Proof. apply rnd_nonneg. discriminate. Qed.

(** Decay keeps a quality in the unit interval. *)
Lemma fmul_decay_unit q : in_unit_interval q -> in_unit_interval (fmul q decay).
Proof.
  intros [H0 H1]. destruct decay_unit as [D0 D1]. apply rnd_unit. split.
  - apply Qmult_le_0_compat; assumption.
  - setoid_replace 1 with (1 * 1) by reflexivity.
    apply Qmult_le_compat_nonneg; split; assumption.
Qed.

Lemma py_min_le_l a b : py_min a b <= a.
Proof.
  unfold py_min. destruct (Qlt_le_dec b a) as [H | H];
    [apply Qlt_le_weak, H | apply Qle_refl].
Qed.

Lemma py_min_ge a b c : c <= a -> c <= b -> c <= py_min a b.
Proof. intros Ha Hb. unfold py_min. destruct (Qlt_le_dec b a); assumption. Qed.

(** Recalibration keeps a quality in the unit interval. *)
Lemma recalibrated_unit q :
  0 <= q -> in_unit_interval (py_min 1 (fadd q recalibration_step)).
Proof.
  intro H0. split.
  - apply py_min_ge; [discriminate |]. apply rnd_nonneg.
    pose proof step_nonneg. lra.
  - apply py_min_le_l.
Qed.

(** *** Every transition keeps the system healthy *)

Lemma log_healthy e : hoare healthy (log e) (fun _ => healthy).
Proof. apply hoare_modify. intros s Hs. exact Hs. Qed.

Lemma external_healthy f : hoare healthy (external f) (fun _ => healthy).
Proof. destruct f; [apply hoare_raise | apply hoare_ret]. Qed.

Lemma guarded_healthy handler body :
  hoare healthy body (fun _ => healthy) ->
  hoare healthy (guarded handler body) (fun _ => healthy).
Proof.
  intro Hb. unfold guarded. apply hoare_handle; [exact Hb |].
  intro e. destruct (is_Exception e); [apply log_healthy | apply hoare_raise].
Qed.

Lemma mutate_processor_healthy id f :
  (forall p, in_unit_interval (coherence (state p)) ->
             in_unit_interval (coherence (state (f p)))) ->
  hoare healthy (mutate_processor id f) (fun _ => healthy).
Proof.
  intro Hf. apply hoare_modify. intros s [Hq Hs]. split; [| exact Hs].
  unfold quality_bounded, with_processors; simpl.
  apply Forall_update; [exact Hq |]. intros p _ Hp. simpl in *. apply Hf, Hp.
Qed.

Lemma submit_healthy now : hoare healthy (submit now) (fun _ => healthy).
Proof.
  unfold submit. apply hoare_seq; [apply hoare_get |]. intro s.
  destruct (negb (truthy (find_available (quantum_processors s)))); [apply hoare_raise |].
  apply hoare_seq; [| intros _; apply hoare_ret].
  apply mutate_processor_healthy. intros p Hp. exact Hp.
Qed.

Lemma release_healthy id t : hoare healthy (release id t) (fun _ => healthy).
Proof.
  unfold release. apply hoare_seq; [apply hoare_get |]. intro s.
  destruct (contains t (current_tasks (the_processor id s))); [| apply hoare_ret].
  apply mutate_processor_healthy. intros p Hp. exact Hp.
Qed.

Lemma task_work_healthy id t task_type w :
  hoare healthy (task_work id t task_type w) (fun _ => healthy).
Proof.
  destruct w as [u | e]; [| apply hoare_raise]. unfold task_work.
  apply hoare_seq; [apply hoare_get |]. intro s.
  apply hoare_seq; [| intros _].
  - apply mutate_processor_healthy. intros p Hp. simpl. apply fmul_decay_unit, Hp.
  - apply hoare_seq; [apply log_healthy | intros _; apply hoare_ret].
Qed.

Lemma resume_healthy id t task_type w :
  hoare healthy (resume id t task_type w) (fun _ => healthy).
Proof.
  unfold resume. apply hoare_try_finally; [apply task_work_healthy | apply release_healthy].
Qed.

Lemma the_queue_in_range name s : streams_in_range s -> queue_in_range (the_queue name s).
Proof.
  intro Hs. unfold the_queue. destruct (lookup name (data_streams s)) as [q |] eqn:E.
  - apply lookup_In in E. unfold streams_in_range in Hs. rewrite Forall_forall in Hs.
    exact (Hs _ E).
  - constructor.
Qed.

(** A queue operation that keeps the queue in range keeps the system
    healthy, and what holds of its outcome on the queue holds on the
    system. *)
Lemma on_queue_healthy {A} name (m : M queue A) (Post : outcome A -> Prop) :
  hoare queue_in_range m (fun r q => queue_in_range q /\ Post r) ->
  hoare healthy (on_queue name m) (fun r s => healthy s /\ Post r).
Proof.
  intros Hm s [Hq Hs]. unfold on_queue.
  specialize (Hm (the_queue name s) (the_queue_in_range name Hs)).
  destruct (m (the_queue name s)) as [r q']. simpl in *. destruct Hm as [Hq' Hr].
  split; [| exact Hr]. split; [exact Hq |].
  unfold streams_in_range, with_streams; simpl.
  apply Forall_update; [exact Hs |]. intros q _ _. exact Hq'.
Qed.

Lemma get_nowait_in_range :
  hoare queue_in_range get_nowait
    (fun r q => queue_in_range q /\
                match r with Return x => event_in_range x | Raise _ => True end).
Proof.
  intros q Hq. unfold get_nowait, queue_in_range in *.
  destruct (items q) as [| x rest] eqn:E; simpl.
  - rewrite E. split; [exact Hq | exact I].
  - inversion Hq; subst. split; assumption.
Qed.

Lemma put_nowait_in_range x :
  event_in_range x ->
  hoare queue_in_range (put_nowait x) (fun r q => queue_in_range q /\ True).
Proof.
  intros Hx q Hq. unfold put_nowait.
  destruct ((0 <? maxsize q)%nat && (maxsize q <=? qsize q)%nat); simpl.
  - split; [exact Hq | exact I].
  - split; [| exact I]. unfold queue_in_range in *; simpl.
    apply Forall_app. split; [exact Hq | constructor; [exact Hx | constructor]].
Qed.

Lemma drain_in_range n : hoare queue_in_range (drain n) (fun _ => queue_in_range).
Proof.
  induction n as [| n IH]; simpl; [apply hoare_ret |].
  apply hoare_seq; [| intros [|]; [apply hoare_ret | exact IH]].
  apply hoare_handle.
  - apply hoare_seq; [| intros _; apply hoare_ret].
    eapply hoare_consequence; [apply get_nowait_in_range | auto |].
    intros r q [Hq _]. exact Hq.
  - intro e. destruct e; first [apply hoare_ret | apply hoare_raise].
Qed.

Lemma update_coherence_unit data kv :
  event_in_range data ->
  in_unit_interval (coherence (state (snd kv))) ->
  in_unit_interval (coherence (state (snd (update_coherence data kv)))).
Proof.
  intros Hd Hp. unfold update_coherence.
  destruct (lookup (fst kv) data) as [entry |] eqn:E; [| exact Hp]. simpl.
  destruct entry as [c |]; [| exact Hp].
  apply lookup_In in E. unfold event_in_range in Hd. rewrite Forall_forall in Hd.
  exact (Hd _ E).
Qed.

Lemma dispatch_healthy name data f :
  event_in_range data -> hoare healthy (dispatch name data f) (fun _ => healthy).
Proof.
  intro Hd.
  assert (Hq : hoare healthy (_process_quantum_data data f) (fun _ => healthy)).
  { apply guarded_healthy. apply hoare_seq; [| intros _; apply external_healthy].
    apply hoare_modify. intros s [Hb Hs]. split; [| exact Hs].
    unfold quality_bounded, with_processors; simpl.
    apply Forall_map. unfold quality_bounded in Hb.
    eapply Forall_impl; [| exact Hb].
    intros kv Hkv. apply update_coherence_unit; assumption. }
  assert (Ha : hoare healthy (_process_ai_decision_data data f) (fun _ => healthy)).
  { apply guarded_healthy.
    apply hoare_seq; [apply log_healthy | intros _; apply external_healthy]. }
  assert (Ho : forall h, hoare healthy (_process_other_data h f) (fun _ => healthy)).
  { intro h. apply guarded_healthy, external_healthy. }
  unfold dispatch.
  repeat match goal with
         | |- context [if ?b then _ else _] => destruct b
         end; auto.
  apply hoare_ret.
Qed.

Lemma wait_for_get_healthy name c :
  hoare healthy (wait_for_get name c)
    (fun r s => healthy s /\
                match r with Return x => event_in_range x | Raise _ => True end).
Proof.
  unfold wait_for_get. destruct c.
  - intros s Hs. split; [exact Hs | exact I].
  - eapply hoare_try_except.
    + apply (@on_queue_healthy _ name get_nowait
               (fun r => match r with Return x => event_in_range x | Raise _ => True end)).
      apply get_nowait_in_range.
    + intros e s [Hs _]. destruct e; (split; [exact Hs | exact I]).
    + intros a s H. exact H.
Qed.

Lemma stream_iteration_healthy name env :
  hoare healthy (stream_iteration name env) (fun _ => healthy).
Proof.
  unfold stream_iteration. eapply hoare_try_except with (Mid := fun _ => healthy).
  - eapply hoare_bind.
    + apply wait_for_get_healthy.
    + intros data s [Hs Hd]. apply dispatch_healthy; assumption.
    + intros e s [Hs _]. exact Hs.
  - intro e. destruct (is_TimeoutError e); [apply hoare_ret |].
    destruct (is_Exception e); [apply log_healthy | apply hoare_raise].
  - intros a s Hs. exact Hs.
Qed.

Lemma for_items_Forall {V} (P : V -> Prop)
    (body : string -> V -> outcome unit * (V * list log_entry)) (d : dict V) :
  (forall k v, P v -> P (fst (snd (body k v)))) ->
  Forall (fun kv => P (snd kv)) d ->
  Forall (fun kv => P (snd kv)) (fst (snd (for_items body d))).
Proof.
  intros Hb Hd. induction Hd as [| [k v] rest Hv Hrest IH]; simpl; [constructor |].
  specialize (Hb k v Hv). simpl in Hv.
  destruct (body k v) as [[u | e] [v' l]]; simpl in *.
  - destruct (for_items body rest) as [r [rest' l']]; simpl in *.
    constructor; assumption.
  - constructor; assumption.
Qed.

Lemma recalibrate_unit id p :
  in_unit_interval (coherence (state p)) ->
  in_unit_interval (coherence (state (fst (snd (recalibrate id p))))).
Proof.
  intro Hp. unfold recalibrate.
  destruct (Qlt_le_dec (coherence (state p)) coherence_threshold); simpl; [| exact Hp].
  apply recalibrated_unit. apply Hp.
Qed.

Lemma clear_overloaded_in_range name q :
  queue_in_range q -> queue_in_range (fst (snd (clear_overloaded name q))).
Proof.
  intro Hq. unfold clear_overloaded.
  destruct (overload_threshold <? qsize q)%nat; [| exact Hq].
  pose proof (drain_in_range shed_batch) as Hd. specialize (Hd q Hq).
  destruct (drain shed_batch q) as [[u | e] q']; exact Hd.
Qed.

Lemma optimize_processors_healthy : hoare healthy optimize_processors (fun _ => healthy).
Proof.
  intros s [Hb Hs]. unfold optimize_processors.
  pose proof (@for_items_Forall _ (fun p => in_unit_interval (coherence (state p)))
                recalibrate (quantum_processors s) recalibrate_unit Hb) as H.
  destruct (for_items recalibrate (quantum_processors s)) as [r [d l]].
  split; [exact H | exact Hs].
Qed.

Lemma clear_streams_healthy : hoare healthy clear_streams (fun _ => healthy).
Proof.
  intros s [Hb Hs]. unfold clear_streams.
  pose proof (@for_items_Forall _ queue_in_range
                clear_overloaded (data_streams s) clear_overloaded_in_range Hs) as H.
  destruct (for_items clear_overloaded (data_streams s)) as [r [d l]].
  split; [exact Hb | exact H].
Qed.

Lemma optimize_models_healthy : hoare healthy optimize_models (fun _ => healthy).
Proof.
  unfold optimize_models. apply hoare_seq; [apply hoare_get |]. intro s.
  apply hoare_for_each. intro x.
  destruct (String.eqb x "language_processor"); [apply hoare_ret | apply log_healthy].
Qed.

Lemma perform_healthy : hoare healthy _perform_adaptive_optimization (fun _ => healthy).
Proof.
  unfold _perform_adaptive_optimization. apply hoare_handle.
  - repeat (apply hoare_seq; [| intros _]).
    + apply log_healthy.
    + apply optimize_processors_healthy.
    + apply optimize_models_healthy.
    + apply clear_streams_healthy.
    + apply log_healthy.
  - intro e. destruct (is_Exception e); [apply log_healthy | apply hoare_raise].
Qed.

Lemma optimization_tick_healthy : hoare healthy optimization_tick (fun _ => healthy).
Proof.
  unfold optimization_tick. apply hoare_seq; [apply hoare_get |]. intro s.
  destruct (_needs_optimization s); [apply perform_healthy | apply hoare_ret].
Qed.

Lemma monitor_iteration_healthy env :
  hoare healthy (monitor_iteration env) (fun _ => healthy).
Proof. intros s Hs. exact Hs. Qed.

Lemma fire_healthy lb c :
  label_in_range lb -> healthy (sys c) -> healthy (sys (fire lb c)).
Proof.
  intros Hlb Hc. destruct lb as [now ty | n w | name data | name env | env |]; simpl.
  - pose proof (submit_healthy now) as H. specialize (H (sys c) Hc).
    destruct (submit now (sys c)) as [[[id t] | e] s']; exact H.
  - destruct (nth_error (suspended c) n) as [k |]; [| exact Hc].
    pose proof (resume_healthy (c_processor k) (c_task k) (c_type k) w) as H.
    exact (H (sys c) Hc).
  - simpl in Hlb.
    pose proof (@on_queue_healthy _ name (put_nowait data) (fun _ => True)
                  (put_nowait_in_range Hlb)) as H.
    exact (proj1 (H (sys c) Hc)).
  - pose proof (stream_iteration_healthy name env) as H. exact (H (sys c) Hc).
  - exact Hc.
  - pose proof optimization_tick_healthy as H. exact (H (sys c) Hc).
Qed.

Lemma initial_healthy : healthy initial_system.
Proof.
  split.
  - repeat constructor; simpl; discriminate.
  - repeat constructor.
Qed.

Lemma run_healthy ls :
  Forall label_in_range ls -> healthy (sys (run ls initial_config)).
Proof.
  induction ls as [| lb ls IH] using rev_ind; intro Hls.
  - exact initial_healthy.
  - apply Forall_app in Hls. destruct Hls as [Hls Hlb]. inversion Hlb; subst.
    rewrite run_snoc. apply fire_healthy; [assumption | apply IH, Hls].
Qed.

(** C5, as amended: the quality of every unit stays between 0 and 1 along
    every run of the system, made of task completions (decay by 0.99),
    optimizer ticks (recalibration by 0.1, capped at 1.0) and stream
    updates, in which the events published to the streams carry coherence
    values between 0 and 1. *)
Theorem C5_quality_stays_in_unit_interval (ls : list label) :
  Forall label_in_range ls ->
  forall id p,
    In (id, p) (quantum_processors (sys (run ls initial_config))) ->
    0 <= coherence (state p) /\ coherence (state p) <= 1.
Proof.
  intros Hls id p Hin. destruct (run_healthy Hls) as [Hb _].
  unfold quality_bounded in Hb. rewrite Forall_forall in Hb.
  exact (Hb _ Hin).
Qed.

End Quality.

(** ** The adaptive optimizer (C6, C7, C8, C10) *)

Section Optimizer.
Context {R : Rounding}.
Local Open Scope nat_scope.

(** *** The drain of a queue *)

Lemma drain_skipn n q :
  drain n q = (Return tt, {| maxsize := maxsize q; items := skipn n (items q) |}).
Proof.
  revert q. induction n as [| n IH]; intros [m its]; simpl; [reflexivity |].
  unfold bind, try_except, get_nowait; simpl.
  destruct its as [| x rest]; simpl; [reflexivity |].
  rewrite IH. reflexivity.
Qed.

(** C10: the drain of a shed removes [min 100 depth] events, the oldest
    ones; it stops at the empty queue and ends without an exception, with
    the capacity of the queue untouched. *)
Theorem C10_drain_removes_min_batch_depth (q : queue) :
  fst (drain shed_batch q) = Return tt /\
  items (snd (drain shed_batch q)) = skipn 100 (items q) /\
  qsize (snd (drain shed_batch q)) = qsize q - Nat.min 100 (qsize q) /\
  maxsize (snd (drain shed_batch q)) = maxsize q /\
  (items q = [] -> snd (drain shed_batch q) = q).
Proof.
  rewrite drain_skipn. cbn [fst snd items maxsize]. repeat split.
  - unfold qsize. cbn [items]. rewrite length_skipn. unfold shed_batch. lia.
  - intro He. destruct q as [m its]. cbn [items maxsize] in *. subst its. reflexivity.
Qed.

(** *** The two loops of the optimizer *)

Lemma for_items_total {V} (body : string -> V -> outcome unit * (V * list log_entry))
    (d : dict V) :
  (forall k v, fst (body k v) = Return tt) ->
  for_items body d =
    (Return tt,
     (map (fun kv => (fst kv, fst (snd (body (fst kv) (snd kv))))) d,
      flat_map (fun kv => snd (snd (body (fst kv) (snd kv)))) d)).
Proof.
  intro Hb. induction d as [| [k v] rest IH]; simpl; [reflexivity |].
  specialize (Hb k v). destruct (body k v) as [[[] | e] [v' l]]; simpl in *;
    [| discriminate].
  rewrite IH. reflexivity.
Qed.

Lemma recalibrate_returns id p : fst (recalibrate id p) = Return tt.
Proof.
  unfold recalibrate.
  destruct (Qlt_le_dec (coherence (state p)) coherence_threshold); reflexivity.
Qed.

Lemma clear_overloaded_spec name q :
  clear_overloaded name q =
    if overload_threshold <? qsize q
    then (Return tt,
          ({| maxsize := maxsize q; items := skipn shed_batch (items q) |},
           [ClearedStream name]))
    else (Return tt, (q, [])).
Proof. unfold clear_overloaded. rewrite drain_skipn. reflexivity. Qed.

Lemma clear_overloaded_returns name q : fst (clear_overloaded name q) = Return tt.
Proof.
  rewrite clear_overloaded_spec. destruct (overload_threshold <? qsize q); reflexivity.
Qed.

Lemma model_loop_spec models (s : system) :
  for_each models
    (fun model_name =>
       if String.eqb model_name "language_processor" then ret tt
       else log (OptimizingModel model_name)) s =
  (Return tt,
   {| quantum_processors := quantum_processors s;
      data_streams := data_streams s;
      ai_models := ai_models s;
      performance_metrics := performance_metrics s;
      logs := logs s ++ model_log models |}).
Proof.
  revert s. induction models as [| x rest IH]; intro s; simpl.
  - rewrite app_nil_r. destruct s; reflexivity.
  - unfold bind. destruct (String.eqb x "language_processor"); simpl.
    + apply IH.
    + rewrite IH. simpl. rewrite <- app_assoc. reflexivity.
Qed.

Lemma log_spec e s :
  log e s =
  (Return tt,
   {| quantum_processors := quantum_processors s;
      data_streams := data_streams s;
      ai_models := ai_models s;
      performance_metrics := performance_metrics s;
      logs := logs s ++ [e] |}).
Proof. reflexivity. Qed.

Lemma optimize_processors_spec s :
  optimize_processors s =
  (Return tt,
   {| quantum_processors := recalibrated (quantum_processors s);
      data_streams := data_streams s;
      ai_models := ai_models s;
      performance_metrics := performance_metrics s;
      logs := logs s ++ recalibration_log (quantum_processors s) |}).
Proof.
  unfold optimize_processors.
  rewrite (for_items_total recalibrate _ recalibrate_returns). reflexivity.
Qed.

Lemma optimize_models_spec s :
  optimize_models s =
  (Return tt,
   {| quantum_processors := quantum_processors s;
      data_streams := data_streams s;
      ai_models := ai_models s;
      performance_metrics := performance_metrics s;
      logs := logs s ++ model_log (ai_models s) |}).
Proof. unfold optimize_models, bind, get. apply model_loop_spec. Qed.

Lemma clear_streams_spec s :
  clear_streams s =
  (Return tt,
   {| quantum_processors := quantum_processors s;
      data_streams := cleared (data_streams s);
      ai_models := ai_models s;
      performance_metrics := performance_metrics s;
      logs := logs s ++ clearing_log (data_streams s) |}).
Proof.
  unfold clear_streams.
  rewrite (for_items_total clear_overloaded _ clear_overloaded_returns). reflexivity.
Qed.

(** What [_perform_adaptive_optimization] does to the state. *)
Lemma perform_spec s :
  _perform_adaptive_optimization s =
    (Return tt,
     {| quantum_processors := recalibrated (quantum_processors s);
        data_streams := cleared (data_streams s);
        ai_models := ai_models s;
        performance_metrics := performance_metrics s;
        logs := logs s ++ [PerformingOptimization]
                  ++ recalibration_log (quantum_processors s)
                  ++ model_log (ai_models s)
                  ++ clearing_log (data_streams s)
                  ++ [OptimizationCompleted] |}).
Proof.
  unfold _perform_adaptive_optimization, try_except, bind.
  rewrite log_spec, optimize_processors_spec, optimize_models_spec,
    clear_streams_spec, log_spec.
  cbn [quantum_processors data_streams ai_models performance_metrics logs].
  rewrite <- !app_assoc. reflexivity.
Qed.

Lemma optimization_tick_spec s :
  optimization_tick s =
    if _needs_optimization s then _perform_adaptive_optimization s else (Return tt, s).
Proof.
  unfold optimization_tick, bind, get. destruct (_needs_optimization s); reflexivity.
Qed.

Lemma skipn_length_app {A} (l l' : list A) : skipn (length l) (l ++ l') = l'.
Proof. induction l; simpl; [reflexivity | assumption]. Qed.

Lemma filter_model_log models : filter is_mitigation (model_log models) = [].
Proof.
  induction models as [| x rest IH]; simpl; [reflexivity |].
  rewrite filter_app, IH, app_nil_r.
  destruct (String.eqb x "language_processor"); reflexivity.
Qed.

Lemma filter_recalibration_log procs :
  filter is_mitigation (recalibration_log procs) = recalibration_log procs.
Proof.
  induction procs as [| [k p] rest IH]; simpl; [reflexivity |].
  rewrite filter_app, IH. f_equal. unfold recalibrate.
  destruct (Qlt_le_dec (coherence (state p)) coherence_threshold); reflexivity.
Qed.

Lemma filter_clearing_log streams :
  filter is_mitigation (clearing_log streams) = clearing_log streams.
Proof.
  induction streams as [| [k q] rest IH]; simpl; [reflexivity |].
  rewrite filter_app, IH. f_equal. rewrite clear_overloaded_spec.
  destruct (overload_threshold <? qsize q); reflexivity.
Qed.

(** The mitigation actions of a pass of the optimizer. *)
Lemma perform_actions s :
  mitigation_actions s (snd (_perform_adaptive_optimization s)) =
  recalibration_log (quantum_processors s) ++ clearing_log (data_streams s).
Proof.
  unfold mitigation_actions, new_logs. rewrite perform_spec. simpl.
  rewrite skipn_length_app. simpl.
  rewrite !filter_app, filter_recalibration_log, filter_model_log, filter_clearing_log.
  simpl. rewrite app_nil_r. reflexivity.
Qed.

Lemma tick_actions_idle s :
  _needs_optimization s = false ->
  snd (optimization_tick s) = s /\ mitigation_actions s (snd (optimization_tick s)) = [].
Proof.
  intro H. rewrite optimization_tick_spec, H. simpl. split; [reflexivity |].
  unfold mitigation_actions, new_logs. rewrite skipn_all. reflexivity.
Qed.

Lemma Forall2_map_self {A} (P : A -> A -> Prop) (f : A -> A) (l : list A) :
  (forall x, In x l -> P x (f x)) -> Forall2 P l (map f l).
Proof.
  induction l as [| x rest IH]; intro H; simpl; constructor.
  - apply H. left. reflexivity.
  - apply IH. intros y Hy. apply H. right. exact Hy.
Qed.

Lemma map_fixed {A} (f : A -> A) (l : list A) :
  (forall x, In x l -> f x = x) -> map f l = l.
Proof.
  induction l as [| x rest IH]; intro H; simpl; [reflexivity |].
  rewrite H by (left; reflexivity). f_equal. apply IH.
  intros y Hy. apply H. right. exact Hy.
Qed.

Lemma flat_map_nil {A B} (f : A -> list B) (l : list A) :
  (forall x, In x l -> f x = []) -> flat_map f l = [].
Proof.
  induction l as [| x rest IH]; intro H; simpl; [reflexivity |].
  rewrite H by (left; reflexivity). apply IH.
  intros y Hy. apply H. right. exact Hy.
Qed.

(** *** Recalibration *)

Lemma recalibrate_below id p :
  (coherence (state p) < coherence_threshold)%Q ->
  recalibrate id p =
    (Return tt,
     (with_coherence (py_min 1 (fadd (coherence (state p)) recalibration_step)) p,
      [OptimizedProcessor id])).
Proof.
  intro H. unfold recalibrate.
  destruct (Qlt_le_dec (coherence (state p)) coherence_threshold) as [_ | Hge];
    [reflexivity |].
  exfalso. exact (Qlt_not_le _ _ H Hge).
Qed.

Lemma recalibrate_steady id p :
  (coherence_threshold <= coherence (state p))%Q ->
  recalibrate id p = (Return tt, (p, [])).
Proof.
  intro H. unfold recalibrate.
  destruct (Qlt_le_dec (coherence (state p)) coherence_threshold) as [Hlt | _];
    [| reflexivity].
  exfalso. exact (Qlt_not_le _ _ Hlt H).
Qed.

(** In exact arithmetic the cap is never reached from below the
    threshold: the step is exactly one tenth. *)
Lemma exact_step q :
  (forall x, rnd x == x)%Q ->
  (q < coherence_threshold)%Q ->
  (py_min 1 (fadd q recalibration_step) == q + (1 # 10))%Q.
Proof.
  intros Hex Hq. unfold coherence_threshold, recalibration_step, lit, fadd in *.
  rewrite Hex in Hq. unfold py_min.
  destruct (Qlt_le_dec (rnd (q + rnd (1 # 10))) 1) as [_ | Hge].
  - rewrite !Hex. reflexivity.
  - rewrite !Hex in Hge. exfalso. lra.
Qed.

Lemma steady_recalibrated procs :
  Forall (fun kv => (coherence_threshold <= coherence (state (snd kv)))%Q) procs ->
  recalibrated procs = procs /\ recalibration_log procs = [].
Proof.
  intro H. rewrite Forall_forall in H. split.
  - apply map_fixed. intros [k p] Hin. simpl.
    rewrite (recalibrate_steady k p (H _ Hin)). reflexivity.
  - apply flat_map_nil. intros [k p] Hin. simpl.
    rewrite (recalibrate_steady k p (H _ Hin)). reflexivity.
Qed.

Lemma clear_overloaded_calm name q :
  qsize q <= overload_threshold -> clear_overloaded name q = (Return tt, (q, [])).
Proof.
  intro H. rewrite clear_overloaded_spec. apply Nat.ltb_ge in H. rewrite H. reflexivity.
Qed.

Lemma clear_overloaded_fires name q :
  overload_threshold < qsize q ->
  clear_overloaded name q =
    (Return tt,
     ({| maxsize := maxsize q; items := skipn shed_batch (items q) |},
      [ClearedStream name])).
Proof.
  intro H. rewrite clear_overloaded_spec. apply Nat.ltb_lt in H. rewrite H. reflexivity.
Qed.

Lemma calm_cleared streams :
  Forall (fun kv => qsize (snd kv) <= overload_threshold) streams ->
  cleared streams = streams /\ clearing_log streams = [].
Proof.
  intro H. rewrite Forall_forall in H. split.
  - apply map_fixed. intros [k q] Hin. simpl.
    rewrite (clear_overloaded_calm k q (H _ Hin)). reflexivity.
  - apply flat_map_nil. intros [k q] Hin. simpl.
    rewrite (clear_overloaded_calm k q (H _ Hin)). reflexivity.
Qed.

Lemma clearing_log_entries streams e :
  In e (clearing_log streams) -> exists name, e = ClearedStream name.
Proof.
  unfold clearing_log. rewrite in_flat_map. intros ([k q] & _ & Hin). simpl in Hin.
  rewrite clear_overloaded_spec in Hin.
  destruct (overload_threshold <? qsize q); simpl in Hin; [| contradiction].
  destruct Hin as [<- | []]. exists k. reflexivity.
Qed.

(** C6, as amended. A tick whose check [_needs_optimization] fires raises
    the quality of every unit below the threshold to
    [min(1.0, quality + 0.1)], which is at most 1.0 and, in exact arithmetic,
    the quality plus one tenth; it leaves the other units as they are. A
    tick on a pool whose units are all at or above the threshold changes no
    unit and issues no recalibration; it issues no mitigation action at all
    when, besides, no stream holds more than 800 events. *)
Theorem C6_recalibration_tick (s : system) :
  let s' := snd (optimization_tick s) in
  (_needs_optimization s = true ->
   Forall2 recalibration_rule (quantum_processors s) (quantum_processors s')) /\
  (Forall (fun kv => (coherence_threshold <= coherence (state (snd kv)))%Q)
          (quantum_processors s) ->
   quantum_processors s' = quantum_processors s /\
   (forall id, ~ In (OptimizedProcessor id) (new_logs s s')) /\
   (Forall (fun kv => qsize (snd kv) <= overload_threshold) (data_streams s) ->
    mitigation_actions s s' = [] /\ data_streams s' = data_streams s)).
Proof.
  intro s'. split.
  - intro Hneeds. unfold s'. rewrite optimization_tick_spec, Hneeds, perform_spec.
    cbn [snd quantum_processors]. unfold recalibrated.
    apply Forall2_map_self. intros [k p] _. unfold recalibration_rule. cbn [fst snd].
    destruct (Qlt_le_dec (coherence (state p)) coherence_threshold) as [Hlt | Hge].
    + rewrite (recalibrate_below k p Hlt). cbn [fst snd].
      split; [reflexivity | split; [reflexivity | split]].
      * intros _. split; [reflexivity | split].
        -- apply py_min_le_l.
        -- intro Hex. cbn [with_coherence state coherence].
           apply exact_step; assumption.
      * intro Hge. exfalso. exact (Qlt_not_le _ _ Hlt Hge).
    + rewrite (recalibrate_steady k p Hge). cbn [fst snd].
      split; [reflexivity | split; [reflexivity | split]].
      * intro Hlt. exfalso. exact (Qlt_not_le _ _ Hlt Hge).
      * intros _. reflexivity.
  - intro Hsteady. destruct (steady_recalibrated Hsteady) as [Hprocs Hlog].
    destruct (_needs_optimization s) eqn:Hneeds.
    + assert (Hact : mitigation_actions s s' = clearing_log (data_streams s)).
      { unfold s'. rewrite optimization_tick_spec, Hneeds, perform_actions, Hlog.
        reflexivity. }
      assert (Hs' : s' = snd (_perform_adaptive_optimization s))
        by (unfold s'; rewrite optimization_tick_spec, Hneeds; reflexivity).
      split; [| split].
      * rewrite Hs', perform_spec. cbn [snd quantum_processors]. exact Hprocs.
      * intros id Hin.
        assert (Hin' : In (OptimizedProcessor id) (mitigation_actions s s'))
          by (apply filter_In; split; [exact Hin | reflexivity]).
        rewrite Hact in Hin'. apply clearing_log_entries in Hin'.
        destruct Hin' as (name & Hname). discriminate.
      * intro Hcalm. destruct (calm_cleared Hcalm) as [Hstreams Hclear].
        split; [rewrite Hact; exact Hclear |].
        rewrite Hs', perform_spec. cbn [snd data_streams]. exact Hstreams.
    + destruct (tick_actions_idle s Hneeds) as [Hsame Hnone]. fold s' in Hsame, Hnone.
      split; [| split].
      * rewrite Hsame. reflexivity.
      * intros id Hin. unfold new_logs in Hin. rewrite Hsame, skipn_all in Hin.
        destruct Hin.
      * intros _. split; [exact Hnone | rewrite Hsame; reflexivity].
Qed.

(** *** Shedding *)

Lemma clearing_log_In streams name q :
  In (name, q) streams -> overload_threshold < qsize q ->
  In (ClearedStream name) (clearing_log streams).
Proof.
  intros Hin Hq. unfold clearing_log. apply in_flat_map.
  exists (name, q). split; [exact Hin |]. simpl.
  rewrite (clear_overloaded_fires name q Hq). left. reflexivity.
Qed.

(** C7, as amended: for a stream of capacity 1000, a pass of the optimizer
    sheds when the depth is strictly above 80% of the capacity, and then
    removes the 100 oldest events, 10% of the capacity; at a depth of 80% of
    the capacity or less the pass leaves the stream as it is. A tick of the
    optimization loop is such a pass when [_needs_optimization] finds a
    metric below its threshold, and changes nothing otherwise, whatever the
    depth of the streams. *)
Theorem C7_shedding_of_streams_of_capacity_1000 (s : system) :
  let pass := snd (_perform_adaptive_optimization s) in
  let tick := snd (optimization_tick s) in
  Forall2 (shedding_rule s pass) (data_streams s) (data_streams pass) /\
  (_needs_optimization s = true -> tick = pass) /\
  (_needs_optimization s = false -> tick = s).
Proof.
  intros pass tick. split; [| split].
  - unfold pass. rewrite perform_spec.
    unfold shedding_rule. cbn [snd data_streams]. unfold cleared.
    apply Forall2_map_self. intros [k q] Hin. cbn [fst snd].
    destruct (Nat.ltb_spec overload_threshold (qsize q)) as [Hlt | Hge].
    + rewrite (clear_overloaded_fires k q Hlt). cbn [fst snd maxsize items].
      split; [reflexivity | split; [reflexivity |]]. intro Hmax. split.
      * intros _. split; [reflexivity | split].
        -- unfold qsize; cbn [items]. rewrite length_skipn.
           unfold qsize, overload_threshold, shed_batch in *. lia.
        -- unfold new_logs. cbn [logs]. rewrite skipn_length_app.
           apply in_or_app. right. apply in_or_app. right. apply in_or_app. right.
           apply in_or_app. left. eapply clearing_log_In; eassumption.
      * intro Hle. unfold overload_threshold in Hlt. lia.
    + rewrite (clear_overloaded_calm k q Hge). cbn [fst snd].
      split; [reflexivity | split; [reflexivity |]]. intro Hmax. split.
      * intro Hlt. unfold overload_threshold in Hge. lia.
      * intros _. reflexivity.
  - intro Hneeds. unfold tick, pass. rewrite optimization_tick_spec, Hneeds. reflexivity.
  - intro Hneeds. unfold tick. rewrite optimization_tick_spec, Hneeds. reflexivity.
Qed.

(** *** The metrics and a shed *)

Lemma filter_map_length {A} (f : A -> bool) (g : A -> A) (l : list A) :
  (forall x, In x l -> f (g x) = f x) ->
  length (filter f (map g l)) = length (filter f l).
Proof.
  induction l as [| x rest IH]; intro H; simpl; [reflexivity |].
  rewrite H by (left; reflexivity).
  assert (IH' : length (filter f (map g rest)) = length (filter f rest))
    by (apply IH; intros y Hy; apply H; right; exact Hy).
  destruct (f x); simpl; rewrite IH'; reflexivity.
Qed.

Lemma clear_overloaded_empty name q :
  empty (fst (snd (clear_overloaded name q))) = empty q.
Proof.
  destruct (Nat.ltb_spec overload_threshold (qsize q)) as [Hlt | Hge].
  - rewrite (clear_overloaded_fires name q Hlt). cbn [fst snd].
    unfold empty, qsize in *; cbn [items]. rewrite length_skipn.
    unfold overload_threshold, shed_batch in *.
    destruct (Nat.eqb_spec (length (items q) - 100) 0);
      destruct (Nat.eqb_spec (length (items q)) 0); try reflexivity; lia.
  - rewrite (clear_overloaded_calm name q Hge). reflexivity.
Qed.

Lemma sample_after_clear_streams env s :
  sample env (snd (clear_streams s)) = sample env s.
Proof.
  rewrite clear_streams_spec. cbn [snd]. unfold sample.
  assert (He : _measure_processing_efficiency
                 {| quantum_processors := quantum_processors s;
                    data_streams := cleared (data_streams s);
                    ai_models := ai_models s;
                    performance_metrics := performance_metrics s;
                    logs := logs s ++ clearing_log (data_streams s) |}
               = _measure_processing_efficiency s).
  { unfold _measure_processing_efficiency. cbn [data_streams]. unfold cleared.
    rewrite length_map.
    rewrite (filter_map_length (fun kv : string * queue => negb (empty (snd kv)))).
    - reflexivity.
    - intros [k q] _. cbn [fst snd]. rewrite clear_overloaded_empty. reflexivity. }
  rewrite He. reflexivity.
Qed.

Lemma cleared_lines_model_log models : filter is_cleared_line (model_log models) = [].
Proof.
  induction models as [| x rest IH]; simpl; [reflexivity |].
  rewrite filter_app, IH, app_nil_r.
  destruct (String.eqb x "language_processor"); reflexivity.
Qed.

Lemma cleared_lines_recalibration_log procs :
  filter is_cleared_line (recalibration_log procs) = [].
Proof.
  induction procs as [| [k p] rest IH]; simpl; [reflexivity |].
  rewrite filter_app, IH, app_nil_r. unfold recalibrate.
  destruct (Qlt_le_dec (coherence (state p)) coherence_threshold); reflexivity.
Qed.

Lemma cleared_lines_clearing_log streams :
  filter is_cleared_line (clearing_log streams) =
  map (fun kv => ClearedStream (fst kv))
      (filter (fun kv => overload_threshold <? qsize (snd kv)) streams).
Proof.
  induction streams as [| [k q] rest IH]; simpl; [reflexivity |].
  rewrite filter_app, IH, clear_overloaded_spec.
  destruct (overload_threshold <? qsize q); reflexivity.
Qed.

(** C8, as amended: no counter of discarded events exists. A pass of the
    optimizer leaves the performance metrics and the snapshot made of them
    as they were; the snapshot has the seven entries of [AdvancedMetrics];
    a new sampling by the monitor measures after the shedding what it
    measures before; and a shed leaves one log line per stream it shed,
    which names the stream and no number. *)
Theorem C8_shed_events_are_not_counted (s : system) (env : sampling_env) :
  let s' := snd (_perform_adaptive_optimization s) in
  performance_metrics s' = performance_metrics s /\
  metrics_data s' = metrics_data s /\
  map fst (metrics_data s') =
    [ "processing_efficiency"; "predictive_accuracy"; "system_reliability";
      "quantum_coherence"; "ai_confidence"; "real_time_performance";
      "cross_system_correlation" ]%string /\
  sample env (snd (clear_streams s)) = sample env s /\
  filter is_cleared_line (new_logs s s') =
    map (fun kv => ClearedStream (fst kv))
        (filter (fun kv => overload_threshold <? qsize (snd kv)) (data_streams s)).
Proof.
  intro s'. unfold s'. rewrite perform_spec. cbn [snd].
  split; [reflexivity | split; [reflexivity | split; [reflexivity | split]]].
  - apply sample_after_clear_streams.
  - unfold new_logs. cbn [logs]. rewrite skipn_length_app.
    rewrite !filter_app, cleared_lines_recalibration_log, cleared_lines_model_log,
      cleared_lines_clearing_log.
    simpl. rewrite app_nil_r. reflexivity.
Qed.

End Optimizer.

(** ** The stream processor (C9) *)

Section Streams.
Context {R : Rounding}.
Local Open Scope nat_scope.

Lemma same_streams_refl s : same_streams s s.
Proof. reflexivity. Qed.

Lemma same_streams_trans s1 s2 s3 :
  same_streams s1 s2 -> same_streams s2 s3 -> same_streams s1 s3.
Proof. unfold same_streams. congruence. Qed.

Lemma guarded_same_streams handler body :
  preserves same_streams body -> preserves same_streams (guarded handler body).
Proof.
  intro Hb. unfold guarded.
  apply preserves_try_except; [exact same_streams_trans | exact Hb |].
  intro e. destruct (is_Exception e); intro s; reflexivity.
Qed.

Lemma external_same_streams f : preserves same_streams (external f).
Proof. destruct f; intro s; reflexivity. Qed.

Lemma dispatch_same_streams name data f : preserves same_streams (dispatch name data f).
Proof.
  assert (Hq : preserves same_streams (_process_quantum_data data f)).
  { apply guarded_same_streams. apply preserves_bind; [exact same_streams_trans | |].
    - intro s. reflexivity.
    - intros _. apply external_same_streams. }
  assert (Ha : preserves same_streams (_process_ai_decision_data data f)).
  { apply guarded_same_streams. apply preserves_bind; [exact same_streams_trans | |].
    - intro s. reflexivity.
    - intros _. apply external_same_streams. }
  assert (Ho : forall h, preserves same_streams (_process_other_data h f)).
  { intro h. apply guarded_same_streams, external_same_streams. }
  unfold dispatch.
  repeat match goal with
         | |- context [if ?b then _ else _] => destruct b
         end; auto.
  intro s. reflexivity.
Qed.

(** A guarded body whose exceptions are [Exception]s returns. *)
Lemma guarded_returns handler body s :
  match fst (body s) with
  | Return _ => True
  | Raise e => is_Exception e = true
  end ->
  fst (guarded handler body s) = Return tt.
Proof.
  unfold guarded, try_except. destruct (body s) as [[[] | e] s1]; simpl.
  - reflexivity.
  - intros ->. reflexivity.
Qed.

Lemma external_outcome f s :
  fst (external f s) = match f with None => Return tt | Some e => Raise e end.
Proof. destruct f; reflexivity. Qed.

Lemma dispatch_returns name data f s :
  (forall e, f = Some e -> is_Exception e = true) ->
  fst (dispatch name data f s) = Return tt.
Proof.
  intro Hf.
  assert (Hext : forall s0, match fst (external f s0) with
                            | Return _ => True
                            | Raise e => is_Exception e = true
                            end).
  { intro s0. rewrite external_outcome. destruct f as [e |]; [apply Hf; reflexivity | exact I]. }
  unfold dispatch, _process_other_data, _process_quantum_data, _process_ai_decision_data.
  repeat match goal with
         | |- context [if ?b then _ else _] => destruct b
         end;
    try reflexivity; apply guarded_returns; try apply Hext;
    unfold bind, modify, log; simpl; apply Hext.
Qed.

(** The handler logs the [Exception] that its external calls raise. *)
Lemma dispatch_logs name data e s :
  In name (keys initial_streams) ->
  is_Exception e = true ->
  exists handler,
    In (HandlerError handler e) (new_logs s (snd (dispatch name data (Some e) s))).
Proof.
  intros Hname He. unfold new_logs.
  simpl in Hname.
  destruct Hname as [<- | [<- | [<- | [<- | [<- | [<- | []]]]]]];
    unfold dispatch, _process_other_data, _process_quantum_data,
      _process_ai_decision_data, guarded, try_except, bind, modify, log, external, raise;
    simpl; rewrite He; simpl; eexists;
    match goal with
    | |- In _ (skipn (length ?l) (?l ++ ?l')) => rewrite (skipn_length_app l l')
    | |- In _ (skipn (length ?l) ((?l ++ ?l1) ++ ?l2)) =>
        rewrite <- (app_assoc l l1 l2), (skipn_length_app l (l1 ++ l2))
    end; simpl; eauto.
Qed.

(** One iteration, by cases on the queue. *)
Lemma stream_iteration_empty name env s :
  cancelled env = false ->
  items (the_queue name s) = [] ->
  stream_iteration name env s =
    (Return tt, with_streams (update name (fun _ => the_queue name s)) s).
Proof.
  intros Hc He. unfold stream_iteration, try_except, bind, wait_for_get.
  rewrite Hc. unfold try_except, on_queue, get_nowait. rewrite He. reflexivity.
Qed.

Lemma stream_iteration_item name env s x rest :
  cancelled env = false ->
  items (the_queue name s) = x :: rest ->
  (forall e, fault env = Some e -> is_Exception e = true) ->
  stream_iteration name env s =
    (Return tt,
     snd (dispatch name x (fault env)
            (with_streams
               (update name (fun _ => {| maxsize := maxsize (the_queue name s);
                                         items := rest |})) s))).
Proof.
  intros Hc He Hf. unfold stream_iteration, try_except, bind, wait_for_get.
  rewrite Hc. unfold try_except, on_queue, get_nowait. rewrite He.
  pose proof (dispatch_returns name x
                (with_streams
                   (update name (fun _ => {| maxsize := maxsize (the_queue name s);
                                             items := rest |})) s) Hf) as Hd.
  destruct (dispatch name x (fault env) _) as [[[] | e] s1]; simpl in *;
    [reflexivity | discriminate].
Qed.

Lemma stream_iteration_dequeues name env s :
  benign env ->
  items (the_queue name (snd (stream_iteration name env s))) =
    tl (items (the_queue name s)).
Proof.
  intros [Hc Hf]. destruct (items (the_queue name s)) as [| x rest] eqn:He.
  - rewrite (stream_iteration_empty name env s Hc He). cbn [snd tl].
    unfold the_queue at 1, with_streams; simpl. rewrite lookup_update_same.
    unfold the_queue in He |- *.
    destruct (lookup name (data_streams s)); simpl; [exact He | reflexivity].
  - rewrite (stream_iteration_item name env s Hc He Hf). cbn [snd tl].
    unfold the_queue at 1.
    rewrite (dispatch_same_streams name x (fault env) _).
    unfold with_streams; simpl. rewrite lookup_update_same.
    unfold the_queue in He.
    destruct (lookup name (data_streams s)); simpl; [reflexivity | discriminate].
Qed.

Lemma stream_iteration_returns name env s :
  benign env -> fst (stream_iteration name env s) = Return tt.
Proof.
  intros [Hc Hf]. destruct (items (the_queue name s)) as [| x rest] eqn:He.
  - rewrite (stream_iteration_empty name env s Hc He). reflexivity.
  - rewrite (stream_iteration_item name env s Hc He Hf). reflexivity.
Qed.

Lemma skipn_S_tl {A} n (l : list A) : skipn (S n) l = skipn n (tl l).
Proof. destruct l; simpl; [destruct n; reflexivity | reflexivity]. Qed.

Lemma process_data_stream_runs name envs s :
  Forall benign envs ->
  fst (_process_data_stream name envs s) = Return tt /\
  items (the_queue name (snd (_process_data_stream name envs s))) =
    skipn (length envs) (items (the_queue name s)).
Proof.
  intro Hall. revert s. induction Hall as [| env rest Henv _ IH]; intro s.
  - split; reflexivity.
  - unfold _process_data_stream in *. cbn [for_each length]. unfold bind.
    pose proof (stream_iteration_returns name s Henv) as Hr.
    pose proof (stream_iteration_dequeues name s Henv) as Hq.
    destruct (stream_iteration name env s) as [[[] | e] s1]; simpl in Hr, Hq;
      [| discriminate].
    destruct (IH s1) as [IH1 IH2]. split; [exact IH1 |].
    rewrite IH2, Hq, skipn_S_tl. reflexivity.
Qed.

(** The loop over the iterations [before ++ after] is the loop over
    [before] followed by the loop over [after]. *)
Lemma process_data_stream_app name before after s :
  Forall benign before ->
  _process_data_stream name (before ++ after) s =
  _process_data_stream name after (snd (_process_data_stream name before s)).
Proof.
  intro Hall. revert s. induction Hall as [| env rest Henv _ IH]; intro s.
  - reflexivity.
  - unfold _process_data_stream in *. cbn [for_each app]. unfold bind.
    pose proof (stream_iteration_returns name s Henv) as Hr.
    destruct (stream_iteration name env s) as [[[] | e] s1]; cbn [fst snd] in *;
      [| discriminate].
    apply IH.
Qed.

(** The handlers only add lines to the log. *)
Lemma dispatch_log_grows name data f s :
  exists l, logs (snd (dispatch name data f s)) = logs s ++ l.
Proof.
  unfold dispatch, _process_other_data, _process_quantum_data, _process_ai_decision_data,
    guarded, try_except, bind, log, external, raise, ret.
  unfold modify.
  repeat match goal with
         | |- context [if String.eqb ?a ?b then _ else _] => destruct (String.eqb a b)
         end;
    destruct f as [e |]; simpl; try (destruct (is_Exception e)); simpl;
    rewrite <- ?app_assoc; eexists; first [reflexivity | symmetry; apply app_nil_r].
Qed.

Lemma stream_iteration_log_grows name env s :
  benign env -> exists l, logs (snd (stream_iteration name env s)) = logs s ++ l.
Proof.
  intros [Hc Hf]. destruct (items (the_queue name s)) as [| x rest] eqn:He.
  - rewrite (stream_iteration_empty name env s Hc He). cbn [snd].
    exists []. rewrite app_nil_r. reflexivity.
  - rewrite (stream_iteration_item name env s Hc He Hf). cbn [snd].
    apply (dispatch_log_grows name x (fault env)
             (with_streams
                (update name (fun _ => {| maxsize := maxsize (the_queue name s);
                                          items := rest |})) s)).
Qed.

Lemma process_data_stream_log_grows name envs : forall s,
  Forall benign envs ->
  exists l, logs (snd (_process_data_stream name envs s)) = logs s ++ l.
Proof.
  induction envs as [| env rest IH]; intros s Hall.
  - exists []. rewrite app_nil_r. reflexivity.
  - inversion Hall as [| ? ? Henv Hrest]; subst.
    change (env :: rest) with ([env] ++ rest).
    rewrite process_data_stream_app by (constructor; [exact Henv | constructor]).
    destruct (IH (snd (_process_data_stream name [env] s)) Hrest) as [l2 H2].
    assert (H1 : exists l1, logs (snd (_process_data_stream name [env] s)) = logs s ++ l1).
    { pose proof (stream_iteration_returns name s Henv) as Hr.
      destruct (stream_iteration_log_grows name s Henv) as [l1 Hl1].
      exists l1. unfold _process_data_stream. cbn [for_each]. unfold bind.
      destruct (stream_iteration name env s) as [[[] | e] s1]; cbn [fst snd] in *;
        [exact Hl1 | discriminate]. }
    destruct H1 as [l1 H1]. exists (l1 ++ l2). rewrite H2, H1, app_assoc. reflexivity.
Qed.

Lemma new_logs_app s s' l : logs s' = logs s ++ l -> new_logs s s' = l.
Proof. intro H. unfold new_logs. rewrite H. apply skipn_length_app. Qed.

(** C9: along any run of timeouts and handler exceptions the loop of
    [_process_data_stream] is still running, and it has taken one event
    off the queue in every iteration that found one. In particular an
    iteration that times out returns without a log line, and an iteration
    whose handler raises returns with the exception logged. The same holds
    at every iteration [env] of the loop, whatever happened in the
    iterations [before] it: the loop reaches the iteration, the iteration
    returns, and the loop goes on with the iterations [after] it from the
    state that the iteration leaves. If the iteration finds the queue empty
    it adds no line to the log; if it finds an event it takes the event off
    the queue and leaves the state that the handler of the stream leaves
    for this event, and an exception that the handler's external calls
    raise is a line of the log, then and when the loop has run through. *)
Theorem C9_stream_processor_keeps_running
    (name : string) (envs : list iteration_env) (s : system) :
  Forall benign envs ->
  fst (_process_data_stream name envs s) = Return tt /\
  items (the_queue name (snd (_process_data_stream name envs s))) =
    skipn (length envs) (items (the_queue name s)) /\
  (forall env,
      benign env -> items (the_queue name s) = [] ->
      fst (stream_iteration name env s) = Return tt /\
      logs (snd (stream_iteration name env s)) = logs s) /\
  (forall env e x rest,
      benign env -> fault env = Some e ->
      items (the_queue name s) = x :: rest ->
      In name (keys initial_streams) ->
      fst (stream_iteration name env s) = Return tt /\
      exists handler,
        In (HandlerError handler e) (new_logs s (snd (stream_iteration name env s)))) /\
  (forall before env after,
      envs = before ++ env :: after ->
      let s1 := snd (_process_data_stream name before s) in
      let s2 := snd (stream_iteration name env s1) in
      fst (_process_data_stream name before s) = Return tt /\
      fst (stream_iteration name env s1) = Return tt /\
      snd (_process_data_stream name (before ++ [env]) s) = s2 /\
      _process_data_stream name envs s = _process_data_stream name after s2 /\
      (items (the_queue name s1) = [] ->
       logs s2 = logs s1 /\ items (the_queue name s2) = []) /\
      (forall x rest,
          items (the_queue name s1) = x :: rest ->
          items (the_queue name s2) = rest /\
          s2 = snd (dispatch name x (fault env)
                      (with_streams
                         (update name
                            (fun _ => {| maxsize := maxsize (the_queue name s1);
                                         items := rest |})) s1)) /\
          (forall e,
              fault env = Some e -> In name (keys initial_streams) ->
              exists handler,
                In (HandlerError handler e) (new_logs s1 s2) /\
                In (HandlerError handler e)
                   (new_logs s (snd (_process_data_stream name envs s)))))).
Proof.
  intro Hall. destruct (process_data_stream_runs name s Hall) as [Hrun Hq].
  split; [exact Hrun | split; [exact Hq | split; [| split]]].
  - intros env [Hc Hf] He.
    rewrite (stream_iteration_empty name env s Hc He). split; reflexivity.
  - intros env e x rest [Hc Hf] Hfault He Hname.
    rewrite (stream_iteration_item name env s Hc He Hf). split; [reflexivity |].
    cbn [snd]. rewrite Hfault.
    destruct (@dispatch_logs name x e
                (with_streams
                   (update name (fun _ => {| maxsize := maxsize (the_queue name s);
                                             items := rest |})) s)
                Hname (Hf e Hfault)) as (h & Hh).
    exists h. exact Hh.
  - intros before env after Henvs s1 s2. subst envs.
    apply Forall_app in Hall. destruct Hall as [Hbefore Hrest].
    inversion Hrest as [| ? ? Henv Hafter]; subst.
    destruct (process_data_stream_runs name s Hbefore) as [Hrun1 _].
    pose proof (stream_iteration_returns name s1 Henv) as Hret.
    assert (Hone : _process_data_stream name [env] s1 = (Return tt, s2)).
    { unfold _process_data_stream, s2. cbn [for_each]. unfold bind.
      destruct (stream_iteration name env s1) as [[[] | e] s3]; cbn [fst snd] in *;
        [reflexivity | discriminate]. }
    assert (Hsnoc : snd (_process_data_stream name (before ++ [env]) s) = s2).
    { rewrite process_data_stream_app by exact Hbefore. fold s1. rewrite Hone. reflexivity. }
    assert (Hgoes : _process_data_stream name (before ++ env :: after) s =
                    _process_data_stream name after s2).
    { change (env :: after) with ([env] ++ after). rewrite app_assoc.
      rewrite process_data_stream_app
        by (apply Forall_app; split; [exact Hbefore | constructor; [exact Henv | constructor]]).
      rewrite Hsnoc. reflexivity. }
    split; [exact Hrun1 |]. split; [exact Hret |]. split; [exact Hsnoc |].
    split; [exact Hgoes |]. split.
    + intro He. destruct Henv as [Hc Hf].
      pose proof (stream_iteration_dequeues name s1 (conj Hc Hf)) as Hd.
      fold s2 in Hd. rewrite He in Hd. split; [| exact Hd].
      unfold s2. rewrite (stream_iteration_empty name env s1 Hc He). reflexivity.
    + intros x rest He. destruct Henv as [Hc Hf].
      pose proof (stream_iteration_dequeues name s1 (conj Hc Hf)) as Hd.
      fold s2 in Hd. rewrite He in Hd. split; [exact Hd |].
      assert (Hs2 : s2 = snd (dispatch name x (fault env)
                                (with_streams
                                   (update name
                                      (fun _ => {| maxsize := maxsize (the_queue name s1);
                                                   items := rest |})) s1))).
      { unfold s2. rewrite (stream_iteration_item name env s1 Hc He Hf). reflexivity. }
      split; [exact Hs2 |].
      intros e Hfault Hname.
      destruct (@dispatch_logs name x e
                  (with_streams
                     (update name (fun _ => {| maxsize := maxsize (the_queue name s1);
                                               items := rest |})) s1)
                  Hname (Hf e Hfault)) as (h & Hh).
      exists h. rewrite Hfault in Hs2. rewrite <- Hs2 in Hh.
      assert (Hsame : logs (with_streams
                              (update name
                                 (fun _ => {| maxsize := maxsize (the_queue name s1);
                                              items := rest |})) s1) = logs s1)
        by reflexivity.
      assert (Hh1 : In (HandlerError h e) (new_logs s1 s2)).
      { unfold new_logs in *. rewrite Hsame in Hh. exact Hh. }
      split; [exact Hh1 |].
      destruct (process_data_stream_log_grows name s Hbefore) as [l1 Hl1]. fold s1 in Hl1.
      destruct (stream_iteration_log_grows name s1 (conj Hc Hf)) as [l2 Hl2]. fold s2 in Hl2.
      destruct (process_data_stream_log_grows name s2 Hafter) as [l3 Hl3].
      rewrite (@new_logs_app s1 s2 l2 Hl2) in Hh1.
      rewrite Hgoes.
      rewrite (@new_logs_app s (snd (_process_data_stream name after s2)) (l1 ++ l2 ++ l3))
        by (rewrite Hl3, Hl2, Hl1, <- !app_assoc; reflexivity).
      apply in_or_app. right. apply in_or_app. left. exact Hh1.
Qed.

End Streams.

(** * Further properties of the code *)

(** ** Tasks one after the other *)

Section Sequential.
Context {R : Rounding}.
Local Open Scope nat_scope.

Lemma update_absent {V} (k : string) (f : V -> V) (d : dict V) :
  ~ In k (keys d) -> update k f d = d.
Proof.
  intro H. unfold update. apply map_fixed. intros [k' v] Hin. simpl.
  destruct (String.eqb_spec k' k) as [-> | _]; [| reflexivity].
  exfalso. apply H. unfold keys.
  change k with (fst (k, v)). apply in_map. exact Hin.
Qed.

Lemma update_first {V} (k : string) (f : V -> V) (v : V) (d : dict V) :
  ~ In k (keys d) -> update k f ((k, v) :: d) = (k, f v) :: d.
Proof.
  intro H. unfold update at 1. cbn [map fst snd]. rewrite String.eqb_refl.
  fold (update k f d). rewrite update_absent by exact H. reflexivity.
Qed.

Lemma task_work_done_state id t task_type u s :
  snd (task_work id t task_type (WorkDone u) s) =
    {| quantum_processors :=
         update id (fun p => with_coherence (fmul (coherence (state p)) decay) p)
           (quantum_processors s);
       data_streams := data_streams s;
       ai_models := ai_models s;
       performance_metrics := performance_metrics s;
       logs := logs s ++ [QuantumTaskCompleted t] |}.
Proof. reflexivity. Qed.

(** One task on a pool whose first unit is idle. *)
Lemma execute_on_idle_first_unit now task_type u s id p rest :
  quantum_processors s = (id, p) :: rest ->
  current_tasks p = [] -> id <> ""%string -> ~ In id (keys rest) ->
  let s' := snd (execute_quantum_task now task_type (WorkDone u) s) in
  (exists r, fst (execute_quantum_task now task_type (WorkDone u) s) = Return r) /\
  quantum_processors s' = (id, with_coherence (fmul (coherence (state p)) decay) p) :: rest /\
  logs s' = logs s ++ [QuantumTaskCompleted now] /\
  data_streams s' = data_streams s /\
  ai_models s' = ai_models s /\
  performance_metrics s' = performance_metrics s.
Proof.
  intros Hp Ht Hid Hrest s'. unfold s'.
  assert (Hf : find_available (quantum_processors s) = Some id).
  { rewrite Hp. cbn [find_available]. rewrite Ht. reflexivity. }
  rewrite execute_quantum_task_split. unfold bind.
  rewrite (submit_admits _ _ Hf Hid). cbn [fst snd].
  split; [rewrite resume_outcome, task_work_outcome; eexists; reflexivity |].
  rewrite resume_state, task_work_done_state, release_state. cbn [snd].
  unfold active_tasks, the_processor, with_processors.
  cbn [quantum_processors data_streams ai_models performance_metrics logs].
  rewrite Hp, !update_first by exact Hrest. cbn [lookup]. rewrite String.eqb_refl.
  cbn [with_coherence with_tasks current_tasks]. rewrite Ht. cbn [app contains existsb].
  rewrite Z.eqb_refl. cbn [orb quantum_processors data_streams ai_models
                          performance_metrics logs].
  cbn [remove_first]. rewrite Z.eqb_refl. unfold with_coherence, with_tasks.
  cbn [state coherence current_tasks]. rewrite Ht.
  repeat split; reflexivity.
Qed.

Lemma run_tasks_on_idle_first_unit task_type jobs : forall s id p rest,
  quantum_processors s = (id, p) :: rest ->
  current_tasks p = [] -> id <> ""%string -> ~ In id (keys rest) ->
  let s' := run_tasks task_type jobs s in
  quantum_processors s' =
    (id, with_coherence (decayed (length jobs) (coherence (state p))) p) :: rest /\
  logs s' = logs s ++ map (fun j => QuantumTaskCompleted (fst j)) jobs /\
  data_streams s' = data_streams s.
Proof.
  induction jobs as [| [now u] jobs IH]; intros s id p rest Hp Ht Hid Hrest; cbn zeta.
  - cbn [run_tasks length decayed map]. rewrite app_nil_r, Hp.
    destruct p as [[c] ts]. cbn in *. subst ts. repeat split; reflexivity.
  - cbn [run_tasks length decayed map].
    destruct (execute_on_idle_first_unit now task_type u s Hp Ht Hid Hrest)
      as ((r & Hr) & Hp1 & Hl1 & Hd1 & _).
    destruct (execute_quantum_task now task_type (WorkDone u) s) as [o s1].
    cbn [fst snd] in *. subst o.
    destruct (IH _ _ _ _ Hp1 Ht Hid Hrest) as (Hp2 & Hl2 & Hd2).
    rewrite Hp2, Hl2, Hl1, Hd2, Hd1, <- app_assoc. repeat split; reflexivity.
Qed.

Lemma decayed_exact n c :
  (forall x, rnd x == x)%Q -> (decayed n c == c * (99 # 100) ^ Z.of_nat n)%Q.
Proof.
  intro Hex. revert c. induction n as [| n IH]; intro c.
  - simpl. ring.
  - cbn [decayed]. rewrite IH. unfold fmul, decay, lit. rewrite !Hex.
    rewrite Nat2Z.inj_succ, <- Z.add_1_r, Qpower_plus by discriminate.
    simpl. ring.
Qed.

Lemma decayed_le n c :
  (0 <= c)%Q -> (c <= 1)%Q -> (0 <= decayed n c)%Q /\ (decayed n c <= 1)%Q.
Proof.
  revert c. induction n as [| n IH]; intros c H0 H1; cbn [decayed]; [split; assumption |].
  destruct (fmul_decay_unit (conj H0 H1)) as [H0' H1']. apply IH; assumption.
Qed.

(** X1: a task that runs from call to return with nothing in between
    leaves in every unit the active tasks it found there, whether its work
    returns or raises, and also when it is rejected: no slot stays taken. *)
Theorem X1_uninterrupted_task_restores_the_task_lists
    (ls : list label) (now : timestamp) (task_type : string) (w : work) :
  let s := sys (run ls initial_config) in
  let s' := snd (execute_quantum_task now task_type w s) in
  forall id t,
    count_occ Z.eq_dec (active_tasks id s') t = count_occ Z.eq_dec (active_tasks id s) t.
Proof.
  intros s s' id t. unfold s'. rewrite execute_quantum_task_split. unfold bind.
  destruct (pool_invariant_run ls) as (Hk & _ & _). fold s in Hk.
  destruct (find_available (quantum_processors s)) as [id0 |] eqn:Hf.
  - destruct (String.eqb_spec id0 "") as [-> | Hid].
    + rewrite submit_rejects by (rewrite Hf; reflexivity). reflexivity.
    + rewrite (submit_admits _ _ Hf Hid). cbn [fst snd].
      assert (Hnd : NoDup (keys (quantum_processors s))).
      { rewrite keys_task_view in Hk. rewrite Hk. exact initial_keys_NoDup. }
      destruct (find_available_lookup _ Hnd Hf) as (p & Hp & _).
      set (s1 := with_processors
                   (update id0 (fun p0 => with_tasks (current_tasks p0 ++ [now]) p0)) s).
      assert (Hv1 : task_view s1 =
                    update id0 (fun ts : list task_id => ts ++ [now]) (task_view s)).
      { unfold s1. apply task_view_update. intro p0. reflexivity. }
      assert (Hl : lookup id0 (task_view s) = Some (current_tasks p))
        by (rewrite lookup_task_view, Hp; reflexivity).
      assert (Hin : contains now (active_tasks id0 s1) = true).
      { rewrite active_tasks_view, Hv1. unfold tasks_at.
        rewrite lookup_update_same, Hl. cbn [option_map].
        unfold contains. rewrite existsb_app. cbn [existsb].
        rewrite Z.eqb_refl. apply orb_true_r. }
      rewrite !active_tasks_view, resume_task_view, Hin, Hv1.
      destruct (String.eqb_spec id0 id) as [<- | Hne].
      * rewrite tasks_at_update_same by reflexivity.
        unfold tasks_at. rewrite lookup_update_same, Hl. cbn [option_map].
        rewrite count_occ_remove_first, count_occ_app. cbn [count_occ].
        destruct (Z.eq_dec now t) as [E | E].
        -- subst t. rewrite Z.eqb_refl. unfold task_id, timestamp in *. lia.
        -- pose proof E as E'. apply Z.eqb_neq in E'. rewrite E'.
           unfold task_id, timestamp in *. lia.
      * rewrite !tasks_at_update_other by congruence. reflexivity.
  - rewrite submit_rejects by (rewrite Hf; reflexivity). reflexivity.
Qed.

(** X2: tasks run one after the other on a pool whose first unit is idle
    all go to that unit. After [n] of them its quality has decayed [n]
    times, which in exact arithmetic is the quality times 0.99 to the [n];
    it is idle again, the other units are as they were, and the log has one
    completion line per task, in order. *)
Theorem X2_sequential_tasks_wear_the_first_unit
    (task_type : string) (jobs : list (timestamp * Q)) (s : system)
    (id : string) (p : processor) (rest : dict processor) :
  quantum_processors s = (id, p) :: rest ->
  current_tasks p = [] -> id <> ""%string -> ~ In id (keys rest) ->
  let s' := run_tasks task_type jobs s in
  quantum_processors s' =
    (id, with_coherence (decayed (length jobs) (coherence (state p))) p) :: rest /\
  logs s' = logs s ++ map (fun j => QuantumTaskCompleted (fst j)) jobs /\
  ((forall x, rnd x == x)%Q ->
   (decayed (length jobs) (coherence (state p))
    == coherence (state p) * (99 # 100) ^ Z.of_nat (length jobs))%Q).
Proof.
  intros Hp Ht Hid Hrest s'.
  destruct (run_tasks_on_idle_first_unit task_type jobs s Hp Ht Hid Hrest)
    as (H1 & H2 & _).
  split; [exact H1 | split; [exact H2 |]].
  intro Hex. apply decayed_exact. exact Hex.
Qed.

End Sequential.

(** ** The streams *)

Section StreamsMore.
Context {R : Rounding}.
Local Open Scope nat_scope.

Lemma initial_stream_keys_NoDup : NoDup (keys initial_streams).
Proof.
  unfold initial_streams, keys; simpl.
  repeat constructor; simpl; intuition discriminate.
Qed.

Lemma lookup_map_values {V} (g : string -> V -> V) (k : string) (d : dict V) :
  lookup k (map (fun kv => (fst kv, g (fst kv) (snd kv))) d) = option_map (g k) (lookup k d).
Proof.
  induction d as [| [k' v] rest IH]; simpl; [reflexivity |].
  destruct (String.eqb_spec k' k) as [-> | _]; [reflexivity | exact IH].
Qed.

(** *** Every transition keeps the streams within their capacity *)

Lemma the_queue_ok name s :
  streams_bounded s ->
  lookup name (data_streams s) = None \/ stream_ok (name, the_queue name s).
Proof.
  intros [_ Hall]. unfold the_queue.
  destruct (lookup name (data_streams s)) as [q |] eqn:E; [right | left; reflexivity].
  apply lookup_In in E. rewrite Forall_forall in Hall. exact (Hall _ E).
Qed.

(** A queue operation that keeps the capacity and stays within it keeps
    the streams bounded. *)
Lemma on_queue_bounded {A} name (m : M queue A) :
  (forall q, 0 < maxsize q -> qsize q <= maxsize q ->
             maxsize (snd (m q)) = maxsize q /\ qsize (snd (m q)) <= maxsize q) ->
  hoare streams_bounded (on_queue name m) (fun _ => streams_bounded).
Proof.
  intros Hm s Hs. unfold on_queue.
  destruct (the_queue_ok name Hs) as [Hnone | Hok].
  - destruct (m (the_queue name s)) as [r q']. cbn [snd].
    unfold streams_bounded, with_streams. cbn [data_streams].
    rewrite update_absent; [exact Hs |].
    intro Hin. unfold keys in Hin. apply in_map_iff in Hin.
    destruct Hin as ([k v] & Hk & Hin). simpl in Hk. subst k.
    destruct Hs as [Hkeys _].
    assert (Hnd : NoDup (keys (data_streams s)))
      by (rewrite Hkeys; exact initial_stream_keys_NoDup).
    rewrite (In_lookup _ _ _ Hnd Hin) in Hnone. discriminate.
  - unfold stream_ok in Hok. cbn [fst snd] in Hok.
    destruct (lookup name initial_streams) as [q0 |] eqn:E0; [| contradiction].
    destruct Hok as (Hmax & Hpos & Hle).
    specialize (Hm (the_queue name s) Hpos Hle).
    destruct (m (the_queue name s)) as [r q']. cbn [snd] in *.
    destruct Hm as [Hm1 Hm2]. destruct Hs as [Hkeys Hall].
    split; unfold with_streams; cbn [data_streams].
    + rewrite keys_update. exact Hkeys.
    + apply Forall_update; [exact Hall |]. intros q _ _.
      unfold stream_ok. cbn [fst snd]. rewrite E0.
      repeat split; lia.
Qed.

Lemma get_nowait_shrinks q :
  maxsize (snd (get_nowait q)) = maxsize q /\ qsize (snd (get_nowait q)) <= qsize q.
Proof.
  unfold get_nowait, qsize. destruct (items q) as [| x rest] eqn:E; cbn [snd maxsize items].
  - rewrite E. split; [reflexivity | lia].
  - split; [reflexivity | simpl; lia].
Qed.

Lemma put_nowait_within x q :
  0 < maxsize q -> qsize q <= maxsize q ->
  maxsize (snd (put_nowait x q)) = maxsize q /\ qsize (snd (put_nowait x q)) <= maxsize q.
Proof.
  intros Hpos Hle. unfold put_nowait.
  destruct (Nat.ltb_spec 0 (maxsize q)); [| lia].
  destruct (Nat.leb_spec (maxsize q) (qsize q)); cbn [andb snd maxsize].
  - split; [reflexivity | exact Hle].
  - split; [reflexivity |]. unfold qsize in *. cbn [items]. rewrite length_app. simpl. lia.
Qed.

Lemma same_streams_bounded {A} (m : M system A) :
  preserves same_streams m -> hoare streams_bounded m (fun _ => streams_bounded).
Proof.
  intros Hm s Hs. specialize (Hm s). unfold same_streams in Hm.
  unfold streams_bounded in *. rewrite Hm. exact Hs.
Qed.

Lemma submit_same_streams now : preserves same_streams (submit now).
Proof.
  intro s. unfold submit, bind, get.
  destruct (negb (truthy (find_available (quantum_processors s)))); reflexivity.
Qed.

Lemma resume_same_streams id t task_type w : preserves same_streams (resume id t task_type w).
Proof.
  intro s. rewrite resume_state, release_state. cbn [snd].
  destruct w as [u | e];
    destruct (contains t (active_tasks id _)); reflexivity.
Qed.

Lemma stream_iteration_bounded name env :
  hoare streams_bounded (stream_iteration name env) (fun _ => streams_bounded).
Proof.
  unfold stream_iteration. apply hoare_handle.
  - apply hoare_seq.
    + unfold wait_for_get. destruct (cancelled env); [apply hoare_raise |].
      apply hoare_handle.
      * apply on_queue_bounded. intros q _ Hle.
        destruct (get_nowait_shrinks q) as [H1 H2]. split; [exact H1 | lia].
      * intro e. destruct e; apply hoare_raise.
    + intro data. apply same_streams_bounded. apply dispatch_same_streams.
  - intro e. destruct (is_TimeoutError e); [apply hoare_ret |].
    destruct (is_Exception e); [| apply hoare_raise].
    apply hoare_modify. intros s Hs. exact Hs.
Qed.

Lemma clear_overloaded_ok name q :
  stream_ok (name, q) -> stream_ok (name, fst (snd (clear_overloaded name q))).
Proof.
  unfold stream_ok. cbn [fst snd]. destruct (lookup name initial_streams); [| tauto].
  intros (H1 & H2 & H3). rewrite clear_overloaded_spec.
  destruct (overload_threshold <? qsize q); cbn [fst snd maxsize]; [| tauto].
  repeat split; try assumption. unfold qsize in *. cbn [items].
  rewrite length_skipn. lia.
Qed.

Lemma optimization_tick_bounded :
  hoare streams_bounded optimization_tick (fun _ => streams_bounded).
Proof.
  intros s [Hkeys Hall]. rewrite optimization_tick_spec.
  destruct (_needs_optimization s); [| split; assumption].
  rewrite perform_spec. cbn [snd]. split; cbn [data_streams].
  - rewrite <- Hkeys. unfold cleared, keys. rewrite map_map. reflexivity.
  - unfold cleared. apply Forall_map. eapply Forall_impl; [| exact Hall].
    intros [k q] Hok. cbn [fst snd]. apply clear_overloaded_ok. exact Hok.
Qed.

Lemma fire_bounded lb c : streams_bounded (sys c) -> streams_bounded (sys (fire lb c)).
Proof.
  intro Hc. destruct lb as [now ty | n w | name data | name env | env |]; simpl.
  - pose proof (same_streams_bounded (submit_same_streams now)) as H.
    specialize (H (sys c) Hc).
    destruct (submit now (sys c)) as [[[id t] | e] s']; exact H.
  - destruct (nth_error (suspended c) n) as [k |]; [| exact Hc].
    pose proof (same_streams_bounded
                  (resume_same_streams (c_processor k) (c_task k) (c_type k) w)) as H.
    exact (H (sys c) Hc).
  - pose proof (@on_queue_bounded _ name (put_nowait data) (put_nowait_within data)) as H.
    exact (H (sys c) Hc).
  - pose proof (stream_iteration_bounded name env) as H. exact (H (sys c) Hc).
  - exact Hc.
  - pose proof optimization_tick_bounded as H. exact (H (sys c) Hc).
Qed.

Lemma run_bounded ls : streams_bounded (sys (run ls initial_config)).
Proof.
  induction ls as [| lb ls IH] using rev_ind.
  - split; [reflexivity |]. repeat constructor; unfold stream_ok, qsize; simpl; lia.
  - rewrite run_snoc. apply fire_bounded. exact IH.
Qed.

(** X3: in every reachable state the six streams are there under their
    names with the capacities they were created with, and none holds more
    events than its capacity. *)
Theorem X3_streams_stay_within_capacity (ls : list label) :
  let d := data_streams (sys (run ls initial_config)) in
  map (fun kv => (fst kv, maxsize (snd kv))) d =
    [ ("surveillance_stream", 1000); ("operations_stream", 1000);
      ("analytics_stream", 1000); ("security_stream", 1000);
      ("quantum_stream", 500); ("ai_decision_stream", 500) ]%string /\
  Forall (fun kv => qsize (snd kv) <= maxsize (snd kv)) d.
Proof.
  intro d. destruct (run_bounded ls) as [Hkeys Hall]. fold d in Hkeys, Hall. split.
  - assert (H : forall l : dict queue,
               Forall stream_ok l ->
               map (fun kv => (fst kv, maxsize (snd kv))) l =
               map (fun k => (k, match lookup k initial_streams with
                                 | Some q0 => maxsize q0
                                 | None => 0
                                 end)) (keys l)).
    { intros l Hl. unfold keys.
      induction Hl as [| [k q] rest Hk _ IH]; [reflexivity |].
      cbn [map fst snd]. rewrite IH. unfold stream_ok in Hk. cbn [fst snd] in Hk.
      destruct (lookup k initial_streams); [| contradiction].
      destruct Hk as (-> & _). reflexivity. }
    rewrite (H d Hall), Hkeys. reflexivity.
  - eapply Forall_impl; [| exact Hall]. intros [k q] Hok.
    unfold stream_ok in Hok. cbn [fst snd] in *.
    destruct (lookup k initial_streams); [tauto | contradiction].
Qed.


Lemma clearing_log_source streams name :
  In (ClearedStream name) (clearing_log streams) ->
  exists q, In (name, q) streams /\ overload_threshold < qsize q.
Proof.
  unfold clearing_log. rewrite in_flat_map. intros ([k q] & Hin & Hline).
  cbn [fst snd] in Hline. rewrite clear_overloaded_spec in Hline.
  destruct (Nat.ltb_spec overload_threshold (qsize q)) as [Hlt | _];
    cbn [snd] in Hline; [| contradiction].
  destruct Hline as [[= ->] | []]. exists q. split; assumption.
Qed.

(** X4: the streams of capacity 500 are never shed. In every reachable
    state a tick of the optimizer leaves [quantum_stream] and
    [ai_decision_stream] as they are and logs no clearing of them: their
    depth cannot exceed 500, and the optimizer sheds above 800. *)
Theorem X4_small_streams_are_never_shed (ls : list label) (name : string) :
  name = "quantum_stream"%string \/ name = "ai_decision_stream"%string ->
  let s := sys (run ls initial_config) in
  let s' := snd (optimization_tick s) in
  the_queue name s' = the_queue name s /\
  ~ In (ClearedStream name) (new_logs s s').
Proof.
  intros Hname s s'. destruct (run_bounded ls) as [Hkeys Hall]. fold s in Hkeys, Hall.
  assert (Hsmall : forall q, In (name, q) (data_streams s) -> qsize q <= 500).
  { intros q Hin. rewrite Forall_forall in Hall. specialize (Hall _ Hin).
    unfold stream_ok in Hall. cbn [fst snd] in Hall.
    destruct Hname as [-> | ->]; cbn in Hall; lia. }
  unfold s'. rewrite optimization_tick_spec.
  destruct (_needs_optimization s).
  - rewrite perform_spec. cbn [snd]. split.
    + unfold the_queue. cbn [data_streams]. unfold cleared.
      rewrite (lookup_map_values (fun k q => fst (snd (clear_overloaded k q)))).
      destruct (lookup name (data_streams s)) as [q |] eqn:E; [| reflexivity].
      cbn [option_map]. rewrite clear_overloaded_calm; [reflexivity |].
      pose proof (Hsmall q (lookup_In _ _ E)). unfold overload_threshold. lia.
    + unfold new_logs. cbn [logs]. rewrite skipn_length_app. intro Hin.
      assert (Hc : In (ClearedStream name) (clearing_log (data_streams s))).
      { cbn [app] in Hin. destruct Hin as [Hin | Hin]; [discriminate |].
        apply in_app_or in Hin. destruct Hin as [Hin | Hin].
        - unfold recalibration_log in Hin. apply in_flat_map in Hin.
          destruct Hin as ([k p] & _ & Hin). cbn [fst snd] in Hin.
          unfold recalibrate in Hin.
          destruct (Qlt_le_dec (coherence (state p)) coherence_threshold);
            cbn [snd] in Hin; [destruct Hin as [Hin | []]; discriminate | destruct Hin].
        - apply in_app_or in Hin. destruct Hin as [Hin | Hin].
          + unfold model_log in Hin. apply in_flat_map in Hin.
            destruct Hin as (m & _ & Hin).
            destruct (String.eqb m "language_processor");
              [destruct Hin | destruct Hin as [Hin | []]; discriminate].
          + apply in_app_or in Hin. destruct Hin as [Hin | Hin]; [exact Hin |].
            destruct Hin as [Hin | []]. discriminate. }
      destruct (clearing_log_source _ _ Hc) as (q & Hq & Hlt).
      pose proof (Hsmall q Hq). unfold overload_threshold in Hlt. lia.
  - cbn [snd]. split; [reflexivity |].
    unfold new_logs. rewrite skipn_all. intros [].
Qed.

(** *** The audit trail of the AI decisions *)

Lemma ai_decisions_app l l' : ai_decisions (l ++ l') = ai_decisions l ++ ai_decisions l'.
Proof. unfold ai_decisions. apply flat_map_app. Qed.

Lemma dispatch_ai_decision_logs data f s :
  (forall e, f = Some e -> is_Exception e = true) ->
  ai_decisions (logs (snd (dispatch "ai_decision_stream" data f s))) =
  ai_decisions (logs s) ++ [data].
Proof.
  intro Hf. cbn [dispatch String.eqb Ascii.eqb Bool.eqb].
  unfold _process_ai_decision_data, guarded, try_except, bind, log, modify, external.
  destruct f as [e |]; cbn [fst snd raise ret logs].
  - rewrite (Hf e eq_refl). cbn [snd logs].
    rewrite !ai_decisions_app. cbn. rewrite app_nil_r. reflexivity.
  - rewrite ai_decisions_app. reflexivity.
Qed.

(** X5: every event the processor of [ai_decision_stream] takes off its
    queue is written to the audit log before it is published, so the log
    holds the decisions in the order of the queue also when the
    publication fails. *)
Theorem X5_ai_decisions_are_logged_in_order (envs : list iteration_env) (s : system) :
  Forall benign envs ->
  ai_decisions (logs (snd (_process_data_stream "ai_decision_stream" envs s))) =
  ai_decisions (logs s) ++
  firstn (length envs) (items (the_queue "ai_decision_stream" s)).
Proof.
  intro Hall. revert s. induction Hall as [| env rest Henv _ IH]; intro s.
  - cbn. rewrite app_nil_r. reflexivity.
  - unfold _process_data_stream in *. cbn [for_each length]. unfold bind.
    pose proof (stream_iteration_returns "ai_decision_stream" s Henv) as Hr.
    pose proof (stream_iteration_dequeues "ai_decision_stream" s Henv) as Hq.
    destruct Henv as [Hc Hf].
    destruct (items (the_queue "ai_decision_stream" s)) as [| x xs] eqn:He.
    + rewrite (stream_iteration_empty "ai_decision_stream" env s Hc He) in *.
      cbn [fst snd] in *. rewrite IH, Hq. cbn [tl firstn].
      destruct (length rest); reflexivity.
    + rewrite (stream_iteration_item "ai_decision_stream" env s Hc He Hf) in *.
      cbn [fst snd] in *. rewrite IH, Hq. cbn [tl firstn].
      rewrite (dispatch_ai_decision_logs x _ Hf). cbn [logs with_streams].
      rewrite <- app_assoc. reflexivity.
Qed.

(** *** Coherence reports *)

(** X6: when the processor of [quantum_stream] handles an event, every
    unit named in the event with a coherence takes that coherence, every
    other unit keeps its own, no task list changes and the event is off the
    queue; this also holds when the publication that follows raises. *)
Theorem X6_coherence_report_is_applied
    (env : iteration_env) (s : system) (data : event) (rest : list event) :
  benign env ->
  items (the_queue "quantum_stream" s) = data :: rest ->
  let s' := snd (stream_iteration "quantum_stream" env s) in
  Forall2 (coherence_report_rule data) (quantum_processors s) (quantum_processors s') /\
  items (the_queue "quantum_stream" s') = rest.
Proof.
  intros Henv He s'. split.
  - destruct Henv as [Hc Hf]. unfold s'.
    rewrite (stream_iteration_item "quantum_stream" env s Hc He Hf). cbn [snd].
    cbn [dispatch String.eqb Ascii.eqb Bool.eqb].
    unfold _process_quantum_data, guarded, try_except, bind, modify, external.
    assert (Hrule : Forall2 (coherence_report_rule data) (quantum_processors s)
                      (map (update_coherence data) (quantum_processors s))).
    { apply Forall2_map_self. intros [k p] _. unfold coherence_report_rule, update_coherence.
      cbn [fst snd]. destruct (lookup k data) as [[c |] |]; cbn [fst snd];
        repeat split; reflexivity. }
    destruct (fault env) as [e |]; cbn [fst snd raise ret].
    + rewrite (Hf e eq_refl). exact Hrule.
    + exact Hrule.
  - unfold s'. rewrite (stream_iteration_dequeues "quantum_stream" s Henv), He.
    reflexivity.
Qed.

(** *** What leaves the loop *)

Lemma stream_iteration_escape name env s e :
  fst (stream_iteration name env s) = Raise e -> is_Exception e = false.
Proof.
  unfold stream_iteration, try_except.
  destruct (bind (wait_for_get name (cancelled env))
              (fun data => dispatch name data (fault env)) s) as [[[] | e0] s1];
    cbn [fst]; [discriminate |].
  destruct (is_TimeoutError e0); [discriminate |].
  destruct (is_Exception e0) eqn:E; [discriminate |].
  intros [= <-]. exact E.
Qed.

(** X7: no [Exception] ever leaves [_process_data_stream]: whatever the
    environment does, an exception that ends the loop is not an instance of
    [Exception] (it is the cancellation of the task). *)
Theorem X7_no_Exception_leaves_the_stream_processor
    (name : string) (envs : list iteration_env) (s : system) (e : exn) :
  fst (_process_data_stream name envs s) = Raise e -> is_Exception e = false.
Proof.
  unfold _process_data_stream. revert s.
  induction envs as [| env rest IH]; intro s; cbn [for_each].
  - discriminate.
  - unfold bind. pose proof (stream_iteration_escape name env s) as Hesc.
    destruct (stream_iteration name env s) as [[[] | e0] s1]; cbn [fst] in *.
    + apply IH.
    + intros [= <-]. apply Hesc. reflexivity.
Qed.

End StreamsMore.

(** ** The monitor, the report and the optimizer *)

Section MonitorMore.
Context {R : Rounding}.
Local Open Scope Q_scope.

Lemma of_int_nonneg n : 0 <= of_int n.
Proof. unfold of_int. change 0 with (inject_Z 0). rewrite <- Zle_Qle. lia. Qed.

Lemma of_int_le n m : (n <= m)%nat -> of_int n <= of_int m.
Proof. intro H. unfold of_int. rewrite <- Zle_Qle. lia. Qed.

Lemma of_int_pos n : (1 <= n)%nat -> 0 < of_int n.
Proof. intro H. unfold of_int. change 0 with (inject_Z 0). rewrite <- Zlt_Qlt. lia. Qed.

Lemma of_int_succ n : of_int (S n) == of_int n + 1.
Proof.
  unfold of_int. rewrite Nat2Z.inj_succ, <- Z.add_1_r, inject_Z_plus. reflexivity.
Qed.

(** A ratio of a part to a whole is between 0 and 1. *)
Lemma ratio_unit (x y : Q) : 0 <= x -> x <= y -> 0 < y -> in_unit_interval (x / y).
Proof.
  intros Hx Hxy Hy. split.
  - apply Qle_shift_div_l; [exact Hy |]. lra.
  - apply Qle_shift_div_r; [exact Hy |]. lra.
Qed.

Lemma fdiv_ratio_unit n m : (n <= m)%nat -> (1 <= m)%nat ->
  in_unit_interval (fdiv (of_int n) (of_int m)).
Proof.
  intros Hnm Hm. unfold fdiv. apply rnd_unit.
  apply ratio_unit; [apply of_int_nonneg | apply of_int_le, Hnm | apply of_int_pos, Hm].
Qed.

Lemma processing_efficiency_unit s : in_unit_interval (_measure_processing_efficiency s).
Proof.
  unfold _measure_processing_efficiency. apply fdiv_ratio_unit.
  - pose proof (filter_length_le (fun kv : string * queue => negb (empty (snd kv)))
                  (data_streams s)). lia.
  - lia.
Qed.

Lemma py_max_ge_l a b : a <= py_max a b.
Proof.
  unfold py_max. destruct (Qlt_le_dec a b) as [H | H];
    [apply Qlt_le_weak, H | apply Qle_refl].
Qed.

Lemma py_max_le a b c : a <= c -> b <= c -> py_max a b <= c.
Proof. intros Ha Hb. unfold py_max. destruct (Qlt_le_dec a b); assumption. Qed.

Lemma real_time_performance_unit t :
  0 <= t -> in_unit_interval (py_max 0 (fsub 1 (fdiv t 10))).
Proof.
  intro Ht. split; [apply py_max_ge_l |].
  apply py_max_le; [discriminate |]. unfold fsub, fdiv.
  rewrite <- rnd_1 at 2. apply rnd_le.
  assert (H : 0 <= rnd (t / 10)).
  { apply rnd_nonneg. apply Qle_shift_div_l; [reflexivity | lra]. }
  lra.
Qed.

(** In exact arithmetic the sum of [n] qualities in the unit interval is
    between 0 and [n]. *)
Lemma sum_bounds (l : list Q) :
  (forall x, rnd x == x) -> Forall in_unit_interval l ->
  forall acc, acc <= fold_left fadd l acc /\
              fold_left fadd l acc <= acc + of_int (length l).
Proof.
  intros Hex Hl. induction Hl as [| x rest [Hx0 Hx1] _ IH]; intro acc; cbn [fold_left length].
  - change (of_int 0) with 0. split; lra.
  - destruct (IH (fadd acc x)) as [IH1 IH2].
    assert (Ha : fadd acc x == acc + x) by (unfold fadd; apply Hex).
    pose proof (of_int_succ (length rest)) as Hs. split; lra.
Qed.

Lemma quantum_coherence_unit s :
  (forall x, rnd x == x) -> quality_bounded s ->
  in_unit_interval (_measure_quantum_coherence s).
Proof.
  intros Hex Hb. unfold _measure_quantum_coherence.
  assert (Hcs : Forall in_unit_interval
                  (map (fun kv : string * processor => coherence (state (snd kv)))
                       (quantum_processors s)))
    by (apply Forall_map; exact Hb).
  destruct (map (fun kv : string * processor => coherence (state (snd kv)))
                (quantum_processors s)) as [| c cs'].
  - split; discriminate.
  - destruct (sum_bounds Hex Hcs 0) as [H1 H2].
    unfold fdiv. apply rnd_unit.
    apply ratio_unit; [exact H1 | lra | apply of_int_pos; simpl; lia].
Qed.

Lemma system_reliability_range s :
  (forall x, rnd x == x) ->
  1 # 2 <= _measure_system_reliability s /\ _measure_system_reliability s <= 1.
Proof.
  intro Hex. unfold _measure_system_reliability.
  set (a := length (filter _ (quantum_processors s))).
  set (t := length (quantum_processors s)).
  assert (Hq : in_unit_interval (fdiv (of_int a) (of_int (Nat.max t 1)))).
  { apply fdiv_ratio_unit; [| lia].
    unfold a, t. pose proof (filter_length_le
      (fun kv : string * processor =>
         if Qlt_le_dec (lit (5 # 10)) (coherence (state (snd kv))) then true else false)
      (quantum_processors s)). lia. }
  destruct Hq as [Hq0 Hq1].
  set (q := fdiv (of_int a) (of_int (Nat.max t 1))) in *.
  set (w := fdiv (of_int widgets) (of_int (Nat.max widgets 1))).
  assert (Hw : w == 1) by (unfold w, fdiv; rewrite Hex; reflexivity).
  assert (Hs : fadd w q == w + q) by (unfold fadd; apply Hex).
  assert (Hr : fdiv (fadd w q) 2 == fadd w q / 2) by (unfold fdiv; apply Hex).
  rewrite Hr. split.
  - apply Qle_shift_div_l; [reflexivity | lra].
  - apply Qle_shift_div_r; [reflexivity | lra].
Qed.

(** X8: the metrics that the monitor measures on the state are
    fractions. The processing efficiency is between 0 and 1 under any
    rounding, the real-time performance as well when the measured time is
    not negative; in exact arithmetic the system reliability is between 0.5
    and 1, and the quantum coherence between 0 and 1 when the qualities
    are. *)
Theorem X8_sampled_metrics_are_fractions (env : sampling_env) (s : system) :
  in_unit_interval (processing_efficiency (sample env s)) /\
  (0 <= processing_time env -> in_unit_interval (real_time_performance (sample env s))) /\
  ((forall x, rnd x == x) ->
   (1 # 2 <= system_reliability (sample env s) /\ system_reliability (sample env s) <= 1) /\
   (quality_bounded s -> in_unit_interval (quantum_coherence (sample env s)))).
Proof.
  cbn [sample processing_efficiency real_time_performance system_reliability
       quantum_coherence].
  split; [apply processing_efficiency_unit | split].
  - apply real_time_performance_unit.
  - intro Hex. split; [apply system_reliability_range, Hex |].
    intro Hb. apply quantum_coherence_unit; assumption.
Qed.

(** X9: streams that are mostly empty keep the optimizer running. In exact
    arithmetic, when fewer than seven in ten streams hold an event at the
    time the monitor samples, the check [_needs_optimization] fires on the
    metrics it writes, whatever the other metrics are. *)
Theorem X9_idle_streams_trigger_the_optimizer (env : sampling_env) (s : system) :
  (forall x, rnd x == x) ->
  (10 * nonempty_streams s < 7 * Nat.max (length (data_streams s)) 1)%nat ->
  _needs_optimization (snd (monitor_iteration env s)) = true.
Proof.
  intros Hex Hidle. unfold _needs_optimization, thresholds. cbn [existsb fst snd].
  change (performance_metrics (snd (monitor_iteration env s))) with (sample env s).
  cbn [sample processing_efficiency].
  destruct (Qlt_le_dec (_measure_processing_efficiency s) (lit (7 # 10))) as [_ | Hge];
    [reflexivity |].
  exfalso. unfold _measure_processing_efficiency, fdiv, lit in Hge.
  fold (nonempty_streams s) in Hge. rewrite !Hex in Hge.
  set (b := Nat.max (length (data_streams s)) 1) in *.
  assert (Hb : 0 < of_int b) by (apply of_int_pos; unfold b; lia).
  assert (Hprod : (7 # 10) * of_int b <= of_int (nonempty_streams s)).
  { apply Qmult_le_compat_r with (z := of_int b) in Hge; [| lra].
    rewrite (Qmult_comm (of_int (nonempty_streams s) / of_int b)), Qmult_div_r in Hge;
      [exact Hge | lra]. }
  assert (Hz : (7 * Z.of_nat b <= 10 * Z.of_nat (nonempty_streams s))%Z).
  { rewrite Zle_Qle, !inject_Z_mult.
    change (inject_Z 7) with 7. change (inject_Z 10) with 10.
    unfold of_int in Hprod. lra. }
  lia.
Qed.


(** *** The health of the system *)

Lemma fmul_lit_exact x c : (forall x, rnd x == x) -> fmul x (lit c) == x * c.
Proof. intro Hex. unfold fmul, lit. rewrite Hex, Hex. reflexivity. Qed.

Lemma fadd_exact x y : (forall x, rnd x == x) -> fadd x y == x + y.
Proof. intro Hex. unfold fadd. apply Hex. Qed.

(** X10: in exact arithmetic the health score of the report is a weighted
    mean, with weights 0.2, 0.2, 0.3, 0.15 and 0.15 that add up to 1: when the
    five metrics it reads are between 0 and 1, so is the score. *)
Theorem X10_health_score_is_a_weighted_mean (m : AdvancedMetrics) :
  (forall x, rnd x == x) ->
  in_unit_interval (processing_efficiency m) ->
  in_unit_interval (predictive_accuracy m) ->
  in_unit_interval (system_reliability m) ->
  in_unit_interval (quantum_coherence m) ->
  in_unit_interval (ai_confidence m) ->
  health_score m ==
    processing_efficiency m * (2 # 10) + predictive_accuracy m * (2 # 10)
    + system_reliability m * (3 # 10) + quantum_coherence m * (15 # 100)
    + ai_confidence m * (15 # 100) /\
  in_unit_interval (health_score m).
Proof.
  intros Hex [He0 He1] [Ha0 Ha1] [Hr0 Hr1] [Hq0 Hq1] [Hc0 Hc1].
  assert (Heq : health_score m ==
    processing_efficiency m * (2 # 10) + predictive_accuracy m * (2 # 10)
    + system_reliability m * (3 # 10) + quantum_coherence m * (15 # 100)
    + ai_confidence m * (15 # 100)).
  { unfold health_score.
    rewrite (fadd_exact _ _ Hex), (fadd_exact _ _ Hex), (fadd_exact _ _ Hex),
      (fadd_exact _ _ Hex).
    rewrite !(fmul_lit_exact _ _ Hex). reflexivity. }
  split; [exact Heq |]. unfold in_unit_interval. rewrite Heq. split; lra.
Qed.

Lemma lit_le a b : a <= b -> lit a <= lit b.
Proof. intro H. unfold lit. apply rnd_le. exact H. Qed.


(** *** The report against the optimizer *)

(** X12: the recommendations of the report agree with the check of the
    optimizer. A processing efficiency or a quantum coherence that makes
    [_needs_optimization] fire (below 0.7, below 0.6) also brings the
    matching recommendation (below 0.8, below 0.7), under any rounding. *)
Theorem X12_recommendations_cover_the_optimizer_check (s : system) :
  (processing_efficiency (performance_metrics s) < lit (7 # 10) ->
   _needs_optimization s = true /\
   In optimize_stream_processing (_generate_recommendations s)) /\
  (quantum_coherence (performance_metrics s) < lit (6 # 10) ->
   _needs_optimization s = true /\
   In recalibrate_quantum_processors (_generate_recommendations s)).
Proof.
  assert (H78 : lit (7 # 10) <= lit (8 # 10)) by (apply lit_le; discriminate).
  assert (H67 : lit (6 # 10) <= lit (7 # 10)) by (apply lit_le; discriminate).
  unfold _needs_optimization, _generate_recommendations. split; intro Hlt.
  - split.
    + apply existsb_exists. exists (processing_efficiency, lit (7 # 10)).
      split; [left; reflexivity |]. cbn [fst snd].
      destruct (Qlt_le_dec (processing_efficiency (performance_metrics s)) (lit (7 # 10)));
        [reflexivity | exfalso; lra].
    + apply in_or_app. left.
      destruct (Qlt_le_dec (processing_efficiency (performance_metrics s)) (lit (8 # 10)));
        [left; reflexivity | exfalso; lra].
  - split.
    + apply existsb_exists. exists (quantum_coherence, lit (6 # 10)).
      split; [do 3 right; left; reflexivity |]. cbn [fst snd].
      destruct (Qlt_le_dec (quantum_coherence (performance_metrics s)) (lit (6 # 10)));
        [reflexivity | exfalso; lra].
    + apply in_or_app. right.
      destruct (Qlt_le_dec (quantum_coherence (performance_metrics s)) (lit (7 # 10)));
        [left; reflexivity | exfalso; lra].
Qed.

(** X13: an [ai_performance] issue in the report means that the optimizer
    is due. The issue is raised below a confidence of 0.7 and the check
    fires below 0.75, so whenever the issue shows, [_needs_optimization]
    holds; and the issue comes last in the list. *)
Theorem X13_ai_performance_issue_means_optimizer_fires (s : system) :
  In ai_performance (_identify_critical_issues s) ->
  _needs_optimization s = true /\
  exists front, _identify_critical_issues s = front ++ [ai_performance].
Proof.
  assert (H : lit (7 # 10) <= lit (75 # 100)) by (apply lit_le; discriminate).
  unfold _identify_critical_issues. intro Hin.
  apply in_app_or in Hin. destruct Hin as [Hin | Hin].
  - exfalso. apply in_flat_map in Hin. destruct Hin as ([k p] & _ & Hin).
    cbn [fst snd] in Hin.
    destruct (Qlt_le_dec (coherence (state p)) (lit (5 # 10)));
      [destruct Hin as [Hin | []]; discriminate | destruct Hin].
  - destruct (Qlt_le_dec (ai_confidence (performance_metrics s)) (lit (7 # 10)))
      as [Hlt | _]; [| destruct Hin].
    split; [| eexists; reflexivity].
    unfold _needs_optimization. apply existsb_exists.
    exists (ai_confidence, lit (75 # 100)).
    split; [do 4 right; left; reflexivity |]. cbn [fst snd].
    destruct (Qlt_le_dec (ai_confidence (performance_metrics s)) (lit (75 # 100)));
      [reflexivity | exfalso; lra].
Qed.

End MonitorMore.

(** ** The quantum analysis and the passes of the optimizer *)

Section ReportMore.
Context {R : Rounding}.
Local Open Scope Q_scope.

Lemma decoherent_units_spec s :
  decoherent_units s =
  map fst (filter (fun kv => if Qlt_le_dec (coherence (state (snd kv))) (lit (5 # 10))
                             then true else false)
             (quantum_processors s)).
Proof.
  unfold decoherent_units, _identify_critical_issues. rewrite flat_map_app.
  assert (Htail : flat_map (fun i => match i with
                                     | quantum_decoherence id => [id]
                                     | ai_performance => []
                                     end)
                    (if Qlt_le_dec (ai_confidence (performance_metrics s)) (lit (7 # 10))
                     then [ai_performance] else []) = []).
  { destruct (Qlt_le_dec (ai_confidence (performance_metrics s)) (lit (7 # 10)));
      reflexivity. }
  rewrite Htail, app_nil_r.
  induction (quantum_processors s) as [| [k p] rest IH]; [reflexivity |].
  cbn [flat_map filter fst snd]. rewrite flat_map_app, IH.
  destruct (Qlt_le_dec (coherence (state p)) (lit (5 # 10))); reflexivity.
Qed.

(** X14: the report and the monitor split the units without overlap. A
    unit reported as decoherent (quality below 0.5) is not among those the
    monitor counts as active (quality above 0.5), so the two numbers add up
    to at most the size of the pool, and a pool that the monitor finds fully
    active has no decoherence issue. A unit at exactly 0.5 is in neither. *)
Theorem X14_decoherent_and_active_units_are_disjoint (s : system) :
  (length (decoherent_units s) + active_quantum s <= length (quantum_processors s))%nat /\
  (active_quantum s = length (quantum_processors s) -> decoherent_units s = []) /\
  (forall id, In id (decoherent_units s) ->
              exists p, In (id, p) (quantum_processors s) /\
                        coherence (state p) < lit (5 # 10)).
Proof.
  rewrite decoherent_units_spec. unfold active_quantum.
  split; [| split].
  - rewrite length_map.
    induction (quantum_processors s) as [| [k p] rest IH]; cbn [filter length snd]; [lia |].
    destruct (Qlt_le_dec (coherence (state p)) (lit (5 # 10)));
      destruct (Qlt_le_dec (lit (5 # 10)) (coherence (state p)));
      cbn [length]; try lia.
    exfalso. lra.
  - induction (quantum_processors s) as [| [k p] rest IH]; cbn [filter length snd];
      [reflexivity |].
    pose proof (filter_length_le
      (fun kv : string * processor =>
         if Qlt_le_dec (lit (5 # 10)) (coherence (state (snd kv))) then true else false)
      rest) as Hle.
    destruct (Qlt_le_dec (lit (5 # 10)) (coherence (state p))) as [Hact | Hnot];
      cbn [length]; intro Hall.
    + destruct (Qlt_le_dec (coherence (state p)) (lit (5 # 10))); [exfalso; lra |].
      apply IH. lia.
    + exfalso. lia.
  - intros id Hin. apply in_map_iff in Hin. destruct Hin as ([k p] & Hk & Hin).
    cbn [fst] in Hk. subst k. apply filter_In in Hin. destruct Hin as [Hin Hlt].
    cbn [snd] in Hlt. exists p. split; [exact Hin |].
    destruct (Qlt_le_dec (coherence (state p)) (lit (5 # 10))); [assumption | discriminate].
Qed.

Lemma constants_unit id : in_unit_interval (snd (constants_of id)).
Proof.
  unfold constants_of, processor_constants. cbn [lookup fst snd].
  repeat match goal with
         | |- context [if ?b then _ else _] => destruct b
         end; cbn [snd]; try (apply rnd_unit; split; discriminate).
  split; discriminate.
Qed.

(** X15: the quantum analysis of the report has one entry per unit, in the
    order of the pool, and in every reachable state whose events carried
    coherences between 0 and 1 each entry has a utilization, a coherence and
    a performance score between 0 and 1, under any rounding. *)
Theorem X15_quantum_analysis_is_bounded (ls : list label) :
  Forall label_in_range ls ->
  let s := sys (run ls initial_config) in
  keys (snd (_generate_quantum_analysis s)) = keys (quantum_processors s) /\
  Forall (fun ka => in_unit_interval (a_utilization (snd ka)) /\
                    in_unit_interval (a_coherence (snd ka)) /\
                    in_unit_interval (a_performance_score (snd ka)))
         (snd (_generate_quantum_analysis s)).
Proof.
  intros Hls s. cbn [_generate_quantum_analysis snd]. split.
  - unfold keys. rewrite map_map. reflexivity.
  - destruct (run_healthy Hls) as [Hb _]. fold s in Hb.
    destruct (pool_invariant_run ls) as (_ & Hcap & _). fold s in Hcap.
    unfold task_view in Hcap. rewrite Forall_map in Hcap.
    unfold quality_bounded in Hb. rewrite Forall_map.
    rewrite Forall_forall in *. intros [k p] Hin.
    specialize (Hb _ Hin). specialize (Hcap _ Hin). cbn [fst snd] in *.
    cbn [analyse_processor snd a_utilization a_coherence a_performance_score fst].
    split; [| split; [exact Hb |]].
    + unfold fdiv. apply rnd_unit.
      apply ratio_unit; [apply of_int_nonneg | | reflexivity].
      change 2 with (of_int 2). apply of_int_le. exact Hcap.
    + unfold fmul. apply rnd_unit. destruct Hb as [H0 H1].
      destruct (constants_unit k) as [F0 F1]. split.
      * apply Qmult_le_0_compat; assumption.
      * setoid_replace 1 with (1 * 1) by reflexivity.
        apply Qmult_le_compat_nonneg; split; assumption.
Qed.

(** *** Passes of the optimizer one after the other *)

Lemma passes_processors n : forall s,
  quantum_processors (passes n s) = Nat.iter n recalibrated (quantum_processors s).
Proof.
  induction n as [| n IH]; intro s; [reflexivity |].
  cbn [passes]. rewrite IH, perform_spec. cbn [snd quantum_processors].
  symmetry. apply Nat.iter_succ_r.
Qed.

(** The quality of a unit after one pass, in exact arithmetic. *)
Lemma recalibrate_exact id p :
  (forall x, rnd x == x) ->
  let c := coherence (state p) in
  let c' := coherence (state (fst (snd (recalibrate id p)))) in
  (c < 7 # 10 -> c' == c + (1 # 10)) /\ (7 # 10 <= c -> c' = c).
Proof.
  intros Hex c c'. unfold c', c.
  assert (Ht : coherence_threshold == 7 # 10) by (unfold coherence_threshold, lit; apply Hex).
  split; intro H.
  - rewrite recalibrate_below by (rewrite Ht; exact H).
    cbn [fst snd with_coherence state coherence].
    apply exact_step; [exact Hex | rewrite Ht; exact H].
  - rewrite recalibrate_steady by (rewrite Ht; exact H). reflexivity.
Qed.

Lemma recalibrated_reaches n : forall procs,
  (forall x, rnd x == x) ->
  Forall (fun kv => (7 # 10) - of_int n * (1 # 10) <= coherence (state (snd kv))) procs ->
  Forall (fun kv => 7 # 10 <= coherence (state (snd kv))) (Nat.iter n recalibrated procs).
Proof.
  induction n as [| n IH]; intros procs Hex Hall.
  - cbn [Nat.iter]. eapply Forall_impl; [| exact Hall].
    intros kv H. cbv beta in H. assert (H0 : of_int 0 == 0) by reflexivity. lra.
  - rewrite Nat.iter_succ_r. apply IH; [exact Hex |].
    unfold recalibrated. apply Forall_map. eapply Forall_impl; [| exact Hall].
    intros [k p] H. cbv beta in H. cbn [fst snd] in *.
    destruct (recalibrate_exact k p Hex) as [Hlow Hhigh].
    pose proof (of_int_succ n) as Hs. pose proof (of_int_nonneg n) as Hn.
    destruct (Qlt_le_dec (coherence (state p)) (7 # 10)) as [Hlt | Hge].
    + rewrite (Hlow Hlt). lra.
    + rewrite (Hhigh Hge). lra.
Qed.

Lemma passes_succ_r n : forall s,
  passes (S n) s = snd (_perform_adaptive_optimization (passes n s)).
Proof.
  induction n as [| n IH]; intro s; [reflexivity |].
  change (passes (S (S n)) s) with (passes (S n) (snd (_perform_adaptive_optimization s))).
  rewrite IH. reflexivity.
Qed.

(** X16: the optimizer restores a pool in at most seven passes. In exact
    arithmetic, after seven passes every unit whose quality was not
    negative is at or above the threshold 0.7, and an eighth pass changes no
    unit. *)
Theorem X16_seven_passes_restore_the_pool (s : system) :
  (forall x, rnd x == x) ->
  Forall (fun kv => 0 <= coherence (state (snd kv))) (quantum_processors s) ->
  Forall (fun kv => 7 # 10 <= coherence (state (snd kv)))
         (quantum_processors (passes 7 s)) /\
  quantum_processors (passes 8 s) = quantum_processors (passes 7 s).
Proof.
  intros Hex Hpos.
  assert (H7 : Forall (fun kv => 7 # 10 <= coherence (state (snd kv)))
                      (quantum_processors (passes 7 s))).
  { rewrite passes_processors. apply recalibrated_reaches; [exact Hex |].
    eapply Forall_impl; [| exact Hpos]. intros kv H. cbv beta in H.
    assert (H70 : (7 # 10) - of_int 7 * (1 # 10) == 0) by reflexivity.
    rewrite H70. exact H. }
  split; [exact H7 |].
  rewrite (passes_succ_r 7 s), perform_spec. cbn [snd quantum_processors].
  apply steady_recalibrated.
  eapply Forall_impl; [| exact H7]. intros kv H.
  assert (Ht : coherence_threshold == 7 # 10) by (unfold coherence_threshold, lit; apply Hex).
  rewrite Ht. exact H.
Qed.

End ReportMore.

(** ** The dashboard layouts *)

Section Dashboards.
Local Open Scope string_scope.
Local Open Scope nat_scope.

Lemma lookup_set_item_same V (k : string) (v : V) d :
  lookup k (set_item k v d) = Some v.
Proof.
  induction d as [| [k' v'] rest IH]; cbn [set_item lookup].
  - rewrite String.eqb_refl. reflexivity.
  - destruct (String.eqb k' k) eqn:E; cbn [lookup]; rewrite ?String.eqb_refl, ?E;
      [reflexivity | exact IH].
Qed.

Lemma lookup_set_item_other V (k k' : string) (v : V) d :
  k' <> k -> lookup k' (set_item k v d) = lookup k' d.
Proof.
  intro Hne. induction d as [| [k0 v0] rest IH]; cbn [set_item lookup].
  - destruct (String.eqb k k') eqn:E; [| reflexivity].
    apply String.eqb_eq in E. congruence.
  - destruct (String.eqb k0 k) eqn:E; cbn [lookup].
    + apply String.eqb_eq in E. subst k0.
      destruct (String.eqb k k') eqn:E'; [| reflexivity].
      apply String.eqb_eq in E'. congruence.
    + destruct (String.eqb k0 k'); [reflexivity | exact IH].
Qed.

Lemma lookup_not_in V (k : string) (d : dict V) : ~ In k (keys d) -> lookup k d = None.
Proof.
  induction d as [| [k' v] rest IH]; cbn [lookup keys map fst]; intro H; [reflexivity |].
  destruct (String.eqb k' k) eqn:E.
  - apply String.eqb_eq in E. exfalso. apply H. left. exact E.
  - apply IH. intro Hin. apply H. right. exact Hin.
Qed.

(** [{**a, **b}[k]] is [b[k]] where [b] has the key, and [a[k]]
    otherwise. *)
Lemma lookup_dict_merge V (k : string) (b : dict V) : forall a,
  NoDup (keys b) ->
  lookup k (dict_merge a b) =
    match lookup k b with
    | Some v => Some v
    | None => lookup k a
    end.
Proof.
  unfold dict_merge.
  induction b as [| [k0 v0] rest IH]; intros a Hnd; cbn [fold_left lookup fst snd];
    [reflexivity |].
  cbn [keys map fst] in Hnd. inversion Hnd as [| ? ? Hnotin Hnd']. subst.
  rewrite IH by exact Hnd'.
  destruct (String.eqb k0 k) eqn:E.
  - apply String.eqb_eq in E. subst k0.
    rewrite (@lookup_not_in V k rest Hnotin). apply lookup_set_item_same.
  - destruct (lookup k rest); [reflexivity |].
    apply lookup_set_item_other. intro Heq. subst k.
    rewrite String.eqb_refl in E. discriminate.
Qed.

Lemma firstn_incl A (n : nat) (l : list A) x : In x (firstn n l) -> In x l.
Proof.
  intro H. rewrite <- (firstn_skipn n l). apply in_or_app. left. exact H.
Qed.

Lemma filter_widgets_complete ws :
  Forall (fun w => w_category w <> None) ws ->
  filter_widgets ws = Return (filter has_known_category ws).
Proof.
  induction 1 as [| w rest Hw _ IH]; cbn [filter_widgets filter]; [reflexivity |].
  unfold has_known_category at 1.
  destruct (w_category w) as [c |]; [| congruence].
  rewrite IH. reflexivity.
Qed.

Lemma filter_widgets_raises ws :
  Exists (fun w => w_category w = None) ws ->
  filter_widgets ws = Raise (key_error "category").
Proof.
  induction 1 as [w rest Hw | w rest _ IH]; cbn [filter_widgets].
  - rewrite Hw. reflexivity.
  - destruct (w_category w); [| reflexivity]. rewrite IH. reflexivity.
Qed.

Lemma filter_widgets_sound ws kept :
  filter_widgets ws = Return kept ->
  Forall (fun w => w_category w <> None) ws /\ kept = filter has_known_category ws.
Proof.
  intro H.
  destruct (Forall_Exists_dec (fun w => w_category w <> None)
              (fun w => match w_category w as o return {o <> None} + {~ o <> None} with
                        | Some c => left (fun E => eq_ind (Some c)
                                       (fun o => match o with Some _ => True | None => False end)
                                       I None E)
                        | None => right (fun Hn => Hn eq_refl)
                        end) ws) as [Hall | Hex].
  - split; [exact Hall |]. rewrite (@filter_widgets_complete ws Hall) in H. congruence.
  - exfalso. rewrite filter_widgets_raises in H; [discriminate |].
    eapply Exists_impl; [| exact Hex]. intros w Hw. cbv beta in Hw.
    destruct (w_category w); [| reflexivity]. exfalso. apply Hw. discriminate.
Qed.

Lemma known_category_In c : known_category c = true <-> In c strategic_categories.
Proof.
  unfold known_category. rewrite existsb_exists. split.
  - intros (x & Hin & E). apply String.eqb_eq in E. subst x. exact Hin.
  - intro Hin. exists c. split; [exact Hin | apply String.eqb_refl].
Qed.

Lemma filter_known ws :
  Forall (fun w => exists c, w_category w = Some c /\ In c strategic_categories)
         (filter has_known_category ws).
Proof.
  apply Forall_forall. intros w Hin. apply filter_In in Hin. destruct Hin as [_ Hk].
  unfold has_known_category in Hk. destruct (w_category w) as [c |]; [| discriminate].
  exists c. split; [reflexivity | apply known_category_In; exact Hk].
Qed.

Lemma filter_widgets_of_is_Exception v e :
  filter_widgets_of v = Raise e -> is_Exception e = true.
Proof.
  assert (Hf : forall ws, filter_widgets ws = Raise e -> is_Exception e = true).
  { induction ws as [| w rest IH]; cbn [filter_widgets]; [discriminate |].
    destruct (w_category w); [| intro H; injection H as <-; reflexivity].
    destruct (filter_widgets rest); [discriminate |].
    intro H. injection H as <-. apply IH. reflexivity. }
  unfold filter_widgets_of.
  destruct v as [[b | n | s | t | ws |] |]; try (intro H; injection H as <-; reflexivity).
  - destruct (String.eqb s ""); [discriminate | intro H; injection H as <-; reflexivity].
  - apply Hf.
Qed.

Lemma validate_is_Exception cfg e :
  _validate_advanced_dashboard_layout cfg = Raise e -> is_Exception e = true.
Proof.
  unfold _validate_advanced_dashboard_layout.
  destruct (filter_widgets_of (lookup "widgets" (dict_merge default_layout cfg))) eqn:E;
    [discriminate |].
  intro H. injection H as <-. eapply filter_widgets_of_is_Exception. exact E.
Qed.

(** A validated layout holds a list of widgets. *)
Lemma validate_widgets cfg l :
  _validate_advanced_dashboard_layout cfg = Return l ->
  exists ws, lookup "widgets" l = Some (VWidgets ws).
Proof.
  unfold _validate_advanced_dashboard_layout.
  destruct (filter_widgets_of (lookup "widgets" (dict_merge default_layout cfg)));
    [| discriminate].
  intro H. injection H as <-. eexists. apply lookup_set_item_same.
Qed.

(** X17: validation merges the configuration over the defaults and keeps
    the widgets of the eight known categories. When it returns, the layout
    holds a list of widgets under [widgets], each with a category among the
    strategic categories: the given widgets of a known category in the
    order given, or the five default widgets if none were given. Under every
    other key it holds the entry of the configuration, and the default
    where the configuration has none. *)
Theorem X17_validation_keeps_the_known_widgets (cfg l : layout) :
  NoDup (keys cfg) ->
  _validate_advanced_dashboard_layout cfg = Return l ->
  exists ws,
    lookup "widgets" l = Some (VWidgets ws) /\
    Forall (fun w => exists c, w_category w = Some c /\ In c strategic_categories) ws /\
    (forall given, lookup "widgets" cfg = Some (VWidgets given) ->
                   ws = filter has_known_category given) /\
    (lookup "widgets" cfg = None -> ws = default_widgets) /\
    (forall k, k <> "widgets" ->
               lookup k l = match lookup k cfg with
                            | Some v => Some v
                            | None => lookup k default_layout
                            end).
Proof.
  intros Hnd. unfold _validate_advanced_dashboard_layout.
  rewrite (@lookup_dict_merge value "widgets" cfg default_layout Hnd).
  destruct (lookup "widgets" cfg) as [v |] eqn:Hw.
  - destruct v as [b | n | s | t | given |]; cbn [filter_widgets_of];
      try discriminate.
    + destruct (String.eqb s ""); [| discriminate].
      intro H. injection H as <-. exists []. rewrite lookup_set_item_same.
      repeat split; try constructor; try discriminate.
      intros k Hk. rewrite lookup_set_item_other by exact Hk.
      apply lookup_dict_merge. exact Hnd.
    + destruct (filter_widgets given) as [kept |] eqn:Hf; [| discriminate].
      intro H. injection H as <-. exists kept. rewrite lookup_set_item_same.
      apply filter_widgets_sound in Hf. destruct Hf as [_ ->].
      split; [reflexivity |]. split; [apply filter_known |].
      split; [intros given' E; injection E as <-; reflexivity |].
      split; [discriminate |].
      intros k Hk. rewrite lookup_set_item_other by exact Hk.
      apply lookup_dict_merge. exact Hnd.
  - cbn [lookup default_layout String.eqb Ascii.eqb Bool.eqb filter_widgets_of].
    change (filter_widgets default_widgets) with (Return default_widgets).
    cbv iota. intro H. injection H as <-. exists default_widgets.
    rewrite lookup_set_item_same.
    split; [reflexivity |]. split.
    { change default_widgets with (filter has_known_category default_widgets).
      apply filter_known. }
    split; [discriminate |]. split; [reflexivity |].
    intros k Hk. rewrite lookup_set_item_other by exact Hk.
    apply lookup_dict_merge. exact Hnd.
Qed.

(** *** The layout optimization *)

Lemma optimize_spec l now d ws :
  lookup "widgets" l = Some (VWidgets ws) ->
  _optimize_layout_with_ai l now d =
    (Return (set_item "optimization_timestamp" (VTime now)
               (set_item "ai_optimized" (VBool true)
                  (set_item "widgets"
                     (VWidgets (if length ws <? 6
                                then ws ++ firstn (6 - length ws) recommended_widgets
                                else ws)) l))), d).
Proof.
  intro Hw. unfold _optimize_layout_with_ai, try_except, bind, lift, extend_widgets, ret.
  rewrite Hw. reflexivity.
Qed.

(** X18: the layout optimization fills a list of widgets up to six. For a
    layout with a list of [n] widgets it returns, without an error line, a
    layout whose list starts with the same widgets and has [n + 2] widgets
    if [n <= 4], six if [n = 5], and [n] otherwise; the layout is marked as
    optimized at the instant of the call, and every other entry is kept. *)
Theorem X18_optimization_fills_up_to_six_widgets
    (l : layout) (now : timestamp) (d : dashboards) (ws : list widget) :
  lookup "widgets" l = Some (VWidgets ws) ->
  exists l' added,
    _optimize_layout_with_ai l now d = (Return l', d) /\
    lookup "widgets" l' = Some (VWidgets (ws ++ added)) /\
    added = firstn (6 - length ws) recommended_widgets /\
    length (ws ++ added) = Nat.max (length ws) (Nat.min 6 (length ws + 2)) /\
    lookup "ai_optimized" l' = Some (VBool true) /\
    lookup "optimization_timestamp" l' = Some (VTime now) /\
    (forall k, k <> "widgets" -> k <> "ai_optimized" -> k <> "optimization_timestamp" ->
               lookup k l' = lookup k l).
Proof.
  intro Hw. rewrite (@optimize_spec l now d ws Hw).
  eexists. exists (firstn (6 - length ws) recommended_widgets).
  split; [reflexivity |].
  split.
  { rewrite !lookup_set_item_other by discriminate. rewrite lookup_set_item_same.
    destruct (length ws <? 6) eqn:E; [reflexivity |].
    apply Nat.ltb_ge in E. replace (6 - length ws) with 0 by lia.
    cbn [firstn]. rewrite app_nil_r. reflexivity. }
  split; [reflexivity |].
  split.
  { rewrite length_app, length_firstn. change (length recommended_widgets) with 2. lia. }
  split.
  { rewrite lookup_set_item_other by discriminate. apply lookup_set_item_same. }
  split; [apply lookup_set_item_same |].
  intros k H1 H2 H3. rewrite !lookup_set_item_other by assumption. reflexivity.
Qed.

(** *** Creating a layout *)

Lemma create_fails models user_id cfg ai now d e :
  _validate_advanced_dashboard_layout cfg = Raise e ->
  create_advanced_dashboard_layout models user_id cfg ai now d =
    (Return _get_default_layout, with_error e d).
Proof.
  intro Hv. pose proof (@validate_is_Exception cfg e Hv) as He.
  unfold create_advanced_dashboard_layout, try_except, bind, lift.
  rewrite Hv, He. reflexivity.
Qed.

Lemma create_succeeds models user_id cfg ai now d validated :
  _validate_advanced_dashboard_layout cfg = Return validated ->
  exists l,
    create_advanced_dashboard_layout models user_id cfg ai now d =
      (Return l, with_layout user_id l d) /\
    (ai && existsb (String.eqb "pattern_clusterer") models = false -> l = validated) /\
    (ai && existsb (String.eqb "pattern_clusterer") models = true ->
     _optimize_layout_with_ai validated now d = (Return l, d)).
Proof.
  intro Hv. destruct (@validate_widgets cfg validated Hv) as [ws Hws].
  unfold create_advanced_dashboard_layout, try_except, bind, lift.
  rewrite Hv. destruct (ai && existsb (String.eqb "pattern_clusterer") models).
  - rewrite (@optimize_spec validated now d ws Hws). eexists. split; [reflexivity |].
    split; [discriminate | reflexivity].
  - eexists. split; [reflexivity |]. split; [reflexivity | discriminate].
Qed.

(** X19: creating a layout never raises an [Exception], and its effect is
    one of two. Either the configuration is valid: the layout returned is
    stored for the user, a later lookup under the user's id finds it, the
    adaptive layout stored beside it is its adaptive version, the layouts of
    the other users are untouched and no error is logged. Or validation
    raised: the fallback layout is returned, nothing is stored and one
    error line is added to the log. *)
Theorem X19_created_layout_is_stored_or_fallback
    (models : list string) (user_id : string) (cfg : layout) (ai_assisted : bool)
    (now : timestamp) (d : dashboards) :
  let r := create_advanced_dashboard_layout models user_id cfg ai_assisted now d in
  exists l, fst r = Return l /\
    ((lookup user_id (dashboard_layouts (snd r)) = Some l /\
      lookup user_id (adaptive_layouts (snd r)) = Some (_create_adaptive_layout l) /\
      (forall u, u <> user_id ->
         lookup u (dashboard_layouts (snd r)) = lookup u (dashboard_layouts d) /\
         lookup u (adaptive_layouts (snd r)) = lookup u (adaptive_layouts d)) /\
      dashboard_log (snd r) = dashboard_log d)
     \/
     (exists e, _validate_advanced_dashboard_layout cfg = Raise e /\
      l = _get_default_layout /\
      dashboard_layouts (snd r) = dashboard_layouts d /\
      adaptive_layouts (snd r) = adaptive_layouts d /\
      dashboard_log (snd r) = (dashboard_log d ++ [LayoutCreationError e])%list)).
Proof.
  intro r. subst r.
  destruct (_validate_advanced_dashboard_layout cfg) as [validated | e] eqn:Hv.
  - destruct (@create_succeeds models user_id cfg ai_assisted now d validated Hv) as (l & -> & Hoff & Hon).
    exists l. split; [reflexivity |]. left. cbn [fst snd with_layout dashboard_layouts
      adaptive_layouts dashboard_log].
    rewrite !lookup_set_item_same.
    split; [reflexivity |]. split; [reflexivity |].
    split.
    { intros u Hu. rewrite !lookup_set_item_other by exact Hu. split; reflexivity. }
    reflexivity.
  - rewrite (@create_fails models user_id cfg ai_assisted now d e Hv).
    exists _get_default_layout. split; [reflexivity |]. right.
    exists e. repeat split.
Qed.

(** X20: one widget without a category discards the whole configuration.
    If the list of widgets of the configuration has a widget with no
    [category] entry, then, whatever else the configuration holds and with
    or without AI assistance, the fallback layout of three basic widgets is
    returned, an error line with the [KeyError] is logged, and no layout is
    stored for the user. *)
Theorem X20_widget_without_category_gives_the_fallback
    (models : list string) (user_id : string) (cfg : layout) (ai_assisted : bool)
    (now : timestamp) (d : dashboards) (ws : list widget) :
  NoDup (keys cfg) ->
  lookup "widgets" cfg = Some (VWidgets ws) ->
  Exists (fun w => w_category w = None) ws ->
  create_advanced_dashboard_layout models user_id cfg ai_assisted now d =
    (Return _get_default_layout,
     {| dashboard_layouts := dashboard_layouts d;
        adaptive_layouts := adaptive_layouts d;
        dashboard_log := (dashboard_log d ++ [LayoutCreationError (key_error "category")])%list |}).
Proof.
  intros Hnd Hw Hex. apply create_fails.
  unfold _validate_advanced_dashboard_layout.
  rewrite (@lookup_dict_merge value "widgets" cfg default_layout Hnd), Hw.
  cbn [filter_widgets_of]. rewrite (@filter_widgets_raises ws Hex). reflexivity.
Qed.

(** X21: the widgets of a created layout. When the configuration is valid,
    the layout that is returned and stored holds a list of widgets that all
    have one of the eight strategic categories, also after the AI step has
    added its recommendations; with AI assistance and the pattern model
    loaded the list has at least two widgets, and without them it has none
    but the valid ones of the configuration or of the defaults. *)
Theorem X21_created_widgets_have_known_categories
    (models : list string) (user_id : string) (cfg validated : layout)
    (ai_assisted : bool) (now : timestamp) (d : dashboards) :
  _validate_advanced_dashboard_layout cfg = Return validated ->
  exists l ws,
    fst (create_advanced_dashboard_layout models user_id cfg ai_assisted now d) = Return l /\
    lookup "widgets" l = Some (VWidgets ws) /\
    Forall (fun w => exists c, w_category w = Some c /\ In c strategic_categories) ws /\
    (if ai_assisted && existsb (String.eqb "pattern_clusterer") models
     then 2 <= length ws /\ lookup "ai_optimized" l = Some (VBool true)
     else l = validated).
Proof.
  intro Hv.
  destruct (@create_succeeds models user_id cfg ai_assisted now d validated Hv) as (l & Hc & Hoff & Hon).
  assert (Hknown : exists ws0, lookup "widgets" validated = Some (VWidgets ws0) /\
            Forall (fun w => exists c, w_category w = Some c /\ In c strategic_categories) ws0).
  { revert Hv. unfold _validate_advanced_dashboard_layout.
    destruct (lookup "widgets" (dict_merge default_layout cfg)) as [v |];
      cbn [filter_widgets_of]; [| discriminate].
    destruct v as [b | n | s | t | given |]; try discriminate.
    - destruct (String.eqb s ""); [| discriminate].
      intro H. injection H as <-. exists []. rewrite lookup_set_item_same.
      split; [reflexivity | constructor].
    - destruct (filter_widgets given) as [kept |] eqn:Hf; [| discriminate].
      intro H. injection H as <-. exists kept. rewrite lookup_set_item_same.
      apply filter_widgets_sound in Hf. destruct Hf as [_ ->].
      split; [reflexivity | apply filter_known]. }
  destruct Hknown as (ws0 & Hws0 & Hall0).
  rewrite Hc. cbn [fst].
  destruct (ai_assisted && existsb (String.eqb "pattern_clusterer") models).
  - specialize (Hon eq_refl). rewrite (@optimize_spec validated now d ws0 Hws0) in Hon.
    apply (f_equal fst) in Hon. cbn [fst] in Hon.
    assert (Hl : forall a b : layout, Return a = Return b -> b = a) by (intros; congruence).
    apply Hl in Hon. subst l. clear Hl.
    eexists. eexists. split; [reflexivity |].
    split.
    { rewrite !lookup_set_item_other by discriminate. apply lookup_set_item_same. }
    split.
    { destruct (length ws0 <? 6); [| exact Hall0].
      apply Forall_app. split; [exact Hall0 |].
      apply Forall_forall. intros w Hin. apply firstn_incl in Hin.
      cbn [recommended_widgets In] in Hin.
      destruct Hin as [<- | [<- | []]]; eexists; (split; [reflexivity |]);
        unfold strategic_categories; cbn [In]; tauto. }
    split.
    { destruct (length ws0 <? 6) eqn:E; [| apply Nat.ltb_ge in E; lia].
      apply Nat.ltb_lt in E. rewrite length_app, length_firstn.
      change (length recommended_widgets) with 2. lia. }
    rewrite lookup_set_item_other by discriminate. apply lookup_set_item_same.
  - rewrite (Hoff eq_refl). exists validated, ws0. repeat split; assumption.
Qed.

End Dashboards.

(** ** The input of the allocation model *)

Section Allocation.
Local Open Scope nat_scope.

Lemma firstn_repeat A (x : A) : forall m k, firstn k (repeat x m) = repeat x (Nat.min k m).
Proof.
  induction m as [| m IH]; intros [| k]; cbn [firstn repeat Nat.min]; try reflexivity.
  rewrite IH. reflexivity.
Qed.

(** X22: the input of the allocation model has twenty entries whatever the
    number of utilization values: the first twenty values when there are at
    least twenty, and otherwise all of them, in order, followed by zeros.
    Below twenty, an entry of the input is the value at the same place, and
    zero where there is none. *)
Theorem X22_allocation_input_has_twenty_entries (current_allocation : list Q) :
  length (allocation_input current_allocation) = 20 /\
  allocation_input current_allocation =
    (firstn 20 current_allocation ++ repeat 0%Q (20 - length current_allocation))%list /\
  (forall i, i < 20 ->
     nth i (allocation_input current_allocation) 0%Q = nth i current_allocation 0%Q).
Proof.
  unfold allocation_input. split; [| split].
  - rewrite length_firstn, length_app, repeat_length. lia.
  - rewrite firstn_app, firstn_repeat. f_equal. f_equal. lia.
  - intros i Hi. rewrite nth_firstn.
    destruct (i <? 20) eqn:E; [| apply Nat.ltb_ge in E; lia].
    destruct (Nat.lt_ge_cases i (length current_allocation)) as [Hlt | Hge].
    + apply app_nth1. exact Hlt.
    + rewrite app_nth2 by exact Hge. rewrite nth_repeat.
      symmetry. apply nth_overflow. exact Hge.
Qed.

End Allocation.

(** * Concrete runs *)

(** The runs below use exact arithmetic. *)

Local Open Scope string_scope.
Local Open Scope Z_scope.

(** C1 fails as stated: with [quantum_core_1] full, the next task goes to
    [quantum_core_2], of quality 0.95, although [quantum_core_3], of quality
    0.98, has room as well. *)
Lemma C1_counterexample :
  fst (submit 3 (sys core_1_full)) = Return ("quantum_core_2", 3%Z) /\
  ~ highest_quality_choice (quantum_processors (sys core_1_full)) "quantum_core_2".
Proof.
  split; [reflexivity |].
  intros (p & Hp & _ & Hmax).
  vm_compute in Hp. injection Hp as <-.
  specialize (Hmax "quantum_core_3"
                {| state := {| coherence := (98 # 100)%Q |}; current_tasks := [] |}
                eq_refl).
  simpl in Hmax. assert (H : (0 < 2)%nat) by lia. specialize (Hmax H).
  revert Hmax. unfold Qle. simpl. lia.
Qed.

Lemma C1_witness :
  quantum_processors (sys core_1_full) =
    ([("quantum_core_1", {| state := {| coherence := 1%Q |}; current_tasks := [1%Z; 2%Z] |})]
     ++ ("quantum_core_2", {| state := {| coherence := (95 # 100)%Q |}; current_tasks := [] |})
     :: [("quantum_core_3", {| state := {| coherence := (98 # 100)%Q |}; current_tasks := [] |})])%list /\
  fst (submit 3 (sys core_1_full)) = Return ("quantum_core_2", 3%Z) /\
  forall task_type u,
    exists r,
      fst (execute_quantum_task (R := exact_rounding) 3 task_type (WorkDone u)
             (sys core_1_full)) = Return r /\
      r_processor_id r = "quantum_core_2" /\ r_task_id r = 3%Z.
Proof.
  split; [reflexivity |].
  apply (@C1_first_fit_admission exact_rounding (sys core_1_full) 3%Z
           [("quantum_core_1",
             {| state := {| coherence := 1%Q |}; current_tasks := [1%Z; 2%Z] |})]
           [("quantum_core_3",
             {| state := {| coherence := (98 # 100)%Q |}; current_tasks := [] |})]
           "quantum_core_2"
           {| state := {| coherence := (95 # 100)%Q |}; current_tasks := [] |}).
  - reflexivity.
  - repeat constructor.
  - simpl. unfold capacity. lia.
  - discriminate.
Defined.

Lemma C2_witness :
  Forall (fun kv => (capacity <= length (current_tasks (snd kv)))%nat)
         (quantum_processors (sys pool_full)) /\
  execute_quantum_task (R := exact_rounding) 9 "prediction" (WorkDone 1%Q) (sys pool_full) =
    (Raise no_processor_available, sys pool_full) /\
  fire (R := exact_rounding) (Submit 9 "prediction") pool_full = pool_full.
Proof.
  assert (Hfull : Forall (fun kv => (capacity <= length (current_tasks (snd kv)))%nat)
                         (quantum_processors (sys pool_full)))
    by (repeat constructor).
  split; [exact Hfull |].
  exact (proj2 (@C2_capacity_never_exceeded exact_rounding
                  [Submit 1 "optimization"; Submit 2 "optimization";
                   Submit 3 "optimization"; Submit 4 "optimization";
                   Submit 5 "optimization"; Submit 6 "optimization"])
               9%Z "prediction" (WorkDone 1%Q) Hfull).
Defined.

(** C3 fails as stated: of two tasks named by the same clock value, the
    one that ends first leaves its id in the task list of the unit. *)
Lemma C3_counterexample :
  nth_error (suspended same_clock) 0%nat =
    Some {| c_processor := "quantum_core_1"; c_task := 7%Z; c_type := "optimization" |} /\
  In 7%Z (active_tasks "quantum_core_1"
            (sys (fire (R := exact_rounding) (Resume 0%nat (WorkDone 1%Q)) same_clock))).
Proof. split; [reflexivity | left; reflexivity]. Qed.

Lemma C3_witness :
  let c' := fire (R := exact_rounding) (Resume 0%nat (WorkRaises (Exception "boom"))) core_1_full in
  nth_error (suspended core_1_full) 0%nat =
    Some {| c_processor := "quantum_core_1"; c_task := 1%Z; c_type := "optimization" |} /\
  count_occ Z.eq_dec (active_tasks "quantum_core_1" (sys core_1_full)) 1%Z =
    S (count_occ Z.eq_dec (active_tasks "quantum_core_1" (sys c')) 1%Z) /\
  ((waiting "quantum_core_1" 1%Z (suspended core_1_full) = 1)%nat ->
   ~ In 1%Z (active_tasks "quantum_core_1" (sys c'))) /\
  (forall id, id <> "quantum_core_1" ->
              active_tasks id (sys c') = active_tasks id (sys core_1_full)).
Proof.
  intro c'. split; [reflexivity |].
  exact (@C3_release_exactly_once exact_rounding
           [Submit 1 "optimization"; Submit 2 "optimization"] 0%nat
           {| c_processor := "quantum_core_1"; c_task := 1%Z; c_type := "optimization" |}
           (WorkRaises (Exception "boom")) eq_refl).
Defined.



(** C5 fails as stated: [_process_quantum_data] stores the coherence that
    an event carries as it comes. *)
Lemma C5_counterexample :
  let c := run (R := exact_rounding)
             [Publish "quantum_stream" wild_event;
              StreamIteration "quantum_stream" undisturbed] initial_config in
  ~ (coherence (state (the_processor "quantum_core_1" (sys c))) <= 1)%Q.
Proof. intro c. vm_compute. intro H. apply H. reflexivity. Qed.

Lemma C5_witness :
  let ls := [Submit 1 "optimization"; Resume 0%nat (WorkDone 1%Q);
             Publish "quantum_stream" [("quantum_core_2", Some (1 # 2)%Q)];
             StreamIteration "quantum_stream" undisturbed; OptimizationTick] in
  Forall label_in_range ls /\
  forall id p,
    In (id, p) (quantum_processors (sys (run (R := exact_rounding) ls initial_config))) ->
    (0 <= coherence (state p))%Q /\ (coherence (state p) <= 1)%Q.
Proof.
  intro ls.
  assert (H : Forall label_in_range ls).
  { repeat constructor; simpl; discriminate. }
  split; [exact H | exact (@C5_quality_stays_in_unit_interval exact_rounding ls H)].
Defined.

(** C6 fails as stated: with every unit above the threshold, the tick that
    follows a tick still sheds a stream that holds more than 800 events; and
    a tick whose check [_needs_optimization] does not fire leaves a unit of
    quality 0.6 as it is. *)
Lemma C6_counterexample :
  let s1 := snd (optimization_tick (R := exact_rounding)
                   (sys (published "surveillance_stream" 1000))) in
  let s2 := snd (optimization_tick (R := exact_rounding) s1) in
  (Forall (fun kv => (coherence_threshold (R := exact_rounding)
                      <= coherence (state (snd kv)))%Q)
          (quantum_processors s1) /\
   mitigation_actions s1 s2 = [ClearedStream "surveillance_stream"]) /\
  ((coherence (state (the_processor "quantum_core_1" (sys all_metrics_fine)))
    < coherence_threshold (R := exact_rounding))%Q /\
   snd (optimization_tick (R := exact_rounding) (sys all_metrics_fine)) =
     sys all_metrics_fine).
Proof.
  intros s1 s2. split; split.
  - assert (H : quantum_processors s1 = initial_processors) by (vm_compute; reflexivity).
    rewrite H. repeat constructor; simpl; discriminate.
  - vm_compute. reflexivity.
  - vm_compute. reflexivity.
  - vm_compute. reflexivity.
Qed.

Lemma C6_witness :
  (_needs_optimization (R := exact_rounding) (sys core_1_worn) = true /\
   Forall2 (recalibration_rule (R := exact_rounding))
     (quantum_processors (sys core_1_worn))
     (quantum_processors (snd (optimization_tick (R := exact_rounding) (sys core_1_worn))))) /\
  (Forall (fun kv => (coherence_threshold (R := exact_rounding)
                      <= coherence (state (snd kv)))%Q)
          (quantum_processors initial_system) /\
   Forall (fun kv => (qsize (snd kv) <= overload_threshold)%nat)
          (data_streams initial_system) /\
   mitigation_actions initial_system
     (snd (optimization_tick (R := exact_rounding) initial_system)) = [] /\
   quantum_processors (snd (optimization_tick (R := exact_rounding) initial_system)) =
     quantum_processors initial_system).
Proof.
  split.
  - split; [reflexivity |].
    exact (proj1 (@C6_recalibration_tick exact_rounding (sys core_1_worn)) eq_refl).
  - assert (Hq : Forall (fun kv => (coherence_threshold (R := exact_rounding)
                                    <= coherence (state (snd kv)))%Q)
                        (quantum_processors initial_system))
      by (repeat constructor; simpl; discriminate).
    assert (Hs : Forall (fun kv => (qsize (snd kv) <= overload_threshold)%nat)
                        (data_streams initial_system))
      by (repeat constructor; unfold overload_threshold, qsize; simpl; lia).
    destruct (proj2 (@C6_recalibration_tick exact_rounding initial_system) Hq)
      as (Hsame & _ & Hcalm).
    destruct (Hcalm Hs) as (Hnone & _).
    repeat split; assumption.
Defined.

(** C7 fails as stated: in a pass of the optimizer a stream of capacity
    1000 is not shed at a depth of exactly 800, which is 80% of its
    capacity. *)
Lemma C7_counterexample :
  let s800 := sys (published "surveillance_stream" 800) in
  let tick := snd (optimization_tick (R := exact_rounding) s800) in
  _needs_optimization (R := exact_rounding) s800 = true /\
  tick = snd (_perform_adaptive_optimization (R := exact_rounding) s800) /\
  maxsize (the_queue "surveillance_stream" s800) = 1000%nat /\
  qsize (the_queue "surveillance_stream" s800) = 800%nat /\
  qsize (the_queue "surveillance_stream" tick) = 800%nat.
Proof. intros s800 tick. vm_compute. repeat split. Qed.

Lemma C7_witness :
  let s := sys (published "surveillance_stream" 900) in
  let s' := snd (optimization_tick (R := exact_rounding) s) in
  (_needs_optimization (R := exact_rounding) s = true /\
   Forall2 (shedding_rule s s') (data_streams s) (data_streams s') /\
   qsize (the_queue "surveillance_stream" s') = 800%nat) /\
  (_needs_optimization (R := exact_rounding) (sys fine_and_deep) = false /\
   qsize (the_queue "surveillance_stream" (sys fine_and_deep)) = 900%nat /\
   snd (optimization_tick (R := exact_rounding) (sys fine_and_deep)) = sys fine_and_deep).
Proof.
  intros s s'. split.
  - assert (H : _needs_optimization (R := exact_rounding) s = true)
      by (vm_compute; reflexivity).
    pose proof (@C7_shedding_of_streams_of_capacity_1000 exact_rounding s) as H7.
    cbv zeta in H7. destruct H7 as (Hrule & Hopen & _).
    split; [exact H |]. split; [| vm_compute; reflexivity].
    unfold s'. rewrite (Hopen H). exact Hrule.
  - assert (H : _needs_optimization (R := exact_rounding) (sys fine_and_deep) = false)
      by (vm_compute; reflexivity).
    pose proof (@C7_shedding_of_streams_of_capacity_1000 exact_rounding (sys fine_and_deep))
      as H7.
    cbv zeta in H7. destruct H7 as (_ & _ & Hclosed).
    split; [exact H |]. split; [vm_compute; reflexivity | exact (Hclosed H)].
Defined.

(** C8 fails as stated: a shed discards 100 events, and the snapshot that
    the monitor takes afterwards equals the one it took before; none of
    its entries has moved by 100. *)
Lemma C8_counterexample :
  let c := run (R := exact_rounding) [MonitorIteration calm_sampling]
             (published "surveillance_stream" 900) in
  let c' := run (R := exact_rounding) [OptimizationTick; MonitorIteration calm_sampling] c in
  (qsize (the_queue "surveillance_stream" (sys c))
   - qsize (the_queue "surveillance_stream" (sys c')) = 100)%nat /\
  metrics_data (sys c') = metrics_data (sys c).
Proof. intros c c'. vm_compute. split; reflexivity. Qed.

Lemma C9_witness :
  let s := sys (published "security_stream" 2) in
  let envs := [redis_down; undisturbed; undisturbed] in
  let s1 := snd (stream_iteration "security_stream" redis_down s) in
  let s2 := snd (stream_iteration "security_stream" undisturbed s1) in
  let s3 := snd (_process_data_stream "security_stream" envs s) in
  Forall benign envs /\
  fst (_process_data_stream "security_stream" envs s) = Return tt /\
  items (the_queue "security_stream" s3) =
    skipn (length envs) (items (the_queue "security_stream" s)) /\
  (exists handler,
      In (HandlerError handler (Exception "redis down")) (new_logs s s1) /\
      In (HandlerError handler (Exception "redis down")) (new_logs s s3)) /\
  items (the_queue "security_stream" s1) = [[]] /\
  items (the_queue "security_stream" s2) = [] /\
  _process_data_stream "security_stream" envs s =
    _process_data_stream "security_stream" [undisturbed] s2.
Proof.
  intros s envs s1 s2 s3.
  assert (H : Forall benign envs).
  { repeat constructor; simpl; intros e He; try discriminate.
    injection He as <-. reflexivity. }
  split; [exact H |].
  destruct (@C9_stream_processor_keeps_running "security_stream" envs s H)
    as (Hrun & Hq & _ & _ & Hloop).
  split; [exact Hrun |]. split; [exact Hq |].
  destruct (Hloop [] redis_down [undisturbed; undisturbed] eq_refl)
    as (_ & _ & _ & _ & _ & Hfirst).
  destruct (Hfirst [] [[]] eq_refl) as (Hq1 & _ & Hlogged).
  destruct (Hloop [redis_down] undisturbed [undisturbed] eq_refl)
    as (_ & _ & _ & Hgoes & _ & Hsecond).
  destruct (Hsecond [] [] Hq1) as (Hq2 & _).
  split; [| split; [exact Hq1 | split; [exact Hq2 | exact Hgoes]]].
  apply (Hlogged (Exception "redis down") eq_refl).
  simpl. tauto.
Defined.

(** ** The callers, on concrete inputs *)

Lemma X2_witness :
  let jobs := [(1%Z, 1%Q); (2%Z, 1%Q)] in
  let s' := run_tasks (R := exact_rounding) "optimization" jobs initial_system in
  quantum_processors s' =
    ("quantum_core_1",
     {| state := {| coherence := (9801 # 10000)%Q |}; current_tasks := [] |})
    :: tl initial_processors /\
  logs s' = [QuantumTaskCompleted 1; QuantumTaskCompleted 2].
Proof.
  intros jobs s'.
  destruct (@X2_sequential_tasks_wear_the_first_unit exact_rounding "optimization" jobs
              initial_system "quantum_core_1"
              {| state := {| coherence := 1%Q |}; current_tasks := [] |}
              (tl initial_processors) eq_refl eq_refl) as (H1 & H2 & _).
  - discriminate.
  - cbn. intros [H | [H | []]]; discriminate.
  - split; [exact H1 | exact H2].
Defined.

Lemma X4_witness :
  let s := sys (published "quantum_stream" 2) in
  let s' := snd (optimization_tick (R := exact_rounding) s) in
  the_queue "quantum_stream" s' = the_queue "quantum_stream" s /\
  ~ In (ClearedStream "quantum_stream") (new_logs s s').
Proof.
  exact (@X4_small_streams_are_never_shed exact_rounding
           (repeat (Publish "quantum_stream" []) 2) "quantum_stream" (or_introl eq_refl)).
Defined.

Lemma X5_witness :
  let s := sys (run (R := exact_rounding)
                  [Publish "ai_decision_stream" [("confidence", Some (9 # 10)%Q)];
                   Publish "ai_decision_stream" []] initial_config) in
  Forall benign [undisturbed; undisturbed] /\
  ai_decisions
    (logs (snd (_process_data_stream "ai_decision_stream"
                  [undisturbed; undisturbed] s))) =
    [[("confidence", Some (9 # 10)%Q)]; []].
Proof.
  intro s.
  assert (H : Forall benign [undisturbed; undisturbed])
    by (repeat constructor; discriminate).
  split; [exact H |].
  exact (@X5_ai_decisions_are_logged_in_order [undisturbed; undisturbed] s H).
Defined.

Lemma X6_witness :
  let data := [("quantum_core_1", Some (6 # 10)%Q)] in
  let s := sys (run (R := exact_rounding) [Publish "quantum_stream" data] initial_config) in
  let s' := snd (stream_iteration "quantum_stream" undisturbed s) in
  benign undisturbed /\
  Forall2 (coherence_report_rule data) (quantum_processors s) (quantum_processors s') /\
  items (the_queue "quantum_stream" s') = [].
Proof.
  intros data s s'.
  assert (H : benign undisturbed) by (split; [reflexivity | discriminate]).
  split; [exact H |].
  exact (@X6_coherence_report_is_applied undisturbed s data [] H eq_refl).
Defined.

Lemma X7_witness :
  fst (_process_data_stream "quantum_stream"
         [undisturbed; cancelling; undisturbed] initial_system) = Raise CancelledError /\
  is_Exception CancelledError = false.
Proof.
  assert (H : fst (_process_data_stream "quantum_stream"
                     [undisturbed; cancelling; undisturbed] initial_system)
              = Raise CancelledError) by reflexivity.
  split; [exact H |].
  exact (@X7_no_Exception_leaves_the_stream_processor "quantum_stream"
           [undisturbed; cancelling; undisturbed] initial_system CancelledError H).
Defined.

Lemma X8_witness :
  let m := sample (R := exact_rounding) calm_sampling initial_system in
  in_unit_interval (processing_efficiency m) /\
  in_unit_interval (real_time_performance m) /\
  ((1 # 2) <= system_reliability m)%Q /\
  in_unit_interval (quantum_coherence m).
Proof.
  intro m.
  destruct (@X8_sampled_metrics_are_fractions exact_rounding calm_sampling initial_system)
    as (H1 & H2 & H3).
  assert (Hex : forall x : Q, (rnd (Rounding := exact_rounding) x == x)%Q)
    by (intro x; reflexivity).
  assert (Hq : quality_bounded initial_system)
    by (repeat constructor; discriminate).
  destruct (H3 Hex) as ((H4 & _) & H5).
  split; [exact H1 |]. split; [apply H2; discriminate |].
  split; [exact H4 | exact (H5 Hq)].
Defined.

Lemma X9_witness :
  (10 * nonempty_streams initial_system
   < 7 * Nat.max (length (data_streams initial_system)) 1)%nat /\
  _needs_optimization (R := exact_rounding)
    (snd (monitor_iteration (R := exact_rounding) calm_sampling initial_system)) = true.
Proof.
  assert (H : (10 * nonempty_streams initial_system
               < 7 * Nat.max (length (data_streams initial_system)) 1)%nat)
    by (vm_compute; lia).
  split; [exact H |].
  exact (@X9_idle_streams_trigger_the_optimizer exact_rounding calm_sampling initial_system
           (fun x => Qeq_refl x) H).
Defined.

Lemma X10_witness :
  (health_score (R := exact_rounding) half_metrics == 1 # 2)%Q /\
  in_unit_interval (health_score (R := exact_rounding) half_metrics).
Proof.
  assert (Hh : in_unit_interval (1 # 2)%Q) by (split; discriminate).
  destruct (@X10_health_score_is_a_weighted_mean exact_rounding half_metrics
              (fun x => Qeq_refl x) Hh Hh Hh Hh Hh) as [H1 H2].
  split; [| exact H2]. rewrite H1. reflexivity.
Defined.


Lemma X12_witness :
  (processing_efficiency (performance_metrics initial_system)
   < lit (R := exact_rounding) (7 # 10))%Q /\
  _needs_optimization (R := exact_rounding) initial_system = true /\
  In optimize_stream_processing (_generate_recommendations (R := exact_rounding) initial_system).
Proof.
  assert (H : (processing_efficiency (performance_metrics initial_system)
               < lit (R := exact_rounding) (7 # 10))%Q) by reflexivity.
  split; [exact H |].
  exact (proj1 (@X12_recommendations_cover_the_optimizer_check exact_rounding initial_system) H).
Defined.

Lemma X13_witness :
  In ai_performance (_identify_critical_issues (R := exact_rounding) initial_system) /\
  _needs_optimization (R := exact_rounding) initial_system = true.
Proof.
  assert (H : In ai_performance (_identify_critical_issues (R := exact_rounding) initial_system))
    by (left; reflexivity).
  split; [exact H |].
  exact (proj1 (@X13_ai_performance_issue_means_optimizer_fires exact_rounding
                  initial_system H)).
Defined.

Lemma X15_witness :
  let ls := [Submit 1 "optimization";
             Publish "quantum_stream" [("quantum_core_2", Some (1 # 2)%Q)];
             StreamIteration "quantum_stream" undisturbed; OptimizationTick] in
  let s := sys (run (R := exact_rounding) ls initial_config) in
  Forall label_in_range ls /\
  Forall (fun ka => in_unit_interval (a_utilization (snd ka)) /\
                    in_unit_interval (a_coherence (snd ka)) /\
                    in_unit_interval (a_performance_score (snd ka)))
         (snd (_generate_quantum_analysis (R := exact_rounding) s)).
Proof.
  intros ls s.
  assert (H : Forall label_in_range ls).
  { repeat constructor; simpl; discriminate. }
  split; [exact H |].
  exact (proj2 (@X15_quantum_analysis_is_bounded exact_rounding ls H)).
Defined.

Lemma X16_witness :
  Forall (fun kv => (0 <= coherence (state (snd kv)))%Q)
         (quantum_processors (sys core_1_flat)) /\
  Forall (fun kv => (7 # 10 <= coherence (state (snd kv)))%Q)
         (quantum_processors (passes (R := exact_rounding) 7 (sys core_1_flat))).
Proof.
  assert (H : Forall (fun kv => (0 <= coherence (state (snd kv)))%Q)
                     (quantum_processors (sys core_1_flat)))
    by (repeat constructor; discriminate).
  split; [exact H |].
  exact (proj1 (@X16_seven_passes_restore_the_pool exact_rounding (sys core_1_flat)
                  (fun x => Qeq_refl x) H)).
Defined.

Lemma X17_witness :
  exists l,
    _validate_advanced_dashboard_layout two_widgets = Return l /\
    lookup "widgets" l = Some (VWidgets [mk_widget "security" "camera_wall" None None]) /\
    lookup "columns" l = Some (VInt 2) /\
    lookup "layout_type" l = Some (VStr "adaptive_grid").
Proof.
  assert (Hnd : NoDup (keys two_widgets)).
  { repeat constructor; cbn; intuition discriminate. }
  destruct (_validate_advanced_dashboard_layout two_widgets) as [l | e] eqn:Hv;
    [| discriminate Hv].
  exists l. split; [reflexivity |].
  destruct (@X17_validation_keeps_the_known_widgets two_widgets l Hnd Hv)
    as (ws & Hw & _ & Hgiven & _ & Hother).
  rewrite Hw, (Hgiven _ eq_refl).
  split; [reflexivity |].
  split; (rewrite Hother by discriminate; reflexivity).
Defined.

Lemma X18_witness :
  exists l',
    _optimize_layout_with_ai default_layout 7 no_dashboards = (Return l', no_dashboards) /\
    lookup "widgets" l' =
      Some (VWidgets (default_widgets
                      ++ [mk_widget "security" "threat_monitor" (Some true) None])%list) /\
    lookup "optimization_timestamp" l' = Some (VTime 7).
Proof.
  destruct (@X18_optimization_fills_up_to_six_widgets default_layout 7 no_dashboards
              default_widgets eq_refl) as (l' & added & H1 & H2 & H3 & _ & _ & H6 & _).
  exists l'. split; [exact H1 |]. split; [| exact H6].
  rewrite H2, H3. reflexivity.
Defined.

Lemma X20_witness :
  create_advanced_dashboard_layout initial_ai_models "alice" nameless_widget true 7
    no_dashboards =
    (Return _get_default_layout,
     {| dashboard_layouts := []; adaptive_layouts := [];
        dashboard_log := [LayoutCreationError (key_error "category")] |}).
Proof.
  apply (@X20_widget_without_category_gives_the_fallback initial_ai_models "alice"
           nameless_widget true 7 no_dashboards
           [ mk_widget "security" "camera_wall" None None;
             {| w_category := None; w_type := Some "clock";
                w_ai_enabled := None; w_quantum_enabled := None |} ]).
  - repeat constructor. cbn. intuition.
  - reflexivity.
  - right. left. reflexivity.
Defined.

Lemma X21_witness :
  exists l ws,
    fst (create_advanced_dashboard_layout initial_ai_models "alice" two_widgets true 7
           no_dashboards) = Return l /\
    lookup "widgets" l = Some (VWidgets ws) /\
    Forall (fun w => exists c, w_category w = Some c /\ In c strategic_categories) ws /\
    (2 <= length ws)%nat.
Proof.
  destruct (_validate_advanced_dashboard_layout two_widgets) as [validated | e] eqn:Hv;
    [| discriminate Hv].
  destruct (@X21_created_widgets_have_known_categories initial_ai_models "alice" two_widgets
              validated true 7 no_dashboards Hv) as (l & ws & H1 & H2 & H3 & H4).
  exists l, ws. cbn in H4. destruct H4 as [H4 _].
  repeat split; assumption.
Defined.
